(** * Verification of the client-side RAG engine of node-guide-document/script.js

    Shallow embedding of the text normaliser and chunker, the top-K
    retrieval, citation parsing, JSON export/import and the [ask] entry
    point of [src/node-guide-document/script.js].

    Modelling conventions.
    - A JavaScript string is its sequence of UTF-16 code units, [list Z].
    - JavaScript numbers that hold scores, sizes and pages are modelled as
      rationals [Q] (finite values, exact arithmetic); the citation numbers
      produced by [Number(...)] are binary64 values ([spec_float]).
    - JavaScript objects are ordered property lists ([jval]).
    - IndexedDB object stores are association lists from keys to records. *)

From Stdlib Require Import String Ascii.
From Stdlib Require Import List Bool ZArith QArith Lia.
From Stdlib Require Import Sorted Permutation.
From Stdlib Require Import SpecFloat DecimalNat.
Import ListNotations.
Open Scope Z_scope.

(** ** JavaScript strings *)

Definition jstr : Type := list Z.

(** UTF-8 decoding of Rocq string literals into UTF-16 code units, used to
    write the source's string literals. *)
Fixpoint utf16_of_utf8 (bs : list Z) : list Z :=
  match bs with
  | [] => []
  | b0 :: r0 =>
      if b0 <? 128 then b0 :: utf16_of_utf8 r0
      else if b0 <? 224 then
        match r0 with
        | b1 :: r1 => (Z.land b0 31 * 64 + Z.land b1 63) :: utf16_of_utf8 r1
        | [] => []
        end
      else if b0 <? 240 then
        match r0 with
        | b1 :: b2 :: r2 =>
            (Z.land b0 15 * 4096 + Z.land b1 63 * 64 + Z.land b2 63)
              :: utf16_of_utf8 r2
        | _ => []
        end
      else
        match r0 with
        | b1 :: b2 :: b3 :: r3 =>
            let cp := Z.land b0 7 * 262144 + Z.land b1 63 * 4096
                      + Z.land b2 63 * 64 + Z.land b3 63 in
            (55296 + Z.shiftr (cp - 65536) 10)
              :: (56320 + Z.land (cp - 65536) 1023) :: utf16_of_utf8 r3
        | _ => []
        end
  end.

Fixpoint bytes_of_string (s : string) : list Z :=
  match s with
  | EmptyString => []
  | String a r => Z.of_nat (nat_of_ascii a) :: bytes_of_string r
  end.

(** A JavaScript string literal written as a (UTF-8) Rocq string. *)
Definition js (s : string) : jstr := utf16_of_utf8 (bytes_of_string s).

(** [String.prototype.trim]: WhiteSpace and LineTerminator code units. *)
Definition is_ws (c : Z) : bool :=
  (c =? 9) || (c =? 10) || (c =? 11) || (c =? 12) || (c =? 13) || (c =? 32)
  || (c =? 160) || (c =? 5760) || ((8192 <=? c) && (c <=? 8202))
  || (c =? 8232) || (c =? 8233) || (c =? 8239) || (c =? 8287)
  || (c =? 12288) || (c =? 65279).

Fixpoint trim_start (s : jstr) : jstr :=
  match s with
  | [] => []
  | c :: r => if is_ws c then trim_start r else s
  end.

Fixpoint trim_end (s : jstr) : jstr :=
  match s with
  | [] => []
  | c :: r =>
      let r' := trim_end r in
      match r' with
      | [] => if is_ws c then [] else [c]
      | _ => c :: r'
      end
  end.

Definition js_trim (s : jstr) : jstr := trim_end (trim_start s).

(** [s.slice(a, b)] for [0 <= a <= b]. *)
Definition slice (a b : nat) (s : jstr) : jstr := firstn (b - a) (skipn a s).

(** ** normalizeText (lines 79-86) *)

(** [.replace(/\u0000/g, " ")] *)
Definition replace_nul (s : jstr) : jstr :=
  map (fun c => if c =? 0 then 32 else c) s.

Definition is_blank (c : Z) : bool := (c =? 32) || (c =? 9).

(** [.replace(/[ \t]+/g, " ")]: the global scan replaces every maximal run
    of spaces and tabs by one space; [in_run] says the scan is inside such a
    run, whose space has already been emitted. *)
Fixpoint collapse_blanks (in_run : bool) (s : jstr) : jstr :=
  match s with
  | [] => []
  | c :: r =>
      if is_blank c then
        if in_run then collapse_blanks true r else 32 :: collapse_blanks true r
      else c :: collapse_blanks false r
  end.

(** [.replace(/\r\n/g, "\n")]: one left-to-right pass. *)
Fixpoint replace_crlf (s : jstr) : jstr :=
  match s with
  | c :: ((d :: r) as s') =>
      if (c =? 13) && (d =? 10) then 10 :: replace_crlf r
      else c :: replace_crlf s'
  | _ => s
  end.

(** [.replace(/\n{3,}/g, "\n\n")]: a maximal run of [n] newlines becomes
    [min n 2] newlines; [k] counts the newlines of the current run emitted. *)
Fixpoint collapse_newlines (k : nat) (s : jstr) : jstr :=
  match s with
  | [] => []
  | c :: r =>
      if c =? 10 then
        if (k <? 2)%nat then 10 :: collapse_newlines (S k) r
        else collapse_newlines k r
      else c :: collapse_newlines 0 r
  end.

(** [normalizeText(t)]; [t ?? ""] is the caller's concern (strings only). *)
Definition normalizeText (t : jstr) : jstr :=
  js_trim (collapse_newlines 0 (replace_crlf (collapse_blanks false (replace_nul t)))).

(** ** chunkText (lines 88-103) *)

Definition CHUNK_CHARS : nat := 1200.
Definition CHUNK_OVERLAP : nat := 200.

(** One iteration of the [while (start < t.length)] loop and the rest of
    the loop.  The loop need not terminate (for [overlap >= chunkSize] it
    does not), so it runs on [fuel]: [None] means the loop did not reach its
    [break] or its exit test within [fuel] iterations.  [end_ - overlap] on
    [nat] is [Math.max(0, end - overlap)]. *)
Fixpoint chunk_loop (fuel : nat) (t : jstr) (chunkSize overlap start : nat)
  : option (list jstr) :=
  match fuel with
  | O => None
  | S fuel' =>
      if (start <? length t)%nat then
        let end_ := Nat.min (length t) (start + chunkSize) in
        let piece := js_trim (slice start end_ t) in
        let out := if (30 <=? length piece)%nat then [piece] else [] in
        if (length t <=? end_)%nat then Some out
        else option_map (app out) (chunk_loop fuel' t chunkSize overlap (end_ - overlap))
      else Some []
  end.

(** [chunkText(text, chunkSize, overlap)], run for at most [fuel] loop
    iterations. *)
Definition chunkText (fuel : nat) (text : jstr) (chunkSize overlap : nat)
  : option (list jstr) :=
  let t := normalizeText text in
  match t with
  | [] => Some []
  | _ => chunk_loop fuel t chunkSize overlap 0
  end.

(** ** Properties of normalised text *)

(** No two consecutive spaces; [b] says the previous code unit was a space. *)
Fixpoint no_dbl_from (b : bool) (s : jstr) : bool :=
  match s with
  | [] => true
  | c :: r => if c =? 32 then negb b && no_dbl_from true r else no_dbl_from false r
  end.

(** No three consecutive newlines; [k] newlines immediately precede [s]. *)
Fixpoint no_nl3_from (k : nat) (s : jstr) : bool :=
  match s with
  | [] => true
  | c :: r => if c =? 10 then (k <? 2)%nat && no_nl3_from (S k) r else no_nl3_from 0 r
  end.

(** No ["\r\n"] pair. *)
Fixpoint no_crlf (s : jstr) : bool :=
  match s with
  | c :: ((d :: _) as s') => negb ((c =? 13) && (d =? 10)) && no_crlf s'
  | _ => true
  end.

(** Neither the first nor the last code unit is white space. *)
Definition trimmed (s : jstr) : bool :=
  match s with
  | [] => true
  | c :: _ => negb (is_ws c) && negb (is_ws (last s 0))
  end.

Definition no_nul_tab (c : Z) : Prop := c <> 0 /\ c <> 9.

(** The windows [[start_k, end_k)] visited by the chunking loop, as the
    spec describes them: [end_k = min(len, start_k + size)], the next window
    starts at [end_k - overlap], and the sequence stops at the first window
    that reaches the end of the text. *)
Inductive windows (len size overlap : nat) : nat -> list (nat * nat) -> Prop :=
| win_last start :
    (start < len)%nat -> (len <= start + size)%nat ->
    windows len size overlap start [(start, len)]
| win_step start ws :
    (start + size < len)%nat ->
    windows len size overlap (start + size - overlap)%nat ws ->
    windows len size overlap start ((start, (start + size)%nat) :: ws).

(** What the loop emits for window [w] of [t]: the trimmed slice, kept when
    its length is at least 30. *)
Definition window_piece (t : jstr) (w : nat * nat) : list jstr :=
  let piece := js_trim (slice (fst w) (snd w) t) in
  if (30 <=? length piece)%nat then [piece] else [].

(** Code units that are not white space. *)
Definition non_ws_count (s : jstr) : nat := length (filter (fun c => negb (is_ws c)) s).

(** ** parseUsedCitations (lines 456-464) *)

(** [\d]: the ASCII digits. *)
Definition is_digit (c : Z) : bool := (48 <=? c) && (c <=? 57).

(** The greedy [\d+]: the maximal run of digits at the head of [s] and what
    follows it. *)
Fixpoint digit_run (s : jstr) : jstr * jstr :=
  match s with
  | [] => ([], [])
  | c :: r =>
      if is_digit c then let (d, rest) := digit_run r in (c :: d, rest)
      else ([], s)
  end.

(** A match of [/\[C(\d+)\]/] starting at the head of [s]: the captured
    digits and the text after the match. *)
Definition cite_match_at (s : jstr) : option (jstr * jstr) :=
  match s with
  | b :: c :: r =>
      if (b =? 91) && (c =? 67) then
        match digit_run r with
        | ((_ :: _) as d, e :: rest) => if e =? 93 then Some (d, rest) else None
        | _ => None
        end
      else None
  | _ => None
  end.

(** The [re.exec] loop of a global regular expression: the leftmost match at
    or after [lastIndex], then [lastIndex] moves past it.  Every step
    consumes at least one code unit, so [fuel = length s] suffices. *)
Fixpoint cite_scan (fuel : nat) (s : jstr) : list jstr :=
  match fuel with
  | O => []
  | S fuel' =>
      match cite_match_at s with
      | Some (d, rest) => d :: cite_scan fuel' rest
      | None =>
          match s with
          | [] => []
          | _ :: r => cite_scan fuel' r
          end
      end
  end.

(** [Number(m[1])] on a digit string: its decimal value rounded to the
    nearest binary64 value. *)
Definition digits_value (d : jstr) : Z :=
  fold_left (fun acc c => acc * 10 + (c - 48)) d 0.

Definition js_Number_of_digits (d : jstr) : spec_float :=
  binary_normalize 53 1024 (digits_value d) 0 false.

Definition spec_float_eqb (x y : spec_float) : bool :=
  match x, y with
  | S754_zero a, S754_zero b => Bool.eqb a b
  | S754_infinity a, S754_infinity b => Bool.eqb a b
  | S754_nan, S754_nan => true
  | S754_finite a m e, S754_finite b m' e' =>
      Bool.eqb a b && Pos.eqb m m' && Z.eqb e e'
  | _, _ => false
  end.

(** [Set.prototype.add]: insertion order, no duplicates. *)
Definition set_add (x : spec_float) (l : list spec_float) : list spec_float :=
  if existsb (spec_float_eqb x) l then l else l ++ [x].

Definition parseUsedCitations (answerText : jstr) : list spec_float :=
  fold_left (fun used d => set_add (js_Number_of_digits d) used)
    (cite_scan (length answerText) answerText) [].

(** ** JavaScript values *)

(** Values the program handles: JSON data, [undefined] (a missing property)
    and the [Float32Array] vectors of the embedder. *)
Inductive jval : Type :=
| JUndef
| JNull
| JBool (b : bool)
| JNum (q : Q)
| JStr (s : jstr)
| JArr (l : list jval)
| JObj (fields : list (jstr * jval))
| JF32 (v : list Q).

Definition jstr_eqb (a b : jstr) : bool :=
  (length a =? length b)%nat && forallb (fun p => fst p =? snd p) (combine a b).

(** Property access [o.k]: [undefined] when [o] has no such own property
    (the program only reads named properties of records). *)
Definition get (o : jval) (k : jstr) : jval :=
  match o with
  | JObj fs =>
      match find (fun kv => jstr_eqb (fst kv) k) fs with
      | Some (_, v) => v
      | None => JUndef
      end
  | _ => JUndef
  end.

(** [!!v] *)
Definition js_truthy (v : jval) : bool :=
  match v with
  | JUndef | JNull => false
  | JBool b => b
  | JNum q => negb (Qeq_bool q 0)
  | JStr s => negb (Nat.eqb (length s) 0)
  | JArr _ | JObj _ | JF32 _ => true
  end.

(** Decimal digits of an index, for array-like property names. *)
Fixpoint uint_codes (u : Decimal.uint) : jstr :=
  match u with
  | Decimal.Nil => []
  | Decimal.D0 u => 48 :: uint_codes u
  | Decimal.D1 u => 49 :: uint_codes u
  | Decimal.D2 u => 50 :: uint_codes u
  | Decimal.D3 u => 51 :: uint_codes u
  | Decimal.D4 u => 52 :: uint_codes u
  | Decimal.D5 u => 53 :: uint_codes u
  | Decimal.D6 u => 54 :: uint_codes u
  | Decimal.D7 u => 55 :: uint_codes u
  | Decimal.D8 u => 56 :: uint_codes u
  | Decimal.D9 u => 57 :: uint_codes u
  end.

Definition index_key (n : nat) : jstr := uint_codes (Nat.to_uint n).

(** The own properties ["0"], ["1"], ... of an array-like value. *)
Definition indexed (l : list jval) : list (jstr * jval) :=
  combine (map index_key (seq 0 (length l))) l.

(** Object properties through a round trip: [undefined] ones are dropped. *)
Fixpoint rt_fields (f : jval -> jval) (fs : list (jstr * jval)) : list (jstr * jval) :=
  match fs with
  | [] => []
  | (k, JUndef) :: r => rt_fields f r
  | (k, x) :: r => (k, f x) :: rt_fields f r
  end.

(** [JSON.parse(JSON.stringify(v))] for an object or array [v]:
    [undefined] properties are omitted, [undefined] array items become
    [null], a [Float32Array] becomes an object with index keys. *)
Fixpoint json_roundtrip (v : jval) : jval :=
  match v with
  | JUndef => JNull
  | JArr l => JArr (map json_roundtrip l)
  | JObj fs => JObj (rt_fields json_roundtrip fs)
  | JF32 xs => JObj (indexed (map JNum xs))
  | _ => v
  end.

(** JSON data: no [undefined] and no typed array anywhere inside. *)
Fixpoint json_plain (v : jval) : bool :=
  match v with
  | JUndef | JF32 _ => false
  | JArr l => forallb json_plain l
  | JObj fs => forallb (fun kv => json_plain (snd kv)) fs
  | _ => true
  end.

(** ** retrieveTopChunks and topKByScore (lines 105-117, 437-445) *)

(** [dot(a, b)]: the sum of [a[i] * b[i]] for [i < min(a.length, b.length)],
    accumulated left to right. *)
Definition dot (a b : list Q) : Q :=
  fold_left (fun s p => (s + fst p * snd p)%Q) (combine a b) 0%Q.

(** The chunk's embedding when [ch.embedding] is truthy.  The property only
    ever holds [null] or the embedder's [Float32Array] (set by [indexFile],
    [importJSON] and [rebuildAllEmbeddings]); any other truthy value is read
    as the empty vector. *)
Definition embedding_vector (c : jval) : option (list Q) :=
  let e := get c (js "embedding") in
  if js_truthy e then Some (match e with JF32 v => v | _ => [] end) else None.

Record scored := { score : Q; sch : jval }.

(** The [for (const ch of state.chunks)] loop of [retrieveTopChunks]. *)
Fixpoint score_chunks (queryEmbedding : list Q) (cs : list jval) : list scored :=
  match cs with
  | [] => []
  | c :: r =>
      match embedding_vector c with
      | Some v => {| score := dot queryEmbedding v; sch := c |} :: score_chunks queryEmbedding r
      | None => score_chunks queryEmbedding r
      end
  end.

(** [Array.prototype.sort] with the comparator [(x, y) => y.score - x.score].
    The sort is stable (ES2019) and the comparator is consistent on finite
    scores, which fixes the result: the stable insertion sort below.  An item
    goes after every item [e] with [comparator(e, a) <= 0]. *)
Fixpoint insert_by_score (a : scored) (l : list scored) : list scored :=
  match l with
  | [] => [a]
  | e :: r => if Qle_bool (score a) (score e) then e :: insert_by_score a r else a :: l
  end.

Definition sort_by_score (items : list scored) : list scored :=
  fold_left (fun acc a => insert_by_score a acc) items [].

Definition topKByScore (items : list scored) (k : nat) : list scored :=
  firstn k (sort_by_score items).

Definition TOP_K : nat := 6.

(** [retrieveTopChunks] with the constant [TOP_K] made a parameter. *)
Definition retrieveTopChunks_k (k : nat) (queryEmbedding : list Q) (cs : list jval)
  : list scored :=
  topKByScore (score_chunks queryEmbedding cs) k.

Definition retrieveTopChunks (queryEmbedding : list Q) (cs : list jval) : list scored :=
  retrieveTopChunks_k TOP_K queryEmbedding cs.

(** ** Application state *)

(** An entry of a chat message's [.meta] element. *)
Inductive meta_item : Type :=
| MetaText (text : jstr)
| MetaDetails (top : list scored) (used : list spec_float).

(** A chat message element: its role, the text shown in its [.bubble]
    (rendered through [asBubbleHtml]) and the entries of its [.meta]. *)
Record message := { m_role : jstr; m_bubble : jstr; m_meta : list meta_item }.

(** Calls made to the external models. *)
Inductive ext_call : Type :=
| CallEmbed (texts : list jstr)
| CallGenerate (messages : list (jstr * jstr)) (temperature : Q).

(** The module-level [state] object, the part of the DOM the program writes
    (chat, status, progress), the IndexedDB stores ([docs] and [chunks],
    keyed by [id]), the alerts shown and the calls to the models. *)
Record app_state := {
  docs : list jval;
  chunks : list jval;
  engine : bool;
  embedder : bool;
  chat : list message;
  status : jstr;
  progress : Q;
  db_docs : list (jval * jval);
  db_chunks : list (jval * jval);
  alerts : list jstr;
  calls : list ext_call
}.

Definition with_docs v st := {| docs := v; chunks := chunks st; engine := engine st;
  embedder := embedder st; chat := chat st; status := status st; progress := progress st;
  db_docs := db_docs st; db_chunks := db_chunks st; alerts := alerts st; calls := calls st |}.
Definition with_chunks v st := {| docs := docs st; chunks := v; engine := engine st;
  embedder := embedder st; chat := chat st; status := status st; progress := progress st;
  db_docs := db_docs st; db_chunks := db_chunks st; alerts := alerts st; calls := calls st |}.
Definition with_embedder v st := {| docs := docs st; chunks := chunks st; engine := engine st;
  embedder := v; chat := chat st; status := status st; progress := progress st;
  db_docs := db_docs st; db_chunks := db_chunks st; alerts := alerts st; calls := calls st |}.
Definition with_chat v st := {| docs := docs st; chunks := chunks st; engine := engine st;
  embedder := embedder st; chat := v; status := status st; progress := progress st;
  db_docs := db_docs st; db_chunks := db_chunks st; alerts := alerts st; calls := calls st |}.
Definition with_status v st := {| docs := docs st; chunks := chunks st; engine := engine st;
  embedder := embedder st; chat := chat st; status := v; progress := progress st;
  db_docs := db_docs st; db_chunks := db_chunks st; alerts := alerts st; calls := calls st |}.
Definition with_progress v st := {| docs := docs st; chunks := chunks st; engine := engine st;
  embedder := embedder st; chat := chat st; status := status st; progress := v;
  db_docs := db_docs st; db_chunks := db_chunks st; alerts := alerts st; calls := calls st |}.
Definition with_db_docs v st := {| docs := docs st; chunks := chunks st; engine := engine st;
  embedder := embedder st; chat := chat st; status := status st; progress := progress st;
  db_docs := v; db_chunks := db_chunks st; alerts := alerts st; calls := calls st |}.
Definition with_db_chunks v st := {| docs := docs st; chunks := chunks st; engine := engine st;
  embedder := embedder st; chat := chat st; status := status st; progress := progress st;
  db_docs := db_docs st; db_chunks := v; alerts := alerts st; calls := calls st |}.
Definition with_alerts v st := {| docs := docs st; chunks := chunks st; engine := engine st;
  embedder := embedder st; chat := chat st; status := status st; progress := progress st;
  db_docs := db_docs st; db_chunks := db_chunks st; alerts := v; calls := calls st |}.
Definition with_calls v st := {| docs := docs st; chunks := chunks st; engine := engine st;
  embedder := embedder st; chat := chat st; status := status st; progress := progress st;
  db_docs := db_docs st; db_chunks := db_chunks st; alerts := alerts st; calls := v |}.

(** Exceptions that end an async function (its promise rejects). *)
Inductive js_error : Type :=
| EmbedLoadError          (** the embedding pipeline failed to load *)
| SyntaxError             (** [JSON.parse] of a malformed file *)
| DataError               (** IndexedDB [put] of a record without a valid key *)
| TypeError (what : jstr) (** a value that is not iterable, or not an array *)
| ReadError (what : jstr). (** a file that cannot be read, or a PDF pdf.js cannot open *)

(** The async functions as state-and-exception computations. *)
Definition M (A : Type) : Type := app_state -> (A + js_error) * app_state.

Definition ret {A} (a : A) : M A := fun st => (inl a, st).
Definition bind {A B} (m : M A) (k : A -> M B) : M B :=
  fun st => match m st with
            | (inl a, st') => k a st'
            | (inr e, st') => (inr e, st')
            end.
Definition throw {A} (e : js_error) : M A := fun st => (inr e, st).
Definition get_state : M app_state := fun st => (inl st, st).
Definition modify (f : app_state -> app_state) : M unit := fun st => (inl tt, f st).
(** [try { m } catch (e) { h(e) }] *)
Definition catch (m : M unit) (h : js_error -> M unit) : M unit :=
  fun st => match m st with
            | (inr e, st') => h e st'
            | r => r
            end.

Notation "x <- m ;; k" := (bind m (fun x => k))
  (at level 61, m at next level, right associativity).
Notation "m ;; k" := (bind m (fun _ => k)) (at level 61, right associativity).

(** The external models, consumed through narrow interfaces. *)
Record env := {
  embed_model : list jstr -> list (list Q);   (** the feature-extraction pipeline *)
  chat_stream : list (jstr * jstr) -> Q -> list jstr;  (** streamed delta contents *)
  embedder_load_ok : bool;                    (** whether the pipeline loads *)
  now_iso : jstr                              (** [nowISO()] *)
}.

(** ** UI helpers *)

Definition alert (msg : jstr) : M unit := modify (fun st => with_alerts (alerts st ++ [msg]) st).
Definition setStatus (msg : jstr) : M unit := modify (with_status msg).
Definition js_min (a b : Q) : Q := if Qle_bool a b then a else b.
Definition js_max (a b : Q) : Q := if Qle_bool a b then b else a.
Definition clamp01 (x : Q) : Q := js_max 0 (js_min 1 x).
Definition setProgress (v : Q) : M unit := modify (with_progress (clamp01 v)).

(** [addMessage(role, text)]: appends a message and returns its index, which
    identifies the element later updated through [assistantEl]. *)
Definition addMessage (role text : jstr) : M nat :=
  st <- get_state ;;
  modify (with_chat (chat st ++ [{| m_role := role; m_bubble := text; m_meta := [] |}])) ;;
  ret (length (chat st)).

Fixpoint update_nth {A} (i : nat) (f : A -> A) (l : list A) : list A :=
  match l, i with
  | [], _ => []
  | x :: r, O => f x :: r
  | x :: r, S i' => x :: update_nth i' f r
  end.

Definition set_bubble (i : nat) (text : jstr) : M unit :=
  modify (fun st => with_chat (update_nth i (fun m =>
    {| m_role := m_role m; m_bubble := text; m_meta := m_meta m |}) (chat st)) st).

Definition set_meta (i : nat) (f : list meta_item -> list meta_item) : M unit :=
  modify (fun st => with_chat (update_nth i (fun m =>
    {| m_role := m_role m; m_bubble := m_bubble m; m_meta := f (m_meta m) |}) (chat st)) st).

Definition log_call (c : ext_call) : M unit := modify (fun st => with_calls (calls st ++ [c]) st).

(** [arr.join(sep)] *)
Fixpoint join (sep : jstr) (l : list jstr) : jstr :=
  match l with
  | [] => []
  | [x] => x
  | x :: r => x ++ sep ++ join sep r
  end.

Definition NL : jstr := [10].

(** ** ensureEmbedder and embedTexts (lines 205-245) *)

Definition ensureEmbedder (E : env) : M unit :=
  st <- get_state ;;
  if embedder st then ret tt else
  setStatus (js "임베딩 모델 로딩 중…") ;;
  setProgress (2 # 100) ;;
  if embedder_load_ok E then
    modify (with_embedder true) ;;
    setStatus (js "임베딩 모델 로드 완료") ;;
    setProgress 0
  else throw EmbedLoadError.

Definition embedTexts (E : env) (texts : list jstr) : M (list (list Q)) :=
  ensureEmbedder E ;;
  log_call (CallEmbed texts) ;;
  ret (embed_model E texts).

(** ** escapeHtml (lines 65-73) *)

(** The replacement of one code unit by [escapeHtml]'s map. *)
Definition escape_char (c : Z) : jstr :=
  if c =? 38 then js "&amp;"
  else if c =? 60 then js "&lt;"
  else if c =? 62 then js "&gt;"
  else if c =? 34 then js "&quot;"
  else if c =? 39 then js "&#39;"
  else [c].

(** The regex replace of [escapeHtml] on a string [s]: each of the five
    characters ampersand, less-than, greater-than, double and single quote
    is replaced by its character reference. *)
Definition escape_units (s : jstr) : jstr := flat_map escape_char s.

(** [escapeHtml(s)]: [null] and [undefined] read as [""]; any other
    non-string has no [replace] method ([None], a [TypeError]). *)
Definition escapeHtml (v : jval) : option jstr :=
  match v with
  | JUndef | JNull => Some []
  | JStr s => Some (escape_units s)
  | _ => None
  end.

(** ** Prompt building (lines 304-322, 447-454) *)

Section Prompt.
(** [String(x)] of a number ([Number.prototype.toString]) is the engine's
    shortest round-trip decimal rendering; the prompt text is not inspected
    by any property below, so it is left abstract here. *)
Variable number_to_string : Q -> jstr.

(** [String(v)], as a template literal renders a value, when that does not
    throw (see [to_string_throws] below). *)
Fixpoint js_to_string (v : jval) : jstr :=
  match v with
  | JUndef => js "undefined"
  | JNull => js "null"
  | JBool true => js "true"
  | JBool false => js "false"
  | JNum q => number_to_string q
  | JStr s => s
  | JArr l => join [44] (map (fun x => match x with
                                        | JUndef | JNull => []
                                        | _ => js_to_string x
                                        end) l)
  | JObj _ => js "[object Object]"
  | JF32 xs => join [44] (map number_to_string xs)
  end.

(** Whether a template literal throws on [v].  [ToString] of an object calls
    its [toString] method, then its [valueOf]; a parsed JSON object with an
    own property named [toString] has shadowed the method by a non-callable
    value, [Object.prototype.valueOf] returns the object itself, which is not
    a primitive, and a [TypeError] is thrown.  An array's [toString] joins
    its elements, rendering each one that is not [null] or [undefined]. *)
Fixpoint to_string_throws (v : jval) : bool :=
  match v with
  | JObj fs => existsb (fun kv => jstr_eqb (fst kv) (js "toString")) fs
  | JArr l => existsb to_string_throws l
  | _ => false
  end.

(** [buildContext(scoredChunks)], for chunks whose [docName], [page] and
    [text] render without throwing. *)
Definition buildContext (top : list scored) : jstr :=
  join (NL ++ NL)
    (map (fun p =>
            let '(idx, item) := p in
            let ch := sch item in
            let header := js "[C" ++ index_key (S idx) ++ js "] (" ++
                          js_to_string (get ch (js "docName")) ++ js " / p." ++
                          js_to_string (get ch (js "page")) ++ js ")" in
            header ++ NL ++ js_to_string (get ch (js "text")))
         (combine (seq 0 (length top)) top)).
End Prompt.

(** [buildSystemPrompt(strict)] *)
Definition buildSystemPrompt (strict : bool) : jstr :=
  if strict then
    join NL [js "너는 '근거 자료'로 제공된 내용만 사용해서 답하는 어시스턴트다.";
             js "규칙:";
             js "1) 근거에 없는 정보는 절대 추측하거나 일반상식으로 보완하지 말 것.";
             js "2) 근거에서 확인되지 않으면 정확히 다음 문장만 출력: 자료에 근거가 없습니다.";
             js "3) 답변 마지막에 [출처] 섹션을 만들고, 사용한 근거 ID를 [C1], [C2] 형태로 나열할 것.";
             js "4) 답변은 한국어로."]
  else
    join NL [js "너는 '근거 자료'로 제공된 내용만 사용해서 답하는 어시스턴트다.";
             js "근거에 없는 내용은 '자료에 근거가 없습니다'라고 말하고, 가능한 범위만 요약해라.";
             js "답변 마지막에 [출처] 섹션으로 사용한 근거 ID([C#])를 적어라.";
             js "답변은 한국어로."].

(** The [user] prompt of [ask]. *)
Definition buildUserPrompt (context questionText : jstr) : jstr :=
  join NL [js "아래 [근거] 안에서만 정보를 찾아 질문에 답해라.";
           [];
           js "[근거]";
           context;
           [];
           js "[질문]";
           questionText;
           [];
           js "형식:";
           js "- 답변 마지막에 [출처] 섹션을 만들고, 사용한 근거 ID를 [C1], [C2]처럼 적어라.";
           js "- 근거가 없으면 strict 모드에 따라 처리해라."].

(** ** ask (lines 499-596) *)

Definition MSG_NO_CORPUS : jstr := js "먼저 근거자료를 업로드해서 인덱싱해 주세요.".
Definition MSG_NO_ENGINE : jstr := js "먼저 로컬 LLM(WebLLM) 모델을 로드해 주세요.".
Definition MSG_THINKING : jstr := js "생각 중…" ++ NL ++ js "(근거 검색 + 답변 생성)".
Definition MSG_NO_CITATION : jstr :=
  js "주의: 답변에 [C#] 인용이 없습니다. 근거 기반 답변으로 보기 어렵습니다. 질문을 더 구체화하거나 근거가 있는지 확인해 주세요.".
Definition MSG_SOURCE_LINE : jstr := js "근거 검색 Top " ++ index_key TOP_K ++ js "개에서 답변 생성".

(** The [for await] loop over the stream: each non-empty delta is appended
    to [answer] and the bubble re-rendered. *)
Fixpoint stream_loop (i : nat) (answer : jstr) (deltas : list jstr) : M jstr :=
  match deltas with
  | [] => ret answer
  | d :: r =>
      match d with
      | [] => stream_loop i answer r
      | _ => set_bubble i (answer ++ d) ;; stream_loop i (answer ++ d) r
      end
  end.

(** [ch.embedding] in the loop of [retrieveTopChunks] reads a property of
    every chunk: a [null] or [undefined] chunk throws. *)
Definition chunk_readable (c : jval) : bool :=
  match c with JUndef | JNull => false | _ => true end.

(** [buildContext] renders the [docName], [page] and [text] of each chunk of
    [top] in template literals. *)
Definition context_throws (top : list scored) : bool :=
  existsb (fun item => let ch := sch item in
             to_string_throws (get ch (js "docName")) || to_string_throws (get ch (js "page")) ||
             to_string_throws (get ch (js "text"))) top.

(** [renderContextDetails(top, used)] passes the [docName] and [text] of each
    chunk of [top] to [escapeHtml] (its [page] was rendered by
    [buildContext] already, and [item.score] is a number). *)
Definition details_render (top : list scored) : bool :=
  forallb (fun item => let ch := sch item in
             match escapeHtml (get ch (js "docName")), escapeHtml (get ch (js "text")) with
             | Some _, Some _ => true
             | _, _ => false
             end) top.

Section Ask.
Variable number_to_string : Q -> jstr.

Definition ask (E : env) (questionText : jstr) (strict showContext : bool) : M unit :=
  if Nat.eqb (length (js_trim questionText)) 0 then ret tt else
  st <- get_state ;;
  if Nat.eqb (length (chunks st)) 0 then alert MSG_NO_CORPUS else
  if negb (engine st) then alert MSG_NO_ENGINE else
  ensureEmbedder E ;;
  addMessage (js "user") questionText ;;
  assistantEl <- addMessage (js "assistant") MSG_THINKING ;;
  setStatus (js "질문 임베딩 생성/검색 중…") ;;
  setProgress (1 # 10) ;;
  vecs <- embedTexts E [questionText] ;;
  (* [const [qVec] = ...]: the pipeline returns one row per input text *)
  let qVec := match vecs with v :: _ => v | [] => [] end in
  st1 <- get_state ;;
  (if forallb chunk_readable (chunks st1) then ret tt
   else throw (TypeError (js "Cannot read properties of null (reading 'embedding')"))) ;;
  let top := retrieveTopChunks qVec (chunks st1) in
  (if context_throws top then throw (TypeError (js "Cannot convert object to primitive value"))
   else ret tt) ;;
  let context := buildContext number_to_string top in
  setProgress (1 # 4) ;;
  let sys := buildSystemPrompt strict in
  let user := buildUserPrompt context questionText in
  setStatus (js "답변 생성 중…") ;;
  setProgress (35 # 100) ;;
  set_bubble assistantEl (js "답변 생성 중…") ;;
  let msgs := [(js "system", sys); (js "user", user)] in
  let temperature := if strict then 2 # 10 else 5 # 10 in
  log_call (CallGenerate msgs temperature) ;;
  answer <- stream_loop assistantEl [] (chat_stream E msgs temperature) ;;
  setProgress 0 ;;
  let used := parseUsedCitations answer in
  set_meta assistantEl (fun _ => []) ;;
  (if strict && Nat.eqb (length used) 0
   then set_meta assistantEl (fun m => m ++ [MetaText MSG_NO_CITATION])
   else ret tt) ;;
  set_meta assistantEl (fun m => m ++ [MetaText MSG_SOURCE_LINE]) ;;
  (if showContext
   then if details_render top
        then set_meta assistantEl (fun m => m ++ [MetaDetails top used])
        else throw (TypeError (js "replace is not a function"))
   else ret tt) ;;
  setStatus (js "완료").
End Ask.

(** ** IndexedDB stores (lines 182-202) *)

(** A valid IndexedDB key among JSON values: a number, a string, or an
    array of valid keys. *)
Fixpoint valid_key (v : jval) : bool :=
  match v with
  | JNum _ | JStr _ => true
  | JArr l => forallb valid_key l
  | _ => false
  end.

Fixpoint key_eqb (a b : jval) : bool :=
  match a, b with
  | JNum x, JNum y => Qeq_bool x y
  | JStr x, JStr y => jstr_eqb x y
  | JArr xs, JArr ys =>
      (fix go (xs ys : list jval) : bool :=
         match xs, ys with
         | [], [] => true
         | x :: xr, y :: yr => key_eqb x y && go xr yr
         | _, _ => false
         end) xs ys
  | _, _ => false
  end.

(** [store.put(obj)] on a store with [keyPath: "id"] and no key generator:
    the key is [obj.id]; a record without a valid key raises [DataError]
    synchronously, otherwise the record replaces any record of equal key. *)
Definition store_put (store : list (jval * jval)) (obj : jval) : option (list (jval * jval)) :=
  let k := get obj (js "id") in
  if valid_key k
  then Some (filter (fun kv => negb (key_eqb (fst kv) k)) store ++ [(k, obj)])
  else None.

(** The [for (const obj of objects) store.put(obj)] loop: the store after the
    puts that were issued, and whether the loop ran to completion.  A throwing
    [put] ends [dbPutMany] with a rejection, but the transaction is not
    aborted, so the requests already placed commit. *)
Fixpoint put_loop (store : list (jval * jval)) (objs : list jval) : list (jval * jval) * bool :=
  match objs with
  | [] => (store, true)
  | o :: r =>
      match store_put store o with
      | Some store' => put_loop store' r
      | None => (store, false)
      end
  end.

Definition dbPutMany_docs (objs : list jval) : M unit :=
  st <- get_state ;;
  let '(store', ok) := put_loop (db_docs st) objs in
  modify (with_db_docs store') ;;
  if ok then ret tt else throw DataError.

Definition dbPutMany_chunks (objs : list jval) : M unit :=
  st <- get_state ;;
  let '(store', ok) := put_loop (db_chunks st) objs in
  modify (with_db_chunks store') ;;
  if ok then ret tt else throw DataError.

Definition dbClearAll : M unit :=
  modify (with_db_docs []) ;; modify (with_db_chunks []).

(** ** exportJSON (lines 653-668) *)

Definition export_chunk (c : jval) : jval :=
  JObj [(js "id", get c (js "id")); (js "docId", get c (js "docId"));
        (js "docName", get c (js "docName")); (js "page", get c (js "page"));
        (js "text", get c (js "text"))].

(** The [payload] object that [exportJSON] serialises with [JSON.stringify]. *)
Definition exportPayload (now : jstr) (st : app_state) : jval :=
  JObj [(js "version", JNum 1); (js "exportedAt", JStr now);
        (js "docs", JArr (docs st)); (js "chunks", JArr (map export_chunk (chunks st)))].

(** ** importJSON (lines 670-696) *)

Definition is_high_surrogate (c : Z) : bool := (55296 <=? c) && (c <=? 56319).
Definition is_low_surrogate (c : Z) : bool := (56320 <=? c) && (c <=? 57343).

(** The code points of a string, as its iterator yields them. *)
Fixpoint code_points (s : jstr) : list jstr :=
  match s with
  | [] => []
  | c :: r =>
      match r with
      | d :: r' =>
          if is_high_surrogate c && is_low_surrogate d
          then [c; d] :: code_points r'
          else [c] :: code_points r
      | [] => [[c]]
      end
  end.

(** Spreading a value into call arguments ([f(...v)]): arrays and strings
    are iterable; any other JSON value throws a [TypeError]. *)
Definition spread_iter (v : jval) : M (list jval) :=
  match v with
  | JArr l => ret l
  | JStr s => ret (map JStr (code_points s))
  | JF32 xs => ret (map JNum xs)
  | _ => throw (TypeError (js "object is not iterable"))
  end.

(** Own enumerable properties copied by an object spread [{...x}]. *)
Definition spread_props (x : jval) : list (jstr * jval) :=
  match x with
  | JObj fs => fs
  | JArr l => indexed l
  | JStr s => indexed (map (fun c => JStr [c]) s)
  | JF32 xs => indexed (map JNum xs)
  | _ => []
  end.

(** Defining a property in an object literal: an existing key keeps its
    position and takes the new value, a new key is appended. *)
Fixpoint set_prop (k : jstr) (v : jval) (fs : list (jstr * jval)) : list (jstr * jval) :=
  match fs with
  | [] => [(k, v)]
  | (k', v') :: r => if jstr_eqb k' k then (k', v) :: r else (k', v') :: set_prop k v r
  end.

(** [x => ({ ...x, embedding: null })] *)
Definition null_embedding (x : jval) : jval :=
  JObj (set_prop (js "embedding") JNull (spread_props x)).

(** [v.map(f)]: only arrays have a [map] method among JSON values. *)
Definition array_map (v : jval) (f : jval -> jval) : M (list jval) :=
  match v with
  | JArr l => ret (map f l)
  | _ => throw (TypeError (js "data.chunks.map is not a function"))
  end.

Definition MSG_BAD_FORMAT : jstr := js "형식이 올바르지 않은 JSON입니다.".
Definition MSG_IMPORT_DONE : jstr :=
  js "가져오기 완료. '전체 재인덱싱'을 눌러 임베딩을 다시 생성하세요.".

(** ** renderDocs and refreshStats (lines 620-640, 127-132) *)

(** The part of [renderDocs] that reads a document: [d.id], [d.size / 1024]
    (its [ToNumber] throws where [ToString] does) and [escapeHtml(d.name)]. *)
Definition doc_renders (d : jval) : bool :=
  match d with
  | JUndef | JNull => false
  | _ => negb (to_string_throws (get d (js "size"))) &&
         match escapeHtml (get d (js "name")) with Some _ => true | None => false end
  end.

(** [renderDocs()]: with no document it only writes a placeholder; otherwise
    the [for (const ch of state.chunks)] loop reads [ch.docId] of every
    chunk, then every document is rendered.  The list it writes is not part
    of the modelled state, only whether it throws (the message of the
    [TypeError] is the engine's, and not modelled).  [refreshStats()] writes
    counts and flags and cannot throw, so it has no effect here. *)
Definition renderDocs : M unit :=
  st <- get_state ;;
  if Nat.eqb (length (docs st)) 0 then ret tt
  else if forallb chunk_readable (chunks st) && forallb doc_renders (docs st) then ret tt
  else throw (TypeError (js "cannot render the document list")).

(** [importJSON(file)], given the result of [JSON.parse] on the file's text
    ([None] when the text is not valid JSON). *)
Definition importJSON (parsed : option jval) : M unit :=
  match parsed with
  | None => throw SyntaxError
  | Some data =>
      if negb (js_truthy (get data (js "docs"))) || negb (js_truthy (get data (js "chunks")))
      then alert MSG_BAD_FORMAT
      else
        dbClearAll ;;
        modify (with_docs []) ;;
        modify (with_chunks []) ;;
        modify (with_chat []) ;;
        ds <- spread_iter (get data (js "docs")) ;;
        modify (fun st => with_docs (docs st ++ ds) st) ;;
        rawChunks <- array_map (get data (js "chunks")) null_embedding ;;
        modify (fun st => with_chunks (chunks st ++ rawChunks) st) ;;
        st <- get_state ;;
        dbPutMany_docs (docs st) ;;
        dbPutMany_chunks rawChunks ;;
        renderDocs ;;
        alert MSG_IMPORT_DONE
  end.

(** [String(e)]: the error's name (the message text is engine-specific,
    except for the [TypeError]s modelled with theirs). *)
Definition js_error_string (e : js_error) : jstr :=
  match e with
  | EmbedLoadError => js "Error"
  | SyntaxError => js "SyntaxError"
  | DataError => js "DataError"
  | TypeError what => js "TypeError: " ++ what
  | ReadError what => what
  end.

(** The [change] listener of the import input (lines 830-841). *)
Definition onImportChange (parsed : option jval) : M unit :=
  catch (importJSON parsed)
        (fun e => alert (js "가져오기 실패" ++ NL ++ js_error_string e)).

(** ** Example states and payloads *)

(** A state right after importing one document and one chunk (the chunk's
    [embedding] is [null], as [importJSON] leaves it), with a WebLLM engine
    and the embedder loaded, before any re-indexing. *)
Definition imported_doc : jval :=
  JObj [(js "id", JStr (js "d1")); (js "name", JStr (js "guide.txt"));
        (js "type", JStr (js "text/plain")); (js "size", JNum 120);
        (js "addedAt", JStr (js "2026-01-01T00:00:00.000Z"))].

Definition imported_chunk : jval :=
  JObj [(js "id", JStr (js "d1|p1|c0")); (js "docId", JStr (js "d1"));
        (js "docName", JStr (js "guide.txt")); (js "page", JNum 1);
        (js "text", JStr (js "The guide explains how documents are indexed."));
        (js "embedding", JNull)].

Definition state_after_import : app_state := {|
  docs := [imported_doc]; chunks := [imported_chunk];
  engine := true; embedder := true; chat := []; status := js "대기"; progress := 0;
  db_docs := [(JStr (js "d1"), imported_doc)];
  db_chunks := [(JStr (js "d1|p1|c0"), imported_chunk)];
  alerts := []; calls := [] |}.

(** Models that embed every text as [[1; 0]] and stream the answer
    ["See [C1]."] in two deltas. *)
Definition demo_env : env := {|
  embed_model := fun texts => map (fun _ => [1; 0]%Q) texts;
  chat_stream := fun _ _ => [js "See "; js "[C1]."];
  embedder_load_ok := true;
  now_iso := js "2026-01-02T00:00:00.000Z" |}.

(** [{"docs": {}, "chunks": []}] *)
Definition payload_docs_object : jval :=
  JObj [(js "docs", JObj []); (js "chunks", JArr [])].

(** A payload of a future [version: 2] with one document and one chunk. *)
Definition payload_version2_chunk : jval :=
  JObj [(js "id", JStr (js "d1|p1|c0")); (js "docId", JStr (js "d1"));
        (js "docName", JStr (js "guide.txt")); (js "page", JNum 1);
        (js "text", JStr (js "The guide explains how documents are indexed."))].

Definition payload_version2 : jval :=
  JObj [(js "version", JNum 2); (js "exportedAt", JStr (js "2030-01-01T00:00:00.000Z"));
        (js "docs", JArr [imported_doc]); (js "chunks", JArr [payload_version2_chunk])].

(** A version-1 payload whose only document has no [id]. *)
Definition payload_v1_doc_without_id : jval :=
  JObj [(js "version", JNum 1); (js "exportedAt", JStr (js "2026-01-02T00:00:00.000Z"));
        (js "docs", JArr [JObj [(js "name", JStr (js "guide.txt"))]]);
        (js "chunks", JArr [])].

(** A version-1 payload whose only document has a number as its [name]. *)
Definition payload_name_number : jval :=
  JObj [(js "version", JNum 1); (js "exportedAt", JStr (js "2026-01-02T00:00:00.000Z"));
        (js "docs", JArr [JObj [(js "id", JStr (js "d1")); (js "name", JNum 5)]]);
        (js "chunks", JArr [])].

(** The properties [exportJSON] keeps of a chunk. *)
Definition export_keys : list jstr := [js "id"; js "docId"; js "docName"; js "page"; js "text"].
(** ** asBubbleHtml (lines 75-77) *)

(** [asBubbleHtml(text)] for a string [text]:
    [escapeHtml(text).replace(/\n/g, "<br>")]. *)
Definition asBubbleHtml (text : jstr) : jstr :=
  flat_map (fun c => if c =? 10 then js "<br>" else [c]) (escape_units text).

(** Reference decoding of the five character references [escapeHtml]
    writes, as an HTML parser reads them in text content. *)
Fixpoint prefixb (p s : jstr) : bool :=
  match p, s with
  | [], _ => true
  | x :: p', y :: s' => (x =? y) && prefixb p' s'
  | _ :: _, [] => false
  end.

Definition unescape_head (s : jstr) : Z * jstr :=
  match s with
  | [] => (0, [])
  | c :: r =>
      if c =? 38 then
        if prefixb (js "amp;") r then (38, skipn 4 r)
        else if prefixb (js "lt;") r then (60, skipn 3 r)
        else if prefixb (js "gt;") r then (62, skipn 3 r)
        else if prefixb (js "quot;") r then (34, skipn 5 r)
        else if prefixb (js "#39;") r then (39, skipn 4 r)
        else (c, r)
      else (c, r)
  end.

Fixpoint unescape_fuel (fuel : nat) (s : jstr) : jstr :=
  match fuel with
  | O => []
  | S f =>
      match s with
      | [] => []
      | _ => let '(c, r) := unescape_head s in c :: unescape_fuel f r
      end
  end.

Definition html_unescape (s : jstr) : jstr := unescape_fuel (length s) s.

(** ** The import input's and the buttons' handlers (lines 789-820) *)

(** The [btnAsk] listener: [ask] on the trimmed question, any rejection
    reported by an alert. *)
Definition onAsk (number_to_string : Q -> jstr) (E : env) (value : jstr)
  (strict showContext : bool) : M unit :=
  let q := js_trim value in
  catch (ask number_to_string E q strict showContext)
        (fun e => alert (js "질문 처리 실패" ++ NL ++ js_error_string e)).

(** The [btnClear] listener, given the answer to its [confirm]. *)
Definition onClear (confirmed : bool) : M unit :=
  if negb confirmed then ret tt else
  dbClearAll ;;
  modify (with_docs []) ;;
  modify (with_chunks []) ;;
  modify (with_chat []) ;;
  setStatus (js "전체 삭제 완료").


(** ** Batch embedding, indexFile (lines 345-434), rebuildAllEmbeddings
    (lines 698-726) and the add button (lines 748-767) *)

Definition BATCH : nat := 8.

(** [Math.max(1, n)] *)
Definition max1 (n : nat) : Q := inject_Z (Z.of_nat (Nat.max 1 n)).
Definition Qnat (n : nat) : Q := inject_Z (Z.of_nat n).

Section Indexing.
(** The pipeline receives [x.text]; a string is passed as it is, and what a
    chunk whose [text] is not a string sends to the pipeline is the
    pipeline's business. *)
Variable text_arg : jval -> jstr.

Definition chunk_text (x : jval) : jstr :=
  match get x (js "text") with
  | JStr s => s
  | v => text_arg v
  end.

(** [for (j ...) batch[j].embedding = vecs[j]]: the chunks of the batch
    after the assignments that ran, and the [TypeError] that stopped them
    ([vecs[j]] is [undefined] past the end of [vecs]).  Module code is strict,
    so assigning to [null], [undefined] or a primitive throws; an array would
    take the property, which the value model does not represent, but no
    chunk is one: every path builds chunks as objects. *)
Fixpoint assign_embeddings (batch : list jval) (vecs : list (list Q))
  : list jval * option js_error :=
  match batch with
  | [] => ([], None)
  | c :: r =>
      let v := match vecs with x :: _ => JF32 x | [] => JUndef end in
      match c with
      | JObj fs =>
          let '(r', e) := assign_embeddings r (tl vecs) in
          (JObj (set_prop (js "embedding") v fs) :: r', e)
      | JArr _ | JF32 _ =>
          let '(r', e) := assign_embeddings r (tl vecs) in (c :: r', e)
      | _ => (c :: r, Some (TypeError (js "cannot set property embedding")))
      end
  end.

(** The batch loop [for (let i = 0; i < cs.length; i += BATCH)] over the
    chunk objects [cs].  [commit] makes the assignments visible where the
    caller's list lives ([state.chunks] for [rebuildAllEmbeddings]), and
    [report] sets the progress after a batch.  It runs for at most [fuel]
    iterations; [length cs] of them always suffice. *)
Fixpoint embed_batches (fuel : nat) (E : env) (commit : list jval -> M unit)
  (report : nat -> M unit) (i : nat) (cs : list jval) : M (list jval) :=
  match fuel with
  | O => ret cs
  | S f =>
      if (i <? length cs)%nat then
        let batch := firstn BATCH (skipn i cs) in
        vecs <- embedTexts E (map chunk_text batch) ;;
        let '(batch', err) := assign_embeddings batch vecs in
        let cs' := firstn i cs ++ batch' ++ skipn (i + BATCH) cs in
        commit cs' ;;
        match err with
        | Some e => throw e
        | None => report (i + length batch)%nat ;;
                  embed_batches f E commit report (i + BATCH) cs'
        end
      else ret cs
  end.

Definition MSG_NOTHING_TO_REINDEX : jstr := js "재인덱싱할 청크가 없습니다.".

Definition rebuildAllEmbeddings (E : env) : M unit :=
  st <- get_state ;;
  if Nat.eqb (length (chunks st)) 0 then alert MSG_NOTHING_TO_REINDEX else
  ensureEmbedder E ;;
  setStatus (js "전체 재인덱싱(임베딩 재생성) 중…") ;;
  setProgress (5 # 100) ;;
  st1 <- get_state ;;
  let n := length (chunks st1) in
  embed_batches n E (fun cs => modify (with_chunks cs))
    (fun k => setProgress ((5 # 100) + (95 # 100) * (Qnat k / Qnat n))%Q) 0 (chunks st1) ;;
  st2 <- get_state ;;
  dbPutMany_chunks (chunks st2) ;;
  setProgress 0 ;;
  setStatus (js "전체 재인덱싱 완료").

(** An uploaded [File]: its name, type and size, what [file.text()] reads,
    the text items ([str], [hasEOL]) pdf.js extracts from each page, and the
    rejection, if any, of the reading: [file.text()] or [file.arrayBuffer()]
    on an unreadable file, or [extractTextFromPDF] on a corrupt or encrypted
    PDF ([String(e)] of the error). *)
Record upload := {
  f_name : jstr;
  f_type : jstr;
  f_size : Q;
  f_text : jstr;
  f_pdf_pages : list (list (jstr * bool));
  f_read_error : option jstr
}.

Definition lower_ascii (c : Z) : Z := if (65 <=? c) && (c <=? 90) then c + 32 else c.

(** [name.toLowerCase().endsWith(".pdf")].  Lower-casing maps no non-ASCII
    code unit to one of the characters of [".pdf"], and a unit that grows
    when lower-cased does not end in one, so only the last four units, lower-
    cased as ASCII, decide. *)
Definition ends_with_pdf (name : jstr) : bool :=
  (4 <=? length name)%nat && jstr_eqb (map lower_ascii (skipn (length name - 4) name)) (js ".pdf").

Definition is_pdf (f : upload) : bool :=
  ends_with_pdf (f_name f) || jstr_eqb (f_type f) (js "application/pdf").

(** The text [extractTextFromPDF] builds for a page (lines 334-339). *)
Definition pdf_page_text (items : list (jstr * bool)) : jstr :=
  normalizeText (flat_map (fun it : jstr * bool => fst it ++ (if snd it then NL else [32])) items).

(** [chunkText(text)] with its default parameters; the loop always ends
    within [1 + length (normalizeText text)] iterations, so the [None]
    branch is never taken. *)
Definition chunkText_default (text : jstr) : list jstr :=
  match chunkText (S (length (normalizeText text))) text CHUNK_CHARS CHUNK_OVERLAP with
  | Some ps => ps
  | None => []
  end.

(** The chunk object [indexFile] pushes for piece [c] of page [pageNo]. *)
Definition make_chunk (docId name : jstr) (pageNo c : nat) (piece : jstr) : jval :=
  JObj [(js "id", JStr (docId ++ js "|p" ++ index_key pageNo ++ js "|c" ++ index_key c));
        (js "docId", JStr docId); (js "docName", JStr name);
        (js "page", JNum (Qnat pageNo)); (js "text", JStr piece);
        (js "embedding", JNull)].

Definition page_chunks (docId name : jstr) (pageNo : nat) (pieces : list jstr) : list jval :=
  map (fun p => make_chunk docId name pageNo (fst p) (snd p))
      (combine (seq 0 (length pieces)) pieces).

(** The page loop of the PDF branch of [indexFile]. *)
Fixpoint pdf_pages_loop (docId name : jstr) (numPages pageNo : nat) (pages : list jstr)
  (acc : list jval) : M (list jval) :=
  match pages with
  | [] => ret acc
  | pt :: r =>
      let acc' := acc ++ page_chunks docId name pageNo (chunkText_default pt) in
      setStatus (js "PDF 처리: " ++ name ++ js " (페이지 " ++ index_key pageNo ++ js "/" ++
                 index_key numPages ++ js ")") ;;
      setProgress ((5 # 100) + (35 # 100) * (Qnat pageNo / max1 numPages))%Q ;;
      pdf_pages_loop docId name numPages (S pageNo) r acc'
  end.

(** [indexFile(file)], [docId] being the [uuid()] it draws. *)
Definition indexFile (E : env) (docId : jstr) (file : upload) : M unit :=
  ensureEmbedder E ;;
  let doc := JObj [(js "id", JStr docId); (js "name", JStr (f_name file));
                   (js "type", JStr (f_type file)); (js "size", JNum (f_size file));
                   (js "addedAt", JStr (now_iso E))] in
  setStatus (js "읽는 중: " ++ f_name file) ;;
  setProgress (5 # 100) ;;
  (* [extractTextFromPDF] reads every page before the loop below, so a
     failed read rejects here, whatever the branch *)
  match f_read_error file with Some e => throw (ReadError e) | None => ret tt end ;;
  newChunks <-
    (if is_pdf file then
       let pages := map pdf_page_text (f_pdf_pages file) in
       cs <- pdf_pages_loop docId (f_name file) (length pages) 1 pages [] ;;
       setStatus (js "청크 생성 완료: " ++ f_name file ++ js " (" ++ index_key (length cs) ++ js "개)") ;;
       setProgress (42 # 100) ;;
       ret cs
     else
       let cs := page_chunks docId (f_name file) 1 (chunkText_default (f_text file)) in
       setStatus (js "청크 생성 완료: " ++ f_name file ++ js " (" ++ index_key (length cs) ++ js "개)") ;;
       setProgress (30 # 100) ;;
       ret cs) ;;
  setStatus (js "임베딩 생성 중: " ++ f_name file) ;;
  let n := length newChunks in
  newChunks' <- embed_batches n E (fun _ => ret tt)
                  (fun k => setProgress ((45 # 100) + (50 # 100) * (Qnat k / max1 n))%Q) 0 newChunks ;;
  modify (fun st => with_docs (docs st ++ [doc]) st) ;;
  modify (fun st => with_chunks (chunks st ++ newChunks') st) ;;
  dbPutMany_docs [doc] ;;
  dbPutMany_chunks newChunks' ;;
  setStatus (js "완료: " ++ f_name file) ;;
  setProgress 0 ;;
  renderDocs.

(** The [btnAdd] listener over the selected files, each with the [uuid()]
    its indexing draws: files are indexed in turn, a failure is reported and
    the next file goes on. *)
Fixpoint index_files (E : env) (files : list (jstr * upload)) : M unit :=
  match files with
  | [] => ret tt
  | (docId, f) :: r =>
      catch (indexFile E docId f)
            (fun e => alert (js "인덱싱 실패: " ++ f_name f ++ NL ++ js_error_string e)) ;;
      index_files E r
  end.

Definition onAdd (E : env) (files : list (jstr * upload)) : M unit :=
  match files with
  | [] => alert (js "업로드할 파일을 선택해 주세요.")
  | _ => index_files E files
  end.

(** The [btnRebuild] listener (lines 843-850). *)
Definition onRebuild (E : env) : M unit :=
  catch (rebuildAllEmbeddings E)
        (fun e => alert (js "재인덱싱 실패" ++ NL ++ js_error_string e)).
End Indexing.

(** An uploaded text file. *)
Definition demo_upload : upload := {|
  f_name := js "notes.txt"; f_type := js "text/plain"; f_size := 40;
  f_text := js "Rocq checks every step of the proof script.";
  f_pdf_pages := []; f_read_error := None |}.

(** A PDF that pdf.js cannot open. *)
Definition broken_pdf_upload : upload := {|
  f_name := js "scan.pdf"; f_type := js "application/pdf"; f_size := 2048;
  f_text := []; f_pdf_pages := [];
  f_read_error := Some (js "InvalidPDFException: Invalid PDF structure.") |}.


(** * Proofs *)

(** ** Normalisation *)

Module Normalize.

Lemma list_pair_ind (P : jstr -> Prop) :
  P [] -> (forall c, P [c]) ->
  (forall c d r, P r -> P (d :: r) -> P (c :: d :: r)) -> forall s, P s.
Proof.
  intros H0 H1 H2 s.
  assert (H : P s /\ forall c, P (c :: s)).
  { induction s as [|d r [IHr IHr']]; split; auto. }
  apply H.
Qed.

(** *** Code units of each step come from its input *)

Lemma replace_nul_incl t : incl (replace_nul t) (32 :: t).
Proof.
  intros c Hc. unfold replace_nul in Hc. apply in_map_iff in Hc as (x & <- & Hx).
  destruct (x =? 0); [left; reflexivity | right; exact Hx].
Qed.

Lemma replace_nul_no_nul t : ~ In 0 (replace_nul t).
Proof.
  unfold replace_nul. intros Hc. apply in_map_iff in Hc as (x & Hx & _).
  destruct (Z.eqb_spec x 0); lia.
Qed.

Lemma collapse_blanks_incl b s : incl (collapse_blanks b s) (32 :: s).
Proof.
  revert b; induction s as [|c r IH]; intros b x Hx; simpl in Hx; [contradiction|].
  destruct (is_blank c), b; simpl in Hx;
    try destruct Hx as [<- | Hx]; try (left; reflexivity);
    try (right; left; reflexivity);
    apply IH in Hx; destruct Hx as [<- | Hx]; (left; reflexivity) || (right; right; exact Hx).
Qed.

Lemma collapse_blanks_no_tab b s : ~ In 9 (collapse_blanks b s).
Proof.
  revert b; induction s as [|c r IH]; intros b Hx; simpl in Hx; [contradiction|].
  destruct (is_blank c) eqn:Hc, b; simpl in Hx.
  - eapply IH; exact Hx.
  - destruct Hx as [Hx | Hx]; [discriminate | eapply IH; exact Hx].
  - destruct Hx as [-> | Hx]; [discriminate | eapply IH; exact Hx].
  - destruct Hx as [-> | Hx]; [discriminate | eapply IH; exact Hx].
Qed.

Lemma replace_crlf_incl s : incl (replace_crlf s) s.
Proof.
  induction s as [| c | c d r IHr IHdr] using list_pair_ind; simpl;
    try (intros x Hx; exact Hx).
  destruct ((c =? 13) && (d =? 10)) eqn:E.
  - apply andb_true_iff in E as [_ Ed]. apply Z.eqb_eq in Ed. subst d.
    intros x [<- | Hx]; [right; left; reflexivity | right; right; apply IHr, Hx].
  - intros x [<- | Hx]; [left; reflexivity | right; apply IHdr, Hx].
Qed.

Lemma collapse_newlines_incl k s : incl (collapse_newlines k s) s.
Proof.
  revert k; induction s as [|c r IH]; intros k x Hx; simpl in Hx; [contradiction|].
  destruct (Z.eqb_spec c 10) as [-> | Hc].
  - destruct (k <? 2)%nat; [destruct Hx as [<- | Hx]; [left; reflexivity|] |];
      right; eapply IH; exact Hx.
  - destruct Hx as [<- | Hx]; [left; reflexivity | right; eapply IH; exact Hx].
Qed.

Lemma trim_start_incl s : incl (trim_start s) s.
Proof.
  induction s as [|c r IH]; simpl; [intros x H; exact H|].
  destruct (is_ws c); [intros x Hx; right; apply IH, Hx | intros x Hx; exact Hx].
Qed.

Lemma trim_end_incl s : incl (trim_end s) s.
Proof.
  induction s as [|c r IH]; simpl; [intros x H; exact H|].
  destruct (trim_end r) as [|y r'] eqn:E.
  - destruct (is_ws c); intros x Hx; [contradiction|].
    destruct Hx as [<- | []]; left; reflexivity.
  - intros x [<- | Hx]; [left; reflexivity | right; apply IH; exact Hx].
Qed.

Lemma js_trim_incl s : incl (js_trim s) s.
Proof.
  unfold js_trim. intros x Hx. apply trim_start_incl, trim_end_incl, Hx.
Qed.

Lemma normalize_incl t : incl (normalizeText t) (32 :: t).
Proof.
  unfold normalizeText. intros x Hx.
  apply js_trim_incl, collapse_newlines_incl, replace_crlf_incl,
    collapse_blanks_incl in Hx.
  destruct Hx as [<- | Hx]; [left; reflexivity|].
  apply replace_nul_incl in Hx. exact Hx.
Qed.

Lemma normalize_no_nul_tab t : Forall no_nul_tab (normalizeText t).
Proof.
  apply Forall_forall. intros x Hx. unfold normalizeText in Hx.
  apply js_trim_incl, collapse_newlines_incl, replace_crlf_incl in Hx.
  split; intros ->.
  - apply collapse_blanks_incl in Hx. destruct Hx as [H | Hx]; [discriminate|].
    exact (replace_nul_no_nul t Hx).
  - exact (collapse_blanks_no_tab _ _ Hx).
Qed.

(** *** Shape of the output of each step *)

Lemma no_dbl_from_weaken b s : no_dbl_from b s = true -> no_dbl_from false s = true.
Proof.
  destruct s as [|c r]; simpl; [auto|].
  destruct (c =? 32), b; simpl; auto; discriminate.
Qed.

Lemma collapse_blanks_no_dbl b s : no_dbl_from b (collapse_blanks b s) = true.
Proof.
  revert b; induction s as [|c r IH]; intros b; simpl; [reflexivity|].
  destruct (is_blank c) eqn:Hc.
  - destruct b; [apply IH|]. simpl. apply IH.
  - simpl. assert (Hc' : (c =? 32) = false).
    { unfold is_blank in Hc. apply orb_false_iff in Hc. apply Hc. }
    rewrite Hc'. apply IH.
Qed.

Lemma replace_crlf_no_dbl s : forall b,
  no_dbl_from b s = true -> no_dbl_from b (replace_crlf s) = true.
Proof.
  induction s as [| c | c d r IHr IHdr] using list_pair_ind; simpl; auto.
  intros b H.
  destruct ((c =? 13) && (d =? 10)) eqn:E.
  - apply andb_true_iff in E as [Ec Ed]. apply Z.eqb_eq in Ec, Ed. subst c d.
    simpl in *. apply IHr. exact H.
  - change (no_dbl_from b (c :: replace_crlf (d :: r)) = true).
    simpl. destruct (c =? 32); [apply andb_true_iff in H as [Hb H];
      rewrite Hb; apply IHdr; exact H | apply IHdr; exact H].
Qed.

Lemma collapse_newlines_no_dbl s : forall k b,
  ((0 < k)%nat -> b = false) ->
  no_dbl_from b s = true -> no_dbl_from b (collapse_newlines k s) = true.
Proof.
  induction s as [|c r IH]; intros k b Hk H; simpl; [reflexivity|].
  simpl in H. destruct (Z.eqb_spec c 10) as [-> | Hc].
  - simpl in H. destruct (k <? 2)%nat eqn:Hlt.
    + simpl. apply IH; [reflexivity | exact H].
    + apply Nat.ltb_ge in Hlt. rewrite (Hk ltac:(lia)).
      apply IH; [intros; reflexivity | exact H].
  - simpl. destruct (c =? 32); [apply andb_true_iff in H as [Hb H]; rewrite Hb|];
      apply IH; auto; intros; lia.
Qed.

Lemma trim_start_no_dbl s : forall b,
  no_dbl_from b s = true -> no_dbl_from false (trim_start s) = true.
Proof.
  induction s as [|c r IH]; intros b H; simpl; [reflexivity|].
  destruct (is_ws c).
  - simpl in H. destruct (c =? 32); [apply andb_true_iff in H as [_ H]|];
      eapply IH; exact H.
  - eapply no_dbl_from_weaken. exact H.
Qed.

Lemma trim_end_no_dbl s : forall b,
  no_dbl_from b s = true -> no_dbl_from b (trim_end s) = true.
Proof.
  induction s as [|c r IH]; intros b H; simpl; [reflexivity|].
  simpl in H. destruct (trim_end r) as [|y r'] eqn:E.
  - destruct (is_ws c); [reflexivity|]. simpl.
    destruct (c =? 32); [apply andb_true_iff in H as [Hb _]; rewrite Hb|]; reflexivity.
  - rewrite <- E in IH |- *. simpl.
    destruct (c =? 32); [apply andb_true_iff in H as [Hb H]; rewrite Hb; simpl|];
      apply IH; exact H.
Qed.

Lemma no_nl3_from_mono s : forall k k',
  (k' <= k)%nat -> no_nl3_from k s = true -> no_nl3_from k' s = true.
Proof.
  induction s as [|c r IH]; intros k k' Hle H; simpl in *; [reflexivity|].
  destruct (c =? 10); [|exact H].
  apply andb_true_iff in H as [Hk H]. apply Nat.ltb_lt in Hk.
  apply andb_true_iff. split; [apply Nat.ltb_lt; lia|]. apply (IH (S k)); [lia|exact H].
Qed.

Lemma collapse_newlines_no_nl3 s : forall k,
  (k <= 2)%nat -> no_nl3_from k (collapse_newlines k s) = true.
Proof.
  induction s as [|c r IH]; intros k Hk; simpl; [reflexivity|].
  destruct (c =? 10) eqn:Hc.
  - destruct (k <? 2)%nat eqn:Hlt.
    + simpl. rewrite Hlt. simpl. apply IH. apply Nat.ltb_lt in Hlt. lia.
    + apply IH. exact Hk.
  - simpl. rewrite Hc. apply IH. lia.
Qed.

Lemma trim_start_no_nl3 s : forall k,
  no_nl3_from k s = true -> no_nl3_from 0 (trim_start s) = true.
Proof.
  induction s as [|c r IH]; intros k H; simpl; [reflexivity|].
  destruct (is_ws c).
  - simpl in H. destruct (c =? 10); [apply andb_true_iff in H as [_ H]|];
      eapply IH; exact H.
  - apply (no_nl3_from_mono _ k); [lia | exact H].
Qed.

Lemma trim_end_no_nl3 s : forall k,
  no_nl3_from k s = true -> no_nl3_from k (trim_end s) = true.
Proof.
  induction s as [|c r IH]; intros k H; simpl; [reflexivity|].
  simpl in H. destruct (trim_end r) as [|y r'] eqn:E.
  - destruct (is_ws c); [reflexivity|]. simpl.
    destruct (c =? 10); [apply andb_true_iff in H as [Hk _]; rewrite Hk|]; reflexivity.
  - rewrite <- E in IH |- *. simpl.
    destruct (c =? 10); [apply andb_true_iff in H as [Hk H]; rewrite Hk; simpl|];
      apply IH; exact H.
Qed.

Lemma trim_start_head s : trim_start s = [] \/
  exists c r, trim_start s = c :: r /\ is_ws c = false.
Proof.
  induction s as [|c r IH]; simpl; [left; reflexivity|].
  destruct (is_ws c) eqn:E; [exact IH | right; exists c, r; auto].
Qed.

Lemma trim_end_head c r : trim_end (c :: r) = [] \/
  exists r', trim_end (c :: r) = c :: r'.
Proof.
  simpl. destruct (trim_end r); [destruct (is_ws c)|]; eauto.
Qed.

Lemma trim_end_last s : trim_end s = [] \/ is_ws (last (trim_end s) 0) = false.
Proof.
  induction s as [|c r IH]; simpl; [left; reflexivity|].
  destruct (trim_end r) as [|y r'] eqn:E.
  - destruct (is_ws c) eqn:Hc; [left; reflexivity | right; exact Hc].
  - right. destruct IH as [IH | IH]; [discriminate|].
    change (last (c :: y :: r') 0) with (last (y :: r') 0). exact IH.
Qed.

Lemma js_trim_trimmed s : trimmed (js_trim s) = true.
Proof.
  unfold js_trim.
  destruct (trim_start_head s) as [-> | (c & r & E & Hc)]; [reflexivity|].
  rewrite E. destruct (trim_end_head c r) as [H | (r' & H)]; [rewrite H; reflexivity|].
  destruct (trim_end_last (c :: r)) as [H' | H']; [congruence|].
  rewrite H in *. unfold trimmed. rewrite Hc, H'. reflexivity.
Qed.

(** *** Each step is the identity on text already in its output shape *)

Lemma replace_nul_id s : ~ In 0 s -> replace_nul s = s.
Proof.
  induction s as [|c r IH]; intros H; simpl; [reflexivity|].
  destruct (Z.eqb_spec c 0) as [-> | _]; [exfalso; apply H; left; reflexivity|].
  f_equal. apply IH. intros Hin. apply H. right. exact Hin.
Qed.

Lemma collapse_blanks_id s : forall b,
  ~ In 9 s -> no_dbl_from b s = true -> collapse_blanks b s = s.
Proof.
  induction s as [|c r IH]; intros b Ht H; simpl in *; [reflexivity|].
  unfold is_blank. destruct (Z.eqb_spec c 32) as [-> | Hc].
  - apply andb_true_iff in H as [Hb H]. destruct b; [discriminate|].
    simpl. f_equal. apply IH; auto.
  - destruct (Z.eqb_spec c 9) as [-> | _]; [exfalso; apply Ht; left; reflexivity|].
    simpl. f_equal. apply IH; auto.
Qed.

Lemma replace_crlf_id s : no_crlf s = true -> replace_crlf s = s.
Proof.
  induction s as [| c | c d r IHr IHdr] using list_pair_ind; simpl; auto.
  intros H. apply andb_true_iff in H as [Hn H]. apply negb_true_iff in Hn.
  rewrite Hn. f_equal. apply IHdr. exact H.
Qed.

Lemma collapse_newlines_id s : forall k,
  no_nl3_from k s = true -> collapse_newlines k s = s.
Proof.
  induction s as [|c r IH]; intros k H; simpl in *; [reflexivity|].
  destruct (c =? 10) eqn:Hc.
  - apply andb_true_iff in H as [Hk H]. rewrite Hk. apply Z.eqb_eq in Hc. subst c.
    f_equal. apply IH. exact H.
  - f_equal. apply IH. exact H.
Qed.

Lemma trim_end_id s : (s = [] \/ is_ws (last s 0) = false) -> trim_end s = s.
Proof.
  induction s as [|c r IH]; intros H; simpl; [reflexivity|].
  destruct r as [|y r'].
  - simpl in H. destruct H as [H | H]; [discriminate|]. simpl. rewrite H. reflexivity.
  - rewrite IH; [reflexivity|]. right. destruct H as [H | H]; [discriminate|]. exact H.
Qed.

Lemma js_trim_id s : trimmed s = true -> js_trim s = s.
Proof.
  destruct s as [|c r]; [reflexivity|]. simpl. intros H.
  apply andb_true_iff in H as [Hc Hl]. apply negb_true_iff in Hc, Hl.
  unfold js_trim. simpl. rewrite Hc. apply trim_end_id. right. exact Hl.
Qed.

(** *** Lengths *)

Lemma replace_crlf_length s : (length (replace_crlf s) <= length s)%nat.
Proof.
  induction s as [| c | c d r IHr IHdr] using list_pair_ind; simpl; auto.
  destruct ((c =? 13) && (d =? 10)); simpl in *; lia.
Qed.

Lemma replace_crlf_shorter s : no_crlf s = false ->
  (length (replace_crlf s) < length s)%nat.
Proof.
  induction s as [| c | c d r IHr IHdr] using list_pair_ind; simpl; try discriminate.
  intros H. destruct ((c =? 13) && (d =? 10)); simpl in *.
  - pose proof (replace_crlf_length r). lia.
  - specialize (IHdr H). simpl in IHdr. lia.
Qed.

Lemma collapse_newlines_length s : forall k,
  (length (collapse_newlines k s) <= length s)%nat.
Proof.
  induction s as [|c r IH]; intros k; simpl; [lia|].
  pose proof (IH 0%nat). pose proof (IH k). pose proof (IH (S k)).
  destruct (c =? 10); [destruct (k <? 2)%nat|]; simpl; lia.
Qed.

Lemma js_trim_length s : (length (js_trim s) <= length s)%nat.
Proof.
  unfold js_trim.
  assert (H1 : forall u, (length (trim_start u) <= length u)%nat).
  { induction u as [|c r IH]; simpl; [lia|]. destruct (is_ws c); simpl; lia. }
  assert (H2 : forall u, (length (trim_end u) <= length u)%nat).
  { induction u as [|c r IH]; simpl; [lia|].
    destruct (trim_end r); [destruct (is_ws c)|]; simpl in *; lia. }
  specialize (H1 s). specialize (H2 (trim_start s)). lia.
Qed.

Lemma no_crlf_no_cr (s : jstr) : ~ In 13 s -> no_crlf s = true.
Proof.
  induction s as [| c | c d r IHr IHdr] using list_pair_ind; simpl; auto.
  intros H. apply andb_true_iff. split.
  - destruct (Z.eqb_spec c 13); [exfalso; apply H; left; auto | reflexivity].
  - apply IHdr. intros Hin. apply H. right. exact Hin.
Qed.

(** The normalised text has every shape property but possibly [no_crlf]. *)
Lemma normalize_shape t :
  let n := normalizeText t in
  ~ In 0 n /\ ~ In 9 n /\ no_dbl_from false n = true /\
  no_nl3_from 0 n = true /\ trimmed n = true.
Proof.
  pose proof (normalize_no_nul_tab t) as Hf. rewrite Forall_forall in Hf.
  unfold normalizeText in *. repeat split.
  - intros H. apply Hf in H as [H _]. apply H; reflexivity.
  - intros H. apply Hf in H as [_ H]. apply H; reflexivity.
  - unfold js_trim. apply trim_end_no_dbl. eapply trim_start_no_dbl.
    apply collapse_newlines_no_dbl; [intros; lia|].
    apply replace_crlf_no_dbl, collapse_blanks_no_dbl.
  - unfold js_trim. apply trim_end_no_nl3. eapply trim_start_no_nl3.
    apply collapse_newlines_no_nl3. lia.
  - apply js_trim_trimmed.
Qed.


Lemma normalize_idem_iff t :
  normalizeText (normalizeText t) = normalizeText t <->
  no_crlf (normalizeText t) = true.
Proof.
  destruct (normalize_shape t) as (H0 & H9 & Hd & Hn & Ht).
  set (n := normalizeText t) in *.
  assert (E : normalizeText n = js_trim (collapse_newlines 0 (replace_crlf n))).
  { unfold normalizeText at 1. rewrite replace_nul_id by exact H0.
    rewrite collapse_blanks_id by assumption. reflexivity. }
  split.
  - intros Heq. destruct (no_crlf n) eqn:Hc; [reflexivity|].
    exfalso. pose proof (replace_crlf_shorter n Hc).
    pose proof (collapse_newlines_length (replace_crlf n) 0).
    pose proof (js_trim_length (collapse_newlines 0 (replace_crlf n))).
    rewrite E in Heq. rewrite Heq in *. lia.
  - intros Hc. rewrite E, replace_crlf_id by exact Hc.
    rewrite collapse_newlines_id by exact Hn. apply js_trim_id. exact Ht.
Qed.

Lemma normalize_no_cr t : ~ In 13 t -> no_crlf (normalizeText t) = true.
Proof.
  intros H. apply no_crlf_no_cr. intros Hin.
  apply normalize_incl in Hin. destruct Hin as [Hin | Hin]; [discriminate|].
  exact (H Hin).
Qed.

End Normalize.

(** * Claims *)

(** ** C4: normalisation is idempotent only on text whose normal form has no
    CR LF pair *)

(** C4 (counterexample). ["a\r\r\nb"] normalises to ["a\r\nb"], which
    normalises to ["a\nb"]: normalisation is not idempotent. *)
Lemma C4_normalize_not_idempotent :
  normalizeText [97; 13; 13; 10; 98] = [97; 13; 10; 98] /\
  normalizeText (normalizeText [97; 13; 13; 10; 98]) = [97; 10; 98].
Proof. split; vm_compute; reflexivity. Qed.

(** C4 (amended). [normalizeText (normalizeText t) = normalizeText t]
    holds exactly when [normalizeText t] contains no ["\r\n"] pair; in
    particular it holds for every text without a carriage return. *)
Theorem C4_normalize_idempotent_iff :
  (forall t, normalizeText (normalizeText t) = normalizeText t <->
             no_crlf (normalizeText t) = true) /\
  (forall t, ~ In 13 t -> normalizeText (normalizeText t) = normalizeText t).
Proof.
  split; intros t.
  - apply Normalize.normalize_idem_iff.
  - intros H. apply Normalize.normalize_idem_iff, Normalize.normalize_no_cr, H.
Qed.

(** ** Chunking *)

Module Chunking.

Lemma chunk_loop_windows t size overlap : forall fuel start out,
  (start < length t)%nat ->
  chunk_loop fuel t size overlap start = Some out ->
  exists ws, windows (length t) size overlap start ws /\
             out = flat_map (window_piece t) ws.
Proof.
  induction fuel as [|fuel IH]; intros start out Hs H; simpl in H; [discriminate|].
  apply Nat.ltb_lt in Hs as Hs'. rewrite Hs' in H.
  destruct (length t <=? Nat.min (length t) (start + size))%nat eqn:Hend.
  - apply Nat.leb_le in Hend. injection H as <-.
    assert (Hm : Nat.min (length t) (start + size) = length t) by lia.
    exists [(start, length t)]. split.
    + apply win_last; lia.
    + simpl. rewrite app_nil_r. unfold window_piece. simpl. rewrite Hm. reflexivity.
  - apply Nat.leb_gt in Hend.
    assert (Hm : Nat.min (length t) (start + size) = (start + size)%nat) by lia.
    rewrite Hm in H.
    destruct (chunk_loop fuel t size overlap (start + size - overlap)) as [out'|] eqn:Hr;
      [|discriminate].
    injection H as <-.
    destruct (IH (start + size - overlap)%nat out' ltac:(lia) Hr) as (ws & Hws & ->).
    exists ((start, start + size)%nat :: ws). split.
    + apply win_step; [lia | exact Hws].
    + reflexivity.
Qed.

Lemma windows_overlap len size overlap : forall start ws,
  windows len size overlap start ws -> (overlap < size)%nat ->
  forall pre post a b a' b', ws = pre ++ (a, b) :: (a', b') :: post ->
  (a' + overlap = b /\ b < b')%nat.
Proof.
  intros start ws Hw Hlt. induction Hw as [start Hs Hl | start ws Hs Hw IH];
    intros pre post a b a' b' E.
  - destruct pre as [|x [|y pre]]; simpl in E; discriminate.
  - destruct pre as [|x pre]; simpl in E.
    + injection E as Ha Hb E. subst a b ws.
      inversion Hw; subst; lia.
    + injection E as _ E. eapply IH. exact E.
Qed.

Lemma chunk_loop_progress t size overlap : (overlap < size)%nat ->
  forall fuel start, (length t - start < fuel)%nat ->
  chunk_loop fuel t size overlap start <> None.
Proof.
  intros Hlt. induction fuel as [|fuel IH]; intros start Hf; [lia|]. simpl.
  destruct (start <? length t)%nat eqn:Hs; [|discriminate].
  apply Nat.ltb_lt in Hs.
  destruct (length t <=? Nat.min (length t) (start + size))%nat eqn:Hend; [discriminate|].
  apply Nat.leb_gt in Hend.
  assert (Hm : Nat.min (length t) (start + size) = (start + size)%nat) by lia.
  rewrite Hm. intros H.
  destruct (chunk_loop fuel t size overlap (start + size - overlap)) eqn:Hr;
    [discriminate|].
  apply (IH (start + size - overlap)%nat); [lia | exact Hr].
Qed.

End Chunking.

(** ** C3: the windows of chunkText *)

(** C3 (counterexample). A 31-code-unit text with only 16 non-white-space
    code units is kept as a chunk: the drop test is on the trimmed length,
    not on the number of non-white-space characters. *)
Lemma C3_short_window_kept :
  let text := js "a b c d e f g h i j k l m n o p" in
  chunkText 2 text CHUNK_CHARS CHUNK_OVERLAP = Some [text] /\
  non_ws_count text = 16%nat.
Proof. split; vm_compute; reflexivity. Qed.

(** C3 (amended). Whenever [chunkText(text, 1200, 200)] returns, its
    windows over the normalised text [t] start at 0, window [k] is
    [[start_k, min(len, start_k + 1200))], the next starts at
    [end_k - 200], the last is the first that reaches [len], consecutive
    windows overlap by exactly 200 code units, and the output lists, in
    order, the trimmed text of every window whose trimmed length is at least
    30. *)
Theorem C3_chunkText_windows : forall text fuel out,
  chunkText fuel text CHUNK_CHARS CHUNK_OVERLAP = Some out ->
  let t := normalizeText text in
  exists ws,
    ((t = [] /\ ws = []) \/ windows (length t) CHUNK_CHARS CHUNK_OVERLAP 0 ws) /\
    out = flat_map (window_piece t) ws /\
    (forall pre post a b a' b', ws = pre ++ (a, b) :: (a', b') :: post ->
       (a' + CHUNK_OVERLAP = b /\ b < b')%nat).
Proof.
  intros text fuel out H t. unfold chunkText in H. fold t in H.
  destruct t as [|c r] eqn:Et.
  - injection H as <-. exists []. split; [left; auto|]. split; [reflexivity|].
    intros pre post a b a' b' E. destruct pre; discriminate.
  - rewrite <- Et in H |- *.
    destruct (Chunking.chunk_loop_windows t _ _ fuel 0 out ltac:(rewrite Et; simpl; lia) H)
      as (ws & Hw & Ho).
    exists ws. split; [right; exact Hw|]. split; [exact Ho|].
    intros. eapply Chunking.windows_overlap; [exact Hw | unfold CHUNK_OVERLAP, CHUNK_CHARS; lia | eassumption].
Qed.

Lemma C3_chunkText_windows_witness :
  chunkText 2 (js "a b c d e f g h i j k l m n o p") CHUNK_CHARS CHUNK_OVERLAP
    = Some [js "a b c d e f g h i j k l m n o p"] /\
  exists ws, windows 31 CHUNK_CHARS CHUNK_OVERLAP 0 ws.
Proof.
  split; [vm_compute; reflexivity|].
  destruct (C3_chunkText_windows (js "a b c d e f g h i j k l m n o p") 2
              [js "a b c d e f g h i j k l m n o p"] ltac:(vm_compute; reflexivity))
    as (ws & [[Hn _] | Hw] & _).
  - vm_compute in Hn. discriminate.
  - exists ws. exact Hw.
Defined.

(** ** C9: termination of chunkText *)

(** C9. When [overlap < chunkSize] (in particular for the defaults 1200 and
    200) the chunking loop reaches its exit after finitely many iterations:
    [length t + 1] iterations suffice. *)
Theorem C9_chunkText_terminates : forall text chunkSize overlap,
  (overlap < chunkSize)%nat ->
  exists out, chunkText (S (length (normalizeText text))) text chunkSize overlap = Some out.
Proof.
  intros text chunkSize overlap Hlt. unfold chunkText.
  destruct (normalizeText text) as [|c r] eqn:Et; [eexists; reflexivity|].
  destruct (chunk_loop (S (length (c :: r))) (c :: r) chunkSize overlap 0) as [out|] eqn:H.
  - exists out. reflexivity.
  - exfalso. refine (Chunking.chunk_loop_progress (c :: r) chunkSize overlap Hlt
                      (S (length (c :: r))) 0 _ H). lia.
Qed.

Lemma C9_chunkText_terminates_witness :
  (CHUNK_OVERLAP < CHUNK_CHARS)%nat /\
  exists out, chunkText (S (length (normalizeText (js "hello world"))))
                (js "hello world") CHUNK_CHARS CHUNK_OVERLAP = Some out.
Proof.
  split; [unfold CHUNK_OVERLAP, CHUNK_CHARS; lia|].
  apply C9_chunkText_terminates. unfold CHUNK_OVERLAP, CHUNK_CHARS; lia.
Defined.

(** ** Citation parsing *)

Module Citations.

Definition occurs (d s : jstr) : Prop :=
  d <> [] /\ Forall (fun c => is_digit c = true) d /\
  exists pre post, s = pre ++ 91 :: 67 :: d ++ 93 :: post.

Lemma digit_run_spec s : forall d rest, digit_run s = (d, rest) ->
  s = d ++ rest /\ Forall (fun c => is_digit c = true) d /\
  (rest = [] \/ exists c r, rest = c :: r /\ is_digit c = false).
Proof.
  induction s as [|c r IH]; intros d rest H; simpl in H.
  - injection H as <- <-. repeat split; auto.
  - destruct (is_digit c) eqn:Hc.
    + destruct (digit_run r) as [d' rest'] eqn:E. injection H as <- <-.
      destruct (IH _ _ eq_refl) as (-> & Hd & Hr). simpl. auto.
    + injection H as <- <-. simpl. repeat split; auto. right. eauto.
Qed.

Lemma digit_run_app d rest :
  Forall (fun c => is_digit c = true) d ->
  (rest = [] \/ exists c r, rest = c :: r /\ is_digit c = false) ->
  digit_run (d ++ rest) = (d, rest).
Proof.
  intros Hd Hr. induction Hd as [|c d Hc Hd IH]; simpl.
  - destruct Hr as [-> | (c & r & -> & Hc)]; simpl; [reflexivity|]. rewrite Hc. reflexivity.
  - rewrite Hc, IH. reflexivity.
Qed.

Lemma cite_match_at_spec s d rest :
  cite_match_at s = Some (d, rest) <->
  s = 91 :: 67 :: d ++ 93 :: rest /\ d <> [] /\ Forall (fun c => is_digit c = true) d.
Proof.
  split.
  - destruct s as [|b [|c r]]; simpl; try discriminate.
    destruct ((b =? 91) && (c =? 67)) eqn:Hbc; [|discriminate].
    apply andb_true_iff in Hbc as [Hb Hc]. apply Z.eqb_eq in Hb, Hc. subst b c.
    destruct (digit_run r) as [d' rest'] eqn:E.
    destruct (digit_run_spec r d' rest' E) as (-> & Hd & _).
    destruct d' as [|x d']; [discriminate|]. destruct rest' as [|e rest']; [discriminate|].
    destruct (Z.eqb_spec e 93) as [-> | _]; [|discriminate].
    intros H. injection H as <- <-. repeat split; auto. discriminate.
  - intros (-> & Hne & Hd). simpl.
    rewrite (digit_run_app d (93 :: rest) Hd) by (right; exists 93, rest; auto).
    destruct d; [contradiction | reflexivity].
Qed.

Lemma app_split_notin (x : Z) : forall l2 l1 ys zs,
  ~ In x l2 -> l1 ++ x :: ys = l2 ++ zs ->
  exists l3, l1 = l2 ++ l3 /\ l3 ++ x :: ys = zs.
Proof.
  induction l2 as [|a l2 IH]; intros l1 ys zs Hn E.
  - exists l1. auto.
  - destruct l1 as [|b l1]; simpl in E; injection E as Hx E.
    + exfalso. apply Hn. left. symmetry. exact Hx.
    + subst b. destruct (IH l1 ys zs ltac:(intros H; apply Hn; right; exact H) E)
        as (l3 & -> & E3).
      exists l3. auto.
Qed.

Lemma cite_scan_spec d : forall n s, (length s <= n)%nat ->
  In d (cite_scan n s) <-> occurs d s.
Proof.
  induction n as [|n IH]; intros s Hl.
  - destruct s; [|simpl in Hl; lia]. simpl. split; [contradiction|].
    intros (_ & _ & pre & post & E). destruct pre; discriminate.
  - simpl. destruct (cite_match_at s) as [[d0 rest]|] eqn:Hm.
    + apply cite_match_at_spec in Hm as (Es & Hne & Hd0).
      assert (Hr : (length rest <= n)%nat).
      { subst s. simpl in Hl. rewrite length_app in Hl. simpl in Hl. lia. }
      simpl. rewrite (IH rest Hr). split.
      * intros [<- | (Hne' & Hd & pre & post & E)].
        -- repeat split; auto. exists [], rest. exact Es.
        -- repeat split; auto. exists (91 :: 67 :: d0 ++ 93 :: pre), post.
           rewrite Es, E. simpl. rewrite <- app_assoc. reflexivity.
      * intros (Hne' & Hd & pre & post & E).
        destruct pre as [|x pre1].
        -- left. simpl in E.
           assert (Hs : cite_match_at s = Some (d, post))
             by (apply cite_match_at_spec; auto).
           assert (Hs0 : cite_match_at s = Some (d0, rest))
             by (apply cite_match_at_spec; auto).
           rewrite Hs in Hs0. congruence.
        -- right. rewrite Es in E. simpl in E. injection E as _ E.
           assert (Hn : ~ In 91 (67 :: d0 ++ [93])).
           { intros [H | H]; [discriminate|]. apply in_app_or in H as [H | [H | []]];
               [|discriminate]. rewrite Forall_forall in Hd0. apply Hd0 in H.
             discriminate. }
           assert (E' : pre1 ++ 91 :: 67 :: d ++ 93 :: post = (67 :: d0 ++ [93]) ++ rest)
             by (rewrite <- E; simpl; rewrite <- app_assoc; reflexivity).
           clear E; rename E' into E.
           destruct (app_split_notin 91 _ _ _ _ Hn E) as (l3 & _ & E3).
           repeat split; auto. exists l3, post. symmetry. exact E3.
    + destruct s as [|c r].
      * simpl. split; [contradiction|]. intros (_ & _ & pre & post & E).
        destruct pre; discriminate.
      * simpl in Hl. rewrite (IH r ltac:(lia)). split.
        -- intros (Hne & Hd & pre & post & E). repeat split; auto.
           exists (c :: pre), post. rewrite E. reflexivity.
        -- intros (Hne & Hd & pre & post & E). destruct pre as [|x pre1].
           ++ exfalso. assert (H : cite_match_at (c :: r) = Some (d, post))
                by (apply cite_match_at_spec; auto). congruence.
           ++ injection E as _ E. repeat split; auto. exists pre1, post. exact E.
Qed.

Lemma spec_float_eqb_eq x y : spec_float_eqb x y = true -> x = y.
Proof.
  destruct x, y; simpl; try discriminate; intros H;
    repeat match goal with
    | H : _ && _ = true |- _ => apply andb_true_iff in H as [? ?]
    | H : Bool.eqb _ _ = true |- _ => apply eqb_prop in H
    | H : Pos.eqb _ _ = true |- _ => apply Pos.eqb_eq in H
    | H : Z.eqb _ _ = true |- _ => apply Z.eqb_eq in H
    end; subst; reflexivity.
Qed.

Lemma set_add_in x y l : In x (set_add y l) <-> In x l \/ x = y.
Proof.
  unfold set_add. destruct (existsb (spec_float_eqb y) l) eqn:E.
  - apply existsb_exists in E as (z & Hz & Hyz). apply spec_float_eqb_eq in Hyz.
    subst z. split; [auto|]. intros [H | ->]; auto.
  - rewrite in_app_iff. simpl. split; intros [H | H]; auto.
    + destruct H as [H | []]. auto.
Qed.

Lemma fold_set_add_in x : forall ds acc,
  In x (fold_left (fun used d => set_add (js_Number_of_digits d) used) ds acc) <->
  In x acc \/ exists d, In d ds /\ x = js_Number_of_digits d.
Proof.
  induction ds as [|d ds IH]; intros acc; simpl.
  - split; [auto|]. intros [H | (d & [] & _)]. exact H.
  - rewrite IH, set_add_in. split.
    + intros [[H | H] | (d' & Hd' & ->)]; eauto.
    + intros [H | (d' & [<- | Hd'] & ->)]; eauto.
Qed.

End Citations.

(** ** C6: citation parsing *)

(** C6 (counterexample). ["[C01]"] yields the citation number 1
    ([Number("01")]) although the text ["[C1]"] does not appear in it. *)
Lemma C6_leading_zero_citation :
  In (js_Number_of_digits (js "1")) (parseUsedCitations (js "[C01]")) /\
  ~ (exists pre post, js "[C01]" = pre ++ js "[C1]" ++ post).
Proof.
  split; [vm_compute; left; reflexivity|].
  intros (pre & post & E). vm_compute in E.
  assert (Hl : (length pre <= 1)%nat).
  { apply (f_equal (@length Z)) in E. rewrite length_app in E. simpl in E. lia. }
  destruct pre as [|x [|y pre]]; simpl in E, Hl; [| |lia]; inversion E.
Qed.

(** C6 (amended). [parseUsedCitations(answer)] contains [x] exactly when
    some non-empty ASCII digit string [d] with ["[C" + d + "]"] in the
    answer has [Number(d) = x] (leading zeros allowed). *)
Theorem C6_parseUsedCitations_spec : forall answer x,
  In x (parseUsedCitations answer) <->
  exists d, d <> [] /\ Forall (fun c => is_digit c = true) d /\
    (exists pre post, answer = pre ++ 91 :: 67 :: d ++ 93 :: post) /\
    x = js_Number_of_digits d.
Proof.
  intros answer x. unfold parseUsedCitations.
  rewrite Citations.fold_set_add_in. split.
  - intros [[] | (d & Hd & ->)].
    apply (Citations.cite_scan_spec d (length answer) answer (le_n _)) in Hd
      as (Hne & Hdig & Hocc).
    exists d. auto.
  - intros (d & Hne & Hdig & Hocc & ->). right. exists d. split; [|reflexivity].
    apply Citations.cite_scan_spec; [lia|]. repeat split; auto.
Qed.

(** ** Retrieval *)

Module Retrieval.

Open Scope Q_scope.

(** [x] may come before [y] in score-descending order. *)
Definition desc (x y : scored) : Prop := score y <= score x.

Definition score_is (s : Q) (x : scored) : bool := Qeq_bool (score x) s.

#[local] Instance desc_trans : Transitive desc.
Proof. intros x y z Hxy Hyz. unfold desc in *. eapply Qle_trans; eassumption. Qed.

Lemma insert_perm a l : Permutation (insert_by_score a l) (a :: l).
Proof.
  induction l as [|e r IH]; simpl; [reflexivity|].
  destruct (Qle_bool (score a) (score e)); [|reflexivity].
  rewrite IH. apply perm_swap.
Qed.

Lemma insert_hdrel e a r :
  HdRel desc e r -> desc e a -> HdRel desc e (insert_by_score a r).
Proof.
  destruct r as [|x r]; simpl; intros Hr Ha; [constructor; exact Ha|].
  destruct (Qle_bool (score a) (score x)); constructor; [inversion Hr; assumption | exact Ha].
Qed.

Lemma insert_sorted a l : Sorted desc l -> Sorted desc (insert_by_score a l).
Proof.
  induction l as [|e r IH]; simpl; intros Hs; [repeat constructor|].
  destruct (Qle_bool (score a) (score e)) eqn:E.
  - apply Sorted_inv in Hs as [Hr Hhd]. constructor; [apply IH, Hr|].
    apply insert_hdrel; [exact Hhd|]. apply Qle_bool_iff. exact E.
  - constructor; [exact Hs|]. constructor. unfold desc.
    apply Qlt_le_weak, Qnot_le_lt. intros H. apply Qle_bool_iff in H. congruence.
Qed.

Lemma sort_gen_perm items : forall acc,
  Permutation (fold_left (fun acc a => insert_by_score a acc) items acc) (acc ++ items).
Proof.
  induction items as [|a r IH]; intros acc; simpl; [rewrite app_nil_r; reflexivity|].
  rewrite IH, insert_perm. simpl. apply Permutation_middle.
Qed.

Lemma sort_perm items : Permutation (sort_by_score items) items.
Proof. unfold sort_by_score. rewrite sort_gen_perm. reflexivity. Qed.

Lemma sort_gen_sorted items : forall acc, Sorted desc acc ->
  Sorted desc (fold_left (fun acc a => insert_by_score a acc) items acc).
Proof.
  induction items as [|a r IH]; intros acc Hs; simpl; [exact Hs|].
  apply IH, insert_sorted, Hs.
Qed.

Lemma sort_sorted items : Sorted desc (sort_by_score items).
Proof. apply sort_gen_sorted. constructor. Qed.

Lemma filter_none {A} (f : A -> bool) l :
  (forall x, In x l -> f x = false) -> filter f l = [].
Proof.
  induction l as [|x l IH]; intros H; simpl; [reflexivity|].
  rewrite (H x (or_introl eq_refl)). apply IH. intros y Hy. apply H. right. exact Hy.
Qed.

Lemma insert_filter s a l : StronglySorted desc l ->
  filter (score_is s) (insert_by_score a l) =
  filter (score_is s) l ++ (if score_is s a then [a] else []).
Proof.
  induction l as [|e r IH]; intros Hs; simpl.
  - destruct (score_is s a); reflexivity.
  - apply StronglySorted_inv in Hs as [Hr Hall].
    destruct (Qle_bool (score a) (score e)) eqn:E; simpl.
    + rewrite IH by exact Hr. destruct (score_is s e); reflexivity.
    + assert (Hlt : score e < score a).
      { apply Qnot_le_lt. intros H. apply Qle_bool_iff in H. congruence. }
      destruct (score_is s a) eqn:Ha.
      * unfold score_is in Ha. apply Qeq_bool_iff in Ha.
        assert (Hnone : filter (score_is s) (e :: r) = []).
        { apply filter_none. intros x [<- | Hx]; unfold score_is;
            apply not_true_iff_false; rewrite Qeq_bool_iff; intros Hx'.
          - rewrite Hx' in Hlt. rewrite <- Ha in Hlt. apply (Qlt_irrefl _ Hlt).
          - rewrite Forall_forall in Hall. specialize (Hall x Hx). unfold desc in Hall.
            rewrite Hx', <- Ha in Hall. apply (Qlt_not_le _ _ Hlt Hall). }
        simpl in Hnone. rewrite Hnone. reflexivity.
      * rewrite app_nil_r. reflexivity.
Qed.

Lemma sort_gen_filter s items : forall acc, Sorted desc acc ->
  filter (score_is s) (fold_left (fun acc a => insert_by_score a acc) items acc) =
  filter (score_is s) acc ++ filter (score_is s) items.
Proof.
  induction items as [|a r IH]; intros acc Hs; simpl; [rewrite app_nil_r; reflexivity|].
  rewrite IH by (apply insert_sorted, Hs).
  rewrite insert_filter by (apply Sorted_StronglySorted; [exact desc_trans | exact Hs]).
  rewrite <- app_assoc. destruct (score_is s a); reflexivity.
Qed.

Lemma sort_filter s items :
  filter (score_is s) (sort_by_score items) = filter (score_is s) items.
Proof. unfold sort_by_score. rewrite sort_gen_filter by constructor. reflexivity. Qed.

Lemma firstn_filter_prefix {A} (f : A -> bool) : forall k l,
  exists m, filter f (firstn k l) = firstn m (filter f l).
Proof.
  induction k as [|k IH]; intros l; [exists 0%nat; reflexivity|].
  destruct l as [|x l]; [exists 0%nat; reflexivity|].
  destruct (IH l) as [m Hm]. simpl.
  destruct (f x); [exists (S m) | exists m]; simpl; rewrite Hm; reflexivity.
Qed.

Lemma in_firstn {A} (x : A) k l : In x (firstn k l) -> In x l.
Proof. intros H. rewrite <- (firstn_skipn k l). apply in_or_app. left. exact H. Qed.

Lemma sorted_firstn : forall k l, Sorted desc l -> Sorted desc (firstn k l).
Proof.
  induction k as [|k IH]; intros l Hs; [constructor|].
  destruct l as [|x l]; [constructor|]. simpl.
  apply Sorted_inv in Hs as [Hl Hhd]. constructor; [apply IH, Hl|].
  destruct k, l; simpl; try constructor. inversion Hhd. assumption.
Qed.

Lemma score_chunks_in q cs it : In it (score_chunks q cs) ->
  In (sch it) cs /\ exists v, embedding_vector (sch it) = Some v /\ score it = dot q v.
Proof.
  induction cs as [|c r IH]; simpl; [contradiction|].
  destruct (embedding_vector c) as [v|] eqn:E.
  - intros [<- | H]; simpl.
    + split; [left; reflexivity | exists v; auto].
    + destruct (IH H) as [Hin Hv]. split; [right; exact Hin | exact Hv].
  - intros H. destruct (IH H) as [Hin Hv]. split; [right; exact Hin | exact Hv].
Qed.

End Retrieval.

(** ** C2: top-K retrieval *)

(** C2. For every query vector, every [k] and every chunk list, the result
    of retrieval has at most [k] items, is sorted by score in descending
    order, holds only chunks of the list with a (truthy) embedding, each
    scored by the dot product of the query with it, and among items of equal
    score it holds the first ones in the chunk list's order, in that order
    (stable tie-break). *)
Theorem C2_retrieve_topk : forall k q cs,
  let r := retrieveTopChunks_k k q cs in
  (length r <= k)%nat /\
  Sorted (fun x y => (score y <= score x)%Q) r /\
  (forall it, In it r -> In (sch it) cs /\
     exists v, embedding_vector (sch it) = Some v /\ score it = dot q v) /\
  (forall s, exists m,
     filter (fun x => Qeq_bool (score x) s) r =
     firstn m (filter (fun x => Qeq_bool (score x) s) (score_chunks q cs))).
Proof.
  intros k q cs r. unfold r, retrieveTopChunks_k, topKByScore.
  split; [apply firstn_le_length|]. split; [apply Retrieval.sorted_firstn, Retrieval.sort_sorted|].
  split.
  - intros it Hit. apply Retrieval.in_firstn in Hit.
    apply (Permutation_in _ (Retrieval.sort_perm _)) in Hit.
    apply Retrieval.score_chunks_in, Hit.
  - intros s. destruct (Retrieval.firstn_filter_prefix (Retrieval.score_is s) k
                          (sort_by_score (score_chunks q cs))) as [m Hm].
    exists m. change (fun x => Qeq_bool (score x) s) with (Retrieval.score_is s).
    rewrite Hm, Retrieval.sort_filter. reflexivity.
Qed.

(** ** The application layer *)

Module App.

Lemma trim_start_all_ws : forall q, forallb is_ws q = true -> trim_start q = [].
Proof.
  induction q as [|c r IH]; simpl; [reflexivity|].
  intros H. apply andb_prop in H as [Hc Hr]. rewrite Hc. apply IH, Hr.
Qed.

Lemma js_trim_all_ws : forall q, forallb is_ws q = true -> js_trim q = [].
Proof. intros q H. unfold js_trim. rewrite trim_start_all_ws by exact H. reflexivity. Qed.

Lemma jstr_eqb_eq : forall a b, jstr_eqb a b = true <-> a = b.
Proof.
  unfold jstr_eqb. induction a as [|x a IH]; destruct b as [|y b]; simpl;
    try (split; [discriminate | intros H; discriminate H]); [split; reflexivity|].
  split.
  - intros H. apply andb_prop in H as [Hl H]. apply andb_prop in H as [Hxy Hr].
    apply Z.eqb_eq in Hxy. subst y. f_equal. apply IH. rewrite Hl, Hr. reflexivity.
  - intros H. injection H as -> ->. pose proof (proj2 (IH _) eq_refl) as Ha.
    apply andb_prop in Ha as [Hl Hr]. rewrite Hl, Z.eqb_refl, Hr. reflexivity.
Qed.

Lemma jstr_eqb_refl : forall a, jstr_eqb a a = true.
Proof. intros a. apply jstr_eqb_eq. reflexivity. Qed.

Lemma get_cons : forall k' x r k,
  get (JObj ((k', x) :: r)) k = if jstr_eqb k' k then x else get (JObj r) k.
Proof. intros. simpl. destruct (jstr_eqb k' k); reflexivity. Qed.

Lemma get_not_key : forall fs k, ~ In k (map fst fs) -> get (JObj fs) k = JUndef.
Proof.
  induction fs as [|[k' x] r IH]; intros k Hk; [reflexivity|].
  rewrite get_cons. simpl in Hk. destruct (jstr_eqb k' k) eqn:E.
  - apply jstr_eqb_eq in E. subst. exfalso. apply Hk. left. reflexivity.
  - apply IH. intros H. apply Hk. right. exact H.
Qed.

Lemma get_in : forall fs k v, NoDup (map fst fs) -> In (k, v) fs -> get (JObj fs) k = v.
Proof.
  induction fs as [|[k' x] r IH]; intros k v Hnd Hin; [destruct Hin|].
  rewrite get_cons. simpl in Hnd. inversion Hnd as [|? ? Hk Hnd']; subst.
  destruct Hin as [Heq | Hin].
  - injection Heq as -> ->. rewrite jstr_eqb_refl. reflexivity.
  - destruct (jstr_eqb k' k) eqn:E.
    + apply jstr_eqb_eq in E. subst. exfalso. apply Hk.
      apply (in_map fst _ (k, v)) in Hin. exact Hin.
    + apply IH; assumption.
Qed.

Lemma rt_fields_keys : forall f fs k, In k (map fst (rt_fields f fs)) -> In k (map fst fs).
Proof.
  intros f. induction fs as [|[k' x] r IH]; intros k H; [exact H|].
  assert (Hr : In k (map fst (rt_fields f r)) -> In k (map fst ((k', x) :: r)))
    by (intros H'; right; apply IH, H').
  destruct x; simpl in H; try (destruct H as [H|H]; [left; exact H | apply Hr, H]).
  apply Hr, H.
Qed.

Lemma get_rt_fields : forall f fs k, NoDup (map fst fs) ->
  get (JObj (rt_fields f fs)) k =
  match get (JObj fs) k with JUndef => JUndef | x => f x end.
Proof.
  intros f. induction fs as [|[k' x] r IH]; intros k Hnd; [reflexivity|].
  simpl in Hnd. inversion Hnd as [|? ? Hk Hnd']; subst.
  rewrite get_cons. destruct (jstr_eqb k' k) eqn:E.
  - apply jstr_eqb_eq in E. subst k'.
    destruct x; simpl rt_fields; try (rewrite get_cons, jstr_eqb_refl; reflexivity).
    rewrite IH by exact Hnd'. rewrite get_not_key by exact Hk. reflexivity.
  - destruct x; simpl rt_fields; try (rewrite get_cons, E; apply IH, Hnd').
    apply IH, Hnd'.
Qed.

Lemma get_set_prop_same : forall k v fs, get (JObj (set_prop k v fs)) k = v.
Proof.
  intros k v. induction fs as [|[k' x] r IH]; simpl set_prop.
  - rewrite get_cons, jstr_eqb_refl. reflexivity.
  - destruct (jstr_eqb k' k) eqn:E; rewrite get_cons, E; [reflexivity | exact IH].
Qed.

Lemma get_set_prop_other : forall k' v fs k, jstr_eqb k' k = false ->
  get (JObj (set_prop k' v fs)) k = get (JObj fs) k.
Proof.
  intros k' v. induction fs as [|[k'' x] r IH]; intros k Hk; simpl set_prop.
  - rewrite get_cons, Hk. reflexivity.
  - destruct (jstr_eqb k'' k') eqn:E.
    + apply jstr_eqb_eq in E. subst k''. rewrite !get_cons, Hk. reflexivity.
    + rewrite !get_cons. destruct (jstr_eqb k'' k); [reflexivity | apply IH, Hk].
Qed.

(** A nested induction principle for [jval]. *)
Section JvalInd.
Variable P : jval -> Prop.
Hypothesis HUndef : P JUndef.
Hypothesis HNull : P JNull.
Hypothesis HBool : forall b, P (JBool b).
Hypothesis HNum : forall q, P (JNum q).
Hypothesis HStr : forall s, P (JStr s).
Hypothesis HArr : forall l, Forall P l -> P (JArr l).
Hypothesis HObj : forall fs, Forall (fun kv => P (snd kv)) fs -> P (JObj fs).
Hypothesis HF32 : forall v, P (JF32 v).

Fixpoint jval_ind' (v : jval) : P v :=
  match v with
  | JUndef => HUndef
  | JNull => HNull
  | JBool b => HBool b
  | JNum q => HNum q
  | JStr s => HStr s
  | JArr l => HArr l ((fix go (l : list jval) : Forall P l :=
                         match l with
                         | [] => Forall_nil _
                         | x :: r => Forall_cons _ (jval_ind' x) (go r)
                         end) l)
  | JObj fs => HObj fs ((fix go (fs : list (jstr * jval)) : Forall (fun kv => P (snd kv)) fs :=
                           match fs with
                           | [] => Forall_nil _
                           | kv :: r => Forall_cons _ (jval_ind' (snd kv)) (go r)
                           end) fs)
  | JF32 xs => HF32 xs
  end.
End JvalInd.

Lemma plain_roundtrip : forall v, json_plain v = true -> json_roundtrip v = v.
Proof.
  apply (jval_ind' (fun v => json_plain v = true -> json_roundtrip v = v));
    simpl; try reflexivity; try discriminate.
  - intros l IH H. f_equal. induction IH as [|x l Hx _ IHl]; [reflexivity|].
    simpl in H. apply andb_prop in H as [H1 H2]. simpl. rewrite Hx, IHl; auto.
  - intros fs IH H. f_equal. induction IH as [|[k x] fs Hx _ IHl]; [reflexivity|].
    simpl in H, Hx. apply andb_prop in H as [H1 H2].
    destruct x; try discriminate H1; cbn [rt_fields]; rewrite (Hx H1), (IHl H2); reflexivity.
Qed.

Lemma plain_roundtrip_all : forall l, Forall (fun v => json_plain v = true) l ->
  map json_roundtrip l = l.
Proof.
  induction 1 as [|x l Hx _ IH]; [reflexivity|]. simpl. rewrite plain_roundtrip, IH; auto.
Qed.

Lemma put_loop_ok : forall objs store,
  Forall (fun o => valid_key (get o (js "id")) = true) objs ->
  snd (put_loop store objs) = true.
Proof.
  induction objs as [|o r IH]; intros store H; [reflexivity|].
  inversion H as [|? ? Ho Hr]; subst. simpl. unfold store_put. rewrite Ho. apply IH, Hr.
Qed.

Lemma dbPutMany_docs_run : forall objs st,
  dbPutMany_docs objs st =
  (if snd (put_loop (db_docs st) objs) then inl tt else inr DataError,
   with_db_docs (fst (put_loop (db_docs st) objs)) st).
Proof.
  intros. unfold dbPutMany_docs, bind, get_state, modify.
  destruct (put_loop (db_docs st) objs) as [s [|]]; reflexivity.
Qed.

Lemma dbPutMany_chunks_run : forall objs st,
  dbPutMany_chunks objs st =
  (if snd (put_loop (db_chunks st) objs) then inl tt else inr DataError,
   with_db_chunks (fst (put_loop (db_chunks st) objs)) st).
Proof.
  intros. unfold dbPutMany_chunks, bind, get_state, modify.
  destruct (put_loop (db_chunks st) objs) as [s [|]]; reflexivity.
Qed.

(** [importJSON] of a payload whose [docs] and [chunks] are arrays. *)
Lemma put_loop_snd : forall objs store,
  snd (put_loop store objs) = forallb (fun o => valid_key (get o (js "id"))) objs.
Proof.
  induction objs as [|o r IH]; intros store; [reflexivity|].
  simpl. unfold store_put at 1. destruct (valid_key (get o (js "id"))); [apply IH|reflexivity].
Qed.

Lemma renderDocs_run st :
  renderDocs st =
  (if Nat.eqb (length (docs st)) 0 || forallb chunk_readable (chunks st) && forallb doc_renders (docs st)
   then inl tt else inr (TypeError (js "cannot render the document list")), st).
Proof.
  unfold renderDocs, bind, get_state, ret, throw.
  destruct (Nat.eqb _ 0); [reflexivity|]. simpl. destruct (_ && _); reflexivity.
Qed.

Lemma null_embedding_readable cs : forallb chunk_readable (map null_embedding cs) = true.
Proof. induction cs; [reflexivity|exact IHcs]. Qed.

Lemma render_docs_cond ds : (Nat.eqb (length ds) 0 || forallb doc_renders ds) = forallb doc_renders ds.
Proof. destruct ds; reflexivity. Qed.

Lemma index_key_not_id n : index_key n <> js "id".
Proof. unfold index_key. destruct (Nat.to_uint n); cbv; discriminate. Qed.

Lemma get_indexed_id l : get (JObj (indexed l)) (js "id") = JUndef.
Proof.
  apply get_not_key. unfold indexed. intros H.
  apply in_map_iff in H as [[k v] [Hk Hin]]. simpl in Hk. subst k.
  apply in_combine_l, in_map_iff in Hin as [n [Hn _]]. exact (index_key_not_id n Hn).
Qed.

(** [{...x, embedding: null}] has the [id] of [x], if any. *)
Lemma null_embedding_id c : get (null_embedding c) (js "id") = get c (js "id").
Proof.
  unfold null_embedding. rewrite get_set_prop_other by reflexivity.
  destruct c; simpl spread_props; try reflexivity; apply get_indexed_id.
Qed.

Lemma forallb_Exists_false {A} (f : A -> bool) l :
  Exists (fun x => f x = false) l -> forallb f l = false.
Proof.
  induction 1 as [x l Hx|x l _ IH]; simpl; [rewrite Hx; reflexivity|].
  rewrite IH, andb_false_r. reflexivity.
Qed.

Lemma forallb_Forall_true {A} (f : A -> bool) l :
  Forall (fun x => f x = true) l -> forallb f l = true.
Proof. intros H. apply forallb_forall. intros x Hx. exact (proj1 (Forall_forall _ _) H x Hx). Qed.

(** The outcome of an import whose [docs] and [chunks] are arrays: the
    in-memory lists are replaced in any case; the puts of the documents,
    then of the chunks, fail on a record without a valid key, and then
    [renderDocs] throws on a document it cannot render. *)
Lemma import_arrays : forall data ds cs st,
  get data (js "docs") = JArr ds -> get data (js "chunks") = JArr cs ->
  let r := importJSON (Some data) st in
  let ok_d := forallb (fun o => valid_key (get o (js "id"))) ds in
  let ok_c := forallb (fun o => valid_key (get o (js "id"))) (map null_embedding cs) in
  docs (snd r) = ds /\ chunks (snd r) = map null_embedding cs /\
  fst r = (if ok_d then if ok_c then if forallb doc_renders ds then inl tt
             else inr (TypeError (js "cannot render the document list"))
           else inr DataError else inr DataError) /\
  alerts (snd r) = alerts st ++ (if ok_d && ok_c && forallb doc_renders ds then [MSG_IMPORT_DONE] else []).
Proof.
  intros data ds cs st Hd Hc r ok_d ok_c. unfold r, importJSON. rewrite Hd, Hc. simpl js_truthy.
  cbv [negb orb bind get_state modify dbClearAll spread_iter array_map ret alert js_truthy].
  cbv beta iota. rewrite dbPutMany_docs_run. simpl db_docs. simpl docs.
  destruct (put_loop [] ds) as [s1 b1] eqn:E1.
  assert (Hb1 : b1 = ok_d) by (unfold ok_d; rewrite <- (put_loop_snd ds []), E1; reflexivity).
  subst b1. simpl fst. simpl snd.
  destruct ok_d.
  - rewrite dbPutMany_chunks_run. simpl db_chunks.
    destruct (put_loop [] (map null_embedding cs)) as [s2 b2] eqn:E2.
    assert (Hb2 : b2 = ok_c) by (unfold ok_c; rewrite <- (put_loop_snd _ []), E2; reflexivity).
    subst b2. simpl fst. simpl snd.
    destruct ok_c; [|simpl; rewrite app_nil_r; repeat split; reflexivity].
    rewrite renderDocs_run. simpl docs. simpl chunks.
    rewrite null_embedding_readable, andb_true_l, render_docs_cond.
    destruct (forallb doc_renders ds); simpl; rewrite ?app_nil_r; repeat split; reflexivity.
  - simpl. rewrite app_nil_r. repeat split; reflexivity.
Qed.

(** The stores after an import whose [docs] and [chunks] are arrays: the
    puts issued before a failing one commit. *)
Lemma import_arrays_db : forall data ds cs st,
  get data (js "docs") = JArr ds -> get data (js "chunks") = JArr cs ->
  let r := importJSON (Some data) st in
  db_docs (snd r) = fst (put_loop [] ds) /\
  db_chunks (snd r) = (if forallb (fun o => valid_key (get o (js "id"))) ds
                       then fst (put_loop [] (map null_embedding cs)) else []).
Proof.
  intros data ds cs st Hd Hc r. unfold r, importJSON. rewrite Hd, Hc. simpl js_truthy.
  cbv [negb orb bind get_state modify dbClearAll spread_iter array_map ret alert js_truthy].
  cbv beta iota. rewrite dbPutMany_docs_run. simpl db_docs. simpl docs.
  rewrite <- (put_loop_snd ds []).
  destruct (put_loop [] ds) as [s1 b1] eqn:E1. simpl fst. simpl snd.
  destruct b1; [|split; reflexivity].
  rewrite dbPutMany_chunks_run. simpl db_chunks.
  destruct (put_loop [] (map null_embedding cs)) as [s2 b2] eqn:E2.
  destruct b2; [|split; reflexivity].
  rewrite renderDocs_run. simpl docs. simpl chunks.
  destruct (_ || _); split; reflexivity.
Qed.

End App.

(** ** C10: blank questions *)

(** C10. [ask] with a question that is empty or made only of whitespace
    returns at once: the state (transcript, alerts, model calls, in-memory
    and stored data) is unchanged and nothing is raised. *)
Theorem C10_blank_question_noop : forall number_to_string E q strict showContext st,
  forallb is_ws q = true ->
  ask number_to_string E q strict showContext st = (inl tt, st).
Proof.
  intros nts E q strict sc st Hq. unfold ask.
  rewrite App.js_trim_all_ws by exact Hq. reflexivity.
Qed.

Lemma C10_blank_question_noop_witness :
  forallb is_ws [32; 9; 12288] = true /\
  ask (fun _ => []) demo_env [32; 9; 12288] true true state_after_import
  = (inl tt, state_after_import).
Proof.
  split; [reflexivity|].
  apply (C10_blank_question_noop (fun _ => []) demo_env [32; 9; 12288] true true
           state_after_import).
  reflexivity.
Defined.

(** ** C1: asking before any embedding exists *)

(** C1 (code bug). Right after an import no chunk has an embedding, yet
    [ask] does not fail: its guard tests [state.chunks.length === 0], so with
    one unembedded chunk it raises no alert, appends the user's and the
    assistant's messages to the transcript and calls the generator, with an
    empty retrieval. *)
Theorem C1_ask_without_embeddings : forall number_to_string,
  Forall (fun c => embedding_vector c = None) (chunks state_after_import) /\
  let r := ask number_to_string demo_env (js "What is indexed?") true false
             state_after_import in
  fst r = inl tt /\
  alerts (snd r) = [] /\
  map m_role (chat (snd r)) = [js "user"; js "assistant"] /\
  (exists msgs t, In (CallGenerate msgs t) (calls (snd r))).
Proof.
  intros nts. split.
  - repeat constructor.
  - vm_compute. split; [reflexivity|]. split; [reflexivity|]. split; [reflexivity|].
    eexists _, _. right. left. reflexivity.
Qed.

(** ** C7: malformed import payloads *)

(** C7 (code bug). The format guard of [importJSON] only tests that [docs]
    and [chunks] are truthy.  For [{"docs": {}, "chunks": []}], which has no
    [docs] array, it passes: the store and the in-memory docs, chunks and
    transcript are cleared, then spreading [data.docs] throws a [TypeError],
    reported as an import failure rather than the format alert. *)
Theorem C7_docs_not_array_clears_store : forall st,
  fst (importJSON (Some payload_docs_object) st)
    = inr (TypeError (js "object is not iterable")) /\
  let r := onImportChange (Some payload_docs_object) st in
  fst r = inl tt /\
  db_docs (snd r) = [] /\ db_chunks (snd r) = [] /\
  docs (snd r) = [] /\ chunks (snd r) = [] /\ chat (snd r) = [] /\
  alerts (snd r) = alerts st ++ [js "가져오기 실패" ++ NL ++ js "TypeError: object is not iterable"].
Proof.
  intros st. destruct st. split; [reflexivity|].
  repeat split; reflexivity.
Qed.

(** ** C8: the payload version *)

(** C8 (counterexample). [importJSON] never reads [version]: a payload with
    [version: 2] and both arrays is imported like any other, with the success
    alert; and a version-1 payload with both arrays fails when a document has
    no [id] (the store rejects it with a [DataError]). *)
Theorem C8_version_not_checked :
  fst (importJSON (Some payload_version2) state_after_import) = inl tt /\
  alerts (snd (importJSON (Some payload_version2) state_after_import)) = [MSG_IMPORT_DONE] /\
  fst (importJSON (Some payload_v1_doc_without_id) state_after_import) = inr DataError.
Proof.
  split; [|split]; reflexivity.
Qed.

(** C8 (amended). The outcome of [importJSON] depends only on the payload's
    [docs] and [chunks] fields, not on [version].  For a payload whose [docs]
    and [chunks] are arrays: if every document and every chunk has a valid
    IndexedDB key as [id] and every document can be rendered in the list
    ([renderDocs]), the import succeeds: the in-memory docs are the
    payload's, the chunks are the payload's with [embedding: null], and the
    success alert is shown; if some document or some chunk has no valid
    [id], the import fails with a [DataError]. *)
Theorem C8_import_ignores_version : forall data data' st,
  (get data (js "docs") = get data' (js "docs") ->
   get data (js "chunks") = get data' (js "chunks") ->
   importJSON (Some data) st = importJSON (Some data') st) /\
  (forall ds cs,
   get data (js "docs") = JArr ds -> get data (js "chunks") = JArr cs ->
   Forall (fun d => valid_key (get d (js "id")) = true) ds ->
   Forall (fun c => valid_key (get c (js "id")) = true) cs ->
   Forall (fun d => doc_renders d = true) ds ->
   exists st', importJSON (Some data) st = (inl tt, st') /\
     docs st' = ds /\ chunks st' = map null_embedding cs /\
     alerts st' = alerts st ++ [MSG_IMPORT_DONE]) /\
  (forall ds cs,
   get data (js "docs") = JArr ds -> get data (js "chunks") = JArr cs ->
   Exists (fun d => valid_key (get d (js "id")) = false) ds \/
   Exists (fun c => valid_key (get c (js "id")) = false) cs ->
   fst (importJSON (Some data) st) = inr DataError).
Proof.
  intros data data' st. split; [|split].
  - intros Hd Hc. unfold importJSON. rewrite Hd, Hc. reflexivity.
  - intros ds cs Hd Hc Hds Hcs Hr.
    destruct (App.import_arrays data ds cs st Hd Hc) as [H1 [H2 [H4 H5]]].
    cbv zeta in H4, H5.
    rewrite (App.forallb_Forall_true _ _ Hds), (App.forallb_Forall_true _ _ Hr) in H4, H5.
    assert (Hm : forallb (fun o => valid_key (get o (js "id"))) (map null_embedding cs) = true).
    { apply App.forallb_Forall_true, Forall_map. eapply Forall_impl; [|exact Hcs].
      intros c Hv. rewrite App.null_embedding_id. exact Hv. }
    rewrite Hm in H4, H5.
    exists (snd (importJSON (Some data) st)).
    destruct (importJSON (Some data) st) as [a st'] eqn:E. simpl in *.
    subst a. split; [reflexivity|]. split; [exact H1|]. split; [exact H2 | exact H5].
  - intros ds cs Hd Hc Hbad.
    destruct (App.import_arrays data ds cs st Hd Hc) as [_ [_ [H4 _]]].
    cbv zeta in H4. rewrite H4.
    destruct Hbad as [Hbad | Hbad].
    + rewrite (App.forallb_Exists_false _ _ Hbad). reflexivity.
    + rewrite (App.forallb_Exists_false (fun o => valid_key (get o (js "id"))) (map null_embedding cs)).
      * destruct (forallb _ ds); reflexivity.
      * apply Exists_map. eapply Exists_impl; [|exact Hbad].
        intros c Hv. rewrite App.null_embedding_id. exact Hv.
Qed.

Lemma C8_import_ignores_version_witness :
  (exists st', importJSON (Some payload_version2) state_after_import = (inl tt, st') /\
    docs st' = [imported_doc] /\ chunks st' = map null_embedding [payload_version2_chunk] /\
    alerts st' = alerts state_after_import ++ [MSG_IMPORT_DONE]) /\
  fst (importJSON (Some payload_v1_doc_without_id) state_after_import) = inr DataError.
Proof.
  split.
  - refine (proj1 (proj2 (C8_import_ignores_version payload_version2 payload_version2
                   state_after_import)) [imported_doc] [payload_version2_chunk] _ _ _ _ _);
      try reflexivity; repeat constructor.
  - refine (proj2 (proj2 (C8_import_ignores_version payload_v1_doc_without_id
                   payload_v1_doc_without_id state_after_import))
              [JObj [(js "name", JStr (js "guide.txt"))]] [] _ _ _); try reflexivity.
    left. constructor. reflexivity.
Defined.

(** ** Export and re-import *)

Module RoundTrip.
Import App.

Lemma payload_docs : forall now st,
  get (json_roundtrip (exportPayload now st)) (js "docs") = JArr (map json_roundtrip (docs st)).
Proof. intros. reflexivity. Qed.

Lemma payload_chunks : forall now st,
  get (json_roundtrip (exportPayload now st)) (js "chunks")
  = JArr (map json_roundtrip (map export_chunk (chunks st))).
Proof. intros. reflexivity. Qed.

Lemma export_chunk_keys : forall c,
  export_chunk c = JObj (map (fun k => (k, get c k)) export_keys).
Proof. intros. reflexivity. Qed.

Lemma export_keys_nodup : NoDup export_keys.
Proof.
  vm_compute. repeat constructor; simpl; intros H; repeat destruct H as [H|H];
    try discriminate H; exact H.
Qed.

Lemma export_keys_not_embedding : forall k, In k export_keys -> jstr_eqb (js "embedding") k = false.
Proof. intros k H. repeat destruct H as [<-|H]; try reflexivity. destruct H. Qed.

Lemma map_fst_pairs : forall (f : jstr -> jval) (l : list jstr),
  map fst (map (fun k => (k, f k)) l) = l.
Proof. intros f. induction l as [|k l IH]; simpl; [reflexivity | rewrite IH; reflexivity]. Qed.

Lemma export_fields_nodup : forall c, NoDup (map fst (map (fun k => (k, get c k)) export_keys)).
Proof. intros c. rewrite map_fst_pairs. exact export_keys_nodup. Qed.

(** A chunk after [exportJSON], [JSON.parse] and the [map] of [importJSON]. *)
Lemma chunk_roundtrip : forall c,
  (forall k, In k export_keys -> get c k = JUndef \/ json_plain (get c k) = true) ->
  let c' := null_embedding (json_roundtrip (export_chunk c)) in
  (forall k, In k export_keys -> get c' k = get c k) /\
  get c' (js "embedding") = JNull /\
  (forall k, ~ In k export_keys -> k <> js "embedding" -> get c' k = JUndef).
Proof.
  intros c Hc c'. unfold c'. rewrite export_chunk_keys. cbn [json_roundtrip].
  unfold null_embedding. cbn [spread_props]. split; [|split].
  - intros k Hk. rewrite get_set_prop_other by (apply export_keys_not_embedding, Hk).
    rewrite get_rt_fields by apply export_fields_nodup.
    rewrite (get_in _ k (get c k)).
    + destruct (Hc k Hk) as [Hu | Hp]; [rewrite Hu; reflexivity|].
      destruct (get c k); try reflexivity; apply plain_roundtrip, Hp.
    + apply export_fields_nodup.
    + apply (in_map (fun k => (k, get c k))), Hk.
  - apply get_set_prop_same.
  - intros k Hk He. rewrite get_set_prop_other.
    + rewrite get_rt_fields by apply export_fields_nodup.
      rewrite get_not_key; [reflexivity|].
      rewrite map_fst_pairs. exact Hk.
    + destruct (jstr_eqb (js "embedding") k) eqn:E; [|reflexivity].
      apply jstr_eqb_eq in E. exfalso. apply He. symmetry. exact E.
Qed.

End RoundTrip.

(** ** C5: export then import *)

(** C5. Importing the JSON produced by [exportJSON] (its [JSON.stringify]
    read back by [JSON.parse]) gives back, from any state, the exported docs
    unchanged, and for each exported chunk, in order, a chunk with the same
    [id], [docId], [docName], [page] and [text], with [embedding] set to
    [null] (no vector) and no other property.  Docs are plain JSON data
    (as [indexFile] builds them) and the five chunk fields are JSON data or
    absent.  The in-memory state is replaced before the store writes and
    before [renderDocs] runs.  When every doc and chunk has a valid key as
    [id], the import succeeds if every doc can be rendered in the list
    ([doc_renders]: e.g. its [name] is a string), and otherwise ends in the
    [TypeError] of [renderDocs], without the success alert. *)
Theorem C5_export_import_roundtrip : forall now st st0,
  Forall (fun d => json_plain d = true) (docs st) ->
  Forall (fun c => forall k, In k export_keys ->
            get c k = JUndef \/ json_plain (get c k) = true) (chunks st) ->
  let r := importJSON (Some (json_roundtrip (exportPayload now st))) st0 in
  docs (snd r) = docs st /\
  Forall2 (fun c c' =>
             (forall k, In k export_keys -> get c' k = get c k) /\
             get c' (js "embedding") = JNull /\
             (forall k, ~ In k export_keys -> k <> js "embedding" -> get c' k = JUndef))
          (chunks st) (chunks (snd r)) /\
  (Forall (fun d => valid_key (get d (js "id")) = true) (docs st) ->
   Forall (fun c => valid_key (get c (js "id")) = true) (chunks st) ->
   fst r = (if forallb doc_renders (docs st) then inl tt
            else inr (TypeError (js "cannot render the document list"))) /\
   alerts (snd r) = alerts st0 ++ (if forallb doc_renders (docs st) then [MSG_IMPORT_DONE] else [])).
Proof.
  intros now st st0 Hd Hc r. unfold r.
  destruct (App.import_arrays (json_roundtrip (exportPayload now st))
              (map json_roundtrip (docs st))
              (map json_roundtrip (map export_chunk (chunks st))) st0
              (RoundTrip.payload_docs now st) (RoundTrip.payload_chunks now st))
    as [H1 [H2 [H3 H4]]].
  cbv zeta in H3, H4.
  rewrite App.plain_roundtrip_all in H1, H3, H4 by exact Hd.
  split; [exact H1|]. split.
  - rewrite H2, !map_map. clear -Hc. induction Hc as [|c cs Hc1 _ IH]; constructor; [|exact IH].
    apply (RoundTrip.chunk_roundtrip c Hc1).
  - intros Hid Hcid.
    assert (Hm : forallb (fun o => valid_key (get o (js "id")))
                   (map null_embedding (map json_roundtrip (map export_chunk (chunks st)))) = true).
    { apply App.forallb_Forall_true.
      rewrite !map_map. apply Forall_forall. intros c' Hin.
      apply in_map_iff in Hin as [c [<- Hin]].
      rewrite Forall_forall in Hc, Hcid.
      rewrite (proj1 (RoundTrip.chunk_roundtrip c (Hc c Hin))) by (left; reflexivity).
      apply Hcid, Hin. }
    rewrite (App.forallb_Forall_true _ _ Hid), Hm in H3, H4.
    split; [exact H3 | exact H4].
Qed.

Lemma C5_export_import_roundtrip_witness :
  Forall (fun d => json_plain d = true) (docs state_after_import) /\
  Forall (fun c => forall k, In k export_keys ->
            get c k = JUndef \/ json_plain (get c k) = true) (chunks state_after_import) /\
  docs (snd (importJSON (Some (json_roundtrip
          (exportPayload (js "2026-01-02T00:00:00.000Z") state_after_import))) state_after_import))
  = docs state_after_import.
Proof.
  assert (Hd : Forall (fun d => json_plain d = true) (docs state_after_import))
    by (repeat constructor).
  assert (Hc : Forall (fun c => forall k, In k export_keys ->
            get c k = JUndef \/ json_plain (get c k) = true) (chunks state_after_import)).
  { apply Forall_cons; [|apply Forall_nil]. intros k Hk. right.
    repeat destruct Hk as [<-|Hk]; try reflexivity. destruct Hk. }
  split; [exact Hd|]. split; [exact Hc|].
  apply (C5_export_import_roundtrip (js "2026-01-02T00:00:00.000Z") state_after_import
           state_after_import Hd Hc).
Defined.

(** ** HTML escaping *)

Module Html.

Definition markup_free (c : Z) : Prop := c <> 60 /\ c <> 62 /\ c <> 34 /\ c <> 39.

Lemma escape_char_cases c :
  (c = 38 /\ escape_char c = js "&amp;") \/ (c = 60 /\ escape_char c = js "&lt;") \/
  (c = 62 /\ escape_char c = js "&gt;") \/ (c = 34 /\ escape_char c = js "&quot;") \/
  (c = 39 /\ escape_char c = js "&#39;") \/
  (c <> 38 /\ c <> 60 /\ c <> 62 /\ c <> 34 /\ c <> 39 /\ escape_char c = [c]).
Proof.
  unfold escape_char.
  destruct (Z.eqb_spec c 38); [left; split; [assumption|reflexivity]|].
  destruct (Z.eqb_spec c 60); [right; left; split; [assumption|reflexivity]|].
  destruct (Z.eqb_spec c 62); [right; right; left; split; [assumption|reflexivity]|].
  destruct (Z.eqb_spec c 34); [right; right; right; left; split; [assumption|reflexivity]|].
  destruct (Z.eqb_spec c 39);
    [right; right; right; right; left; split; [assumption|reflexivity]|].
  right; right; right; right; right. repeat split; assumption.
Qed.

Lemma escape_char_markup_free c : Forall markup_free (escape_char c).
Proof.
  unfold markup_free.
  destruct (escape_char_cases c) as
    [[_ ->]|[[_ ->]|[[_ ->]|[[_ ->]|[[_ ->]|(H1 & H2 & H3 & H4 & H5 & ->)]]]]];
    repeat constructor; try discriminate; auto.
Qed.

Lemma escape_char_head c r : unescape_head (escape_char c ++ r) = (c, r).
Proof.
  destruct (escape_char_cases c) as
    [[-> ->]|[[-> ->]|[[-> ->]|[[-> ->]|[[-> ->]|(H1 & H2 & H3 & H4 & H5 & ->)]]]]];
    try reflexivity.
  simpl. apply Z.eqb_neq in H1. rewrite H1. reflexivity.
Qed.

Lemma escape_char_nonempty c : exists x xs, escape_char c = x :: xs.
Proof.
  destruct (escape_char_cases c) as
    [[_ ->]|[[_ ->]|[[_ ->]|[[_ ->]|[[_ ->]|(_ & _ & _ & _ & _ & ->)]]]]];
    eexists; eexists; reflexivity.
Qed.

Lemma escape_units_length s : (length s <= length (escape_units s))%nat.
Proof.
  induction s as [|c r IH]; simpl; [lia|].
  rewrite length_app. destruct (escape_char_nonempty c) as (x & xs & ->). simpl. lia.
Qed.

Lemma unescape_escape s : forall fuel, (length s <= fuel)%nat ->
  unescape_fuel fuel (escape_units s) = s.
Proof.
  induction s as [|c r IH]; intros fuel Hf.
  - destruct fuel; reflexivity.
  - destruct fuel as [|f]; [simpl in Hf; lia|]. simpl escape_units.
    destruct (escape_char_nonempty c) as (x & xs & Hx).
    change (escape_units (c :: r)) with (escape_char c ++ escape_units r).
    rewrite Hx. cbn [unescape_fuel app].
    change (x :: xs ++ escape_units r) with ((x :: xs) ++ escape_units r).
    rewrite <- Hx, escape_char_head. f_equal. apply IH. simpl in Hf. lia.
Qed.

Lemma br_escape_char c :
  flat_map (fun d => if d =? 10 then js "<br>" else [d]) (escape_char c) =
  if c =? 10 then js "<br>" else escape_char c.
Proof.
  destruct (escape_char_cases c) as
    [[-> ->]|[[-> ->]|[[-> ->]|[[-> ->]|[[-> ->]|(H1 & H2 & H3 & H4 & H5 & ->)]]]]];
    try reflexivity.
  simpl. destruct (c =? 10); reflexivity.
Qed.

End Html.

(** X1: decoding the character references [escapeHtml] writes gives back
    the original string. *)
Theorem X1_escape_roundtrip : forall s,
  escapeHtml (JStr s) = Some (escape_units s) /\ html_unescape (escape_units s) = s.
Proof.
  intros s. split; [reflexivity|].
  apply Html.unescape_escape, Html.escape_units_length.
Qed.

(** X2: [escapeHtml] throws on a boolean, a number, an array, an object
    or a typed array, and on nothing else; it turns [null] and [undefined]
    into the empty string; and whatever it returns contains no less-than,
    greater-than, double or single quote character. *)
Theorem X2_escapeHtml_spec : forall v,
  (escapeHtml v = None <->
   (exists b, v = JBool b) \/ (exists q, v = JNum q) \/ (exists l, v = JArr l) \/
   (exists fs, v = JObj fs) \/ (exists xs, v = JF32 xs)) /\
  (v = JUndef \/ v = JNull -> escapeHtml v = Some []) /\
  (forall h, escapeHtml v = Some h -> Forall Html.markup_free h).
Proof.
  intros v. split; [|split].
  - destruct v as [| | b | q | s | l | fs | xs]; simpl; split; intros H;
      try discriminate H; try reflexivity;
      repeat match type of H with
             | _ \/ _ => destruct H as [H|H]
             | exists _, _ => destruct H as [? H]
             end; try discriminate H; eauto 7.
  - intros [-> | ->]; reflexivity.
  - intros h. destruct v as [| | b | q | s | l | fs | xs]; simpl; intros H; try discriminate H;
      injection H as <-; [constructor | constructor |].
    induction s as [|c r IH]; simpl; [constructor|].
    apply Forall_app. split; [apply Html.escape_char_markup_free|exact IH].
Qed.

(** X3: [asBubbleHtml] turns each newline into [<br>] and every other code
    unit into its [escapeHtml] form, so that no newline survives. *)
Theorem X3_asBubbleHtml_shape : forall text,
  asBubbleHtml text =
    flat_map (fun c => if c =? 10 then js "<br>" else escape_char c) text /\
  ~ In 10 (asBubbleHtml text).
Proof.
  intros text.
  assert (E : asBubbleHtml text =
    flat_map (fun c => if c =? 10 then js "<br>" else escape_char c) text).
  { unfold asBubbleHtml, escape_units. induction text as [|c r IH]; [reflexivity|].
    simpl flat_map at 2 3. rewrite flat_map_app, IH, Html.br_escape_char. reflexivity. }
  split; [exact E|]. rewrite E. intros Hin.
  apply in_flat_map in Hin. destruct Hin as (c & _ & Hc).
  destruct (Z.eqb_spec c 10) as [Heq|Hne].
  - simpl in Hc. repeat destruct Hc as [Hc|Hc]; try discriminate; contradiction.
  - destruct (Html.escape_char_cases c) as
      [[_ E1]|[[_ E1]|[[_ E1]|[[_ E1]|[[_ E1]|(_ & _ & _ & _ & _ & E1)]]]]];
      rewrite E1 in Hc; simpl in Hc;
      repeat destruct Hc as [Hc|Hc]; try discriminate; try contradiction.
Qed.

(** ** Progress, vectors and top-K selection *)

Module Scores.

Open Scope Q_scope.

Lemma clamp01_spec x :
  0 <= clamp01 x <= 1 /\ (0 <= x <= 1 -> clamp01 x == x) /\
  (x <= 0 -> clamp01 x == 0) /\ (1 <= x -> clamp01 x == 1).
Proof.
  unfold clamp01, js_max, js_min.
  destruct (Qle_bool 1 x) eqn:E1.
  - apply Qle_bool_iff in E1. replace (Qle_bool 0 1) with true by reflexivity.
    split; [split; discriminate|]. split; [|split].
    + intros [_ H]. apply Qle_antisym; assumption.
    + intros H. exfalso. apply (Qlt_irrefl 0). eapply Qlt_le_trans; [|exact H].
      eapply Qlt_le_trans; [|exact E1]. reflexivity.
    + intros _. reflexivity.
  - assert (Hx : x < 1).
    { apply Qnot_le_lt. intros H. apply Qle_bool_iff in H. congruence. }
    destruct (Qle_bool 0 x) eqn:E0.
    + apply Qle_bool_iff in E0. split; [split; [exact E0 | apply Qlt_le_weak, Hx]|].
      split; [intros _; reflexivity|]. split.
      * intros H. apply Qle_antisym; assumption.
      * intros H. exfalso. apply (Qlt_not_le _ _ Hx H).
    + assert (H0 : x < 0).
      { apply Qnot_le_lt. intros H. apply Qle_bool_iff in H. congruence. }
      split; [split; discriminate|]. split; [|split].
      * intros [H _]. exfalso. apply (Qlt_not_le _ _ H0 H).
      * intros _. reflexivity.
      * intros H. exfalso. apply (Qlt_not_le _ _ Hx H).
Qed.

Lemma dot_gen_comm a : forall b s s', s == s' ->
  fold_left (fun s p => s + fst p * snd p) (combine a b) s ==
  fold_left (fun s p => s + fst p * snd p) (combine b a) s'.
Proof.
  induction a as [|x a IH]; intros [|y b] s s' Hs; simpl; try exact Hs.
  apply IH. rewrite Hs. ring.
Qed.

Lemma length_score_chunks q cs :
  length (score_chunks q cs) =
  length (filter (fun c => match embedding_vector c with Some _ => true | None => false end) cs).
Proof.
  induction cs as [|c r IH]; simpl; [reflexivity|].
  destruct (embedding_vector c); simpl; rewrite IH; reflexivity.
Qed.

Lemma score_chunks_complete q cs c v : In c cs -> embedding_vector c = Some v ->
  In {| score := dot q v; sch := c |} (score_chunks q cs).
Proof.
  induction cs as [|c' r IH]; simpl; [contradiction|].
  intros [-> | Hin] Hv.
  - rewrite Hv. left. reflexivity.
  - destruct (embedding_vector c'); [right|]; apply IH; assumption.
Qed.

Lemma strongly_sorted_app {A} (R : A -> A -> Prop) : forall l1 l2 x y,
  StronglySorted R (l1 ++ l2) -> In x l1 -> In y l2 -> R x y.
Proof.
  induction l1 as [|a l1 IH]; intros l2 x y Hs Hx Hy; [contradiction|].
  simpl in Hs. apply StronglySorted_inv in Hs as [Hs Hall].
  destruct Hx as [<- | Hx].
  - rewrite Forall_forall in Hall. apply Hall, in_or_app. right. exact Hy.
  - eapply IH; eassumption.
Qed.

End Scores.

(** X4: [setProgress] always leaves a progress value in [[0, 1]]: a value
    in range is kept, a value below [0] shows as [0] and one above [1] as
    [1]. *)
Theorem X4_setProgress_clamped : forall v st,
  let p := progress (snd (setProgress v st)) in
  (0 <= p <= 1)%Q /\ ((0 <= v <= 1)%Q -> (p == v)%Q) /\
  ((v <= 0)%Q -> (p == 0)%Q) /\ ((1 <= v)%Q -> (p == 1)%Q).
Proof. intros v st p. apply Scores.clamp01_spec. Qed.

(** X5: the dot product is symmetric in its two vectors, also when their
    lengths differ. *)
Theorem X5_dot_comm : forall a b, (dot a b == dot b a)%Q.
Proof. intros a b. apply Scores.dot_gen_comm. reflexivity. Qed.

(** X6: retrieval returns exactly [min k m] items, [m] being the number of
    chunks with a truthy embedding. *)
Theorem X6_retrieve_length : forall k q cs,
  length (retrieveTopChunks_k k q cs) =
  Nat.min k (length (filter (fun c => match embedding_vector c with
                                      | Some _ => true | None => false end) cs)).
Proof.
  intros k q cs. unfold retrieveTopChunks_k, topKByScore.
  rewrite length_firstn, (Permutation_length (Retrieval.sort_perm _)),
    Scores.length_score_chunks. reflexivity.
Qed.

(** X7: no chunk left out of the result scores higher than a chunk in it:
    a chunk with an embedding that is not returned scores at most the score
    of every returned item. *)
Theorem X7_retrieve_complete : forall k q cs c v,
  In c cs -> embedding_vector c = Some v ->
  ~ In c (map sch (retrieveTopChunks_k k q cs)) ->
  forall it, In it (retrieveTopChunks_k k q cs) -> (dot q v <= score it)%Q.
Proof.
  intros k q cs c v Hin Hv Hnot it Hit.
  unfold retrieveTopChunks_k, topKByScore in *.
  set (l := sort_by_score (score_chunks q cs)) in *.
  assert (Hl : In {| score := dot q v; sch := c |} l).
  { apply (Permutation_in _ (Permutation_sym (Retrieval.sort_perm _))).
    apply Scores.score_chunks_complete; assumption. }
  rewrite <- (firstn_skipn k l) in Hl. apply in_app_or in Hl as [Hl | Hl].
  - exfalso. apply Hnot. apply in_map_iff. eexists; split; [|exact Hl]. reflexivity.
  - assert (Hs : StronglySorted Retrieval.desc (firstn k l ++ skipn k l)).
    { rewrite firstn_skipn. apply Sorted_StronglySorted;
        [exact Retrieval.desc_trans | apply Retrieval.sort_sorted]. }
    exact (Scores.strongly_sorted_app _ _ _ _ _ Hs Hit Hl).
Qed.

(** Witness of X7: the second of two embedded chunks is left out of a
    top-1 selection and scores no more than the one kept. *)
Lemma X7_retrieve_complete_witness :
  (dot [1; 0]%Q [0; 1]%Q <= score (hd {| score := 0; sch := JNull |}
     (retrieveTopChunks_k 1 [1; 0]%Q
        [JObj [(js "id", JNum 1); (js "embedding", JF32 [1; 0]%Q)];
         JObj [(js "id", JNum 2); (js "embedding", JF32 [0; 1]%Q)]])))%Q.
Proof.
  apply (X7_retrieve_complete 1 [1; 0]%Q
           [JObj [(js "id", JNum 1); (js "embedding", JF32 [1; 0]%Q)];
            JObj [(js "id", JNum 2); (js "embedding", JF32 [0; 1]%Q)]]
           (JObj [(js "id", JNum 2); (js "embedding", JF32 [0; 1]%Q)]) [0; 1]%Q).
  - right. left. reflexivity.
  - vm_compute. reflexivity.
  - vm_compute. intros [H | []]. discriminate.
  - vm_compute. left. reflexivity.
Defined.

(** ** Citations and the context they point into *)

Module Cite.

Lemma uint_codes_digits u : Forall (fun c => is_digit c = true) (uint_codes u).
Proof. induction u; simpl; constructor; auto. Qed.

Lemma index_key_succ_nonempty i : index_key (S i) <> [].
Proof.
  unfold index_key. intros H.
  assert (Hu : Nat.to_uint (S i) = Decimal.Nil)
    by (destruct (Nat.to_uint (S i)); simpl in H; congruence).
  pose proof (DecimalNat.Unsigned.of_to (S i)) as E. rewrite Hu in E. discriminate.
Qed.

Lemma join_in (sep x : jstr) : forall l, In x l ->
  exists pre post, join sep l = pre ++ x ++ post.
Proof.
  induction l as [|a l IH]; intros Hin; [contradiction|].
  destruct l as [|b l].
  - destruct Hin as [<- | []]. exists [], []. rewrite app_nil_r. reflexivity.
  - destruct Hin as [<- | Hin].
    + exists [], (sep ++ join sep (b :: l)). reflexivity.
    + destruct (IH Hin) as (pre & post & E).
      exists (a ++ sep ++ pre), post. change (join sep (a :: b :: l)) with
        (a ++ sep ++ join sep (b :: l)). rewrite E, <- !app_assoc. reflexivity.
Qed.

Lemma in_combine_seq {A} (d : A) : forall (l : list A) k i, (i < length l)%nat ->
  In ((k + i)%nat, nth i l d) (combine (seq k (length l)) l).
Proof.
  induction l as [|a l IH]; intros k i Hi; simpl in Hi; [lia|].
  destruct i as [|i]; simpl.
  - left. rewrite Nat.add_0_r. reflexivity.
  - right. replace (k + S i)%nat with (S k + i)%nat by lia. apply IH. lia.
Qed.

End Cite.

(** X9: every label [C1], ..., [Cn] that [buildContext] writes for [n]
    retrieved chunks is read back by [parseUsedCitations]. *)
Theorem X9_context_labels_parsed : forall number_to_string top i,
  (i < length top)%nat ->
  In (js_Number_of_digits (index_key (S i)))
     (parseUsedCitations (buildContext number_to_string top)).
Proof.
  intros nts top i Hi. unfold parseUsedCitations.
  apply Citations.fold_set_add_in. right. exists (index_key (S i)). split; [|reflexivity].
  apply Citations.cite_scan_spec; [lia|].
  split; [apply Cite.index_key_succ_nonempty|]. split; [apply Cite.uint_codes_digits|].
  set (d := {| score := 0; sch := JUndef |}).
  pose proof (Cite.in_combine_seq d top 0 i Hi) as Hc. simpl in Hc.
  unfold buildContext.
  match goal with |- context [join ?sep (map ?f ?l)] =>
    destruct (Cite.join_in sep (f (i, nth i top d)) (map f l) (in_map f l _ Hc))
      as (pre & post & E) end.
  rewrite E. cbv beta iota zeta.
  change (js "[C") with [91; 67]. change (js "] (") with [93; 32; 40].
  exists pre. eexists. f_equal. cbn [app]. rewrite <- !app_assoc. cbn [app]. reflexivity.
Qed.

(** Witness of X9: the first of two retrieved chunks. *)
Lemma X9_context_labels_parsed_witness :
  In (js_Number_of_digits (index_key 1))
     (parseUsedCitations (buildContext (fun _ => js "1")
        [{| score := 1; sch := imported_chunk |}; {| score := 0; sch := imported_chunk |}])).
Proof.
  apply (X9_context_labels_parsed (fun _ => js "1")
           [{| score := 1; sch := imported_chunk |}; {| score := 0; sch := imported_chunk |}] 0).
  simpl. lia.
Defined.

(** ** Chunk pieces and normalised text *)

Module Pieces.

Lemma trim_start_suffix s : exists pre, s = pre ++ trim_start s.
Proof.
  induction s as [|c r [pre IH]]; simpl; [exists []; reflexivity|].
  destruct (is_ws c); [exists (c :: pre); simpl; rewrite <- IH | exists []]; reflexivity.
Qed.

Lemma trim_end_prefix s : exists post, s = trim_end s ++ post.
Proof.
  induction s as [|c r [post IH]]; simpl; [exists []; reflexivity|].
  destruct (trim_end r) as [|x r'] eqn:E.
  - destruct (is_ws c); [exists (c :: r) | exists post; rewrite IH]; reflexivity.
  - exists post. rewrite IH at 1. reflexivity.
Qed.

Lemma js_trim_infix s : exists pre post, s = pre ++ js_trim s ++ post.
Proof.
  destruct (trim_start_suffix s) as [pre E1].
  destruct (trim_end_prefix (trim_start s)) as [post E2].
  exists pre, post. unfold js_trim. rewrite <- E2. exact E1.
Qed.

Lemma slice_infix a b t : exists pre post, t = pre ++ slice a b t ++ post.
Proof.
  exists (firstn a t), (skipn (b - a) (skipn a t)). unfold slice.
  rewrite firstn_skipn, firstn_skipn. reflexivity.
Qed.

Lemma windows_bounds len size overlap : forall start ws,
  windows len size overlap start ws ->
  Forall (fun w => (snd w - fst w <= size)%nat) ws.
Proof.
  intros start ws Hw. induction Hw as [start Hs Hl | start ws Hs Hw IH];
    constructor; simpl; auto; lia.
Qed.

Lemma window_piece_props t w :
  Forall (fun p => (30 <= length p <= snd w - fst w)%nat /\ trimmed p = true /\
                   exists pre post, t = pre ++ p ++ post) (window_piece t w).
Proof.
  unfold window_piece.
  destruct (30 <=? length (js_trim (slice (fst w) (snd w) t)))%nat eqn:E; [|constructor].
  apply Nat.leb_le in E. constructor; [|constructor]. split; [split|split].
  - exact E.
  - eapply Nat.le_trans; [apply Normalize.js_trim_length|].
    unfold slice. rewrite length_firstn. lia.
  - apply Normalize.js_trim_trimmed.
  - destruct (slice_infix (fst w) (snd w) t) as (pre1 & post1 & E1).
    destruct (js_trim_infix (slice (fst w) (snd w) t)) as (pre2 & post2 & E2).
    exists (pre1 ++ pre2), (post2 ++ post1). rewrite E1 at 1. rewrite E2 at 1.
    rewrite <- !app_assoc. reflexivity.
Qed.

Lemma no_dbl_spec : forall pre b post, no_dbl_from b (pre ++ 32 :: 32 :: post) = false.
Proof.
  induction pre as [|x pre IH]; intros b post; simpl.
  - rewrite andb_false_r. reflexivity.
  - destruct (x =? 32); [rewrite IH, andb_false_r|rewrite IH]; reflexivity.
Qed.

Lemma no_nl3_spec : forall pre k post, no_nl3_from k (pre ++ 10 :: 10 :: 10 :: post) = false.
Proof.
  induction pre as [|x pre IH]; intros k post; simpl.
  - destruct k as [|[|[|k]]]; reflexivity.
  - destruct (x =? 10); [rewrite IH, andb_false_r|rewrite IH]; reflexivity.
Qed.

End Pieces.

(** X10: every piece [chunkText] returns is at least 30 and at most
    [chunkSize] code units long, starts and ends with a character that is not
    white space, and occurs as a contiguous part of the normalised text. *)
Theorem X10_chunk_pieces : forall fuel text chunkSize overlap out,
  chunkText fuel text chunkSize overlap = Some out ->
  Forall (fun p => (30 <= length p <= chunkSize)%nat /\ trimmed p = true /\
                   exists pre post, normalizeText text = pre ++ p ++ post) out.
Proof.
  intros fuel text size overlap out H. unfold chunkText in H.
  destruct (normalizeText text) as [|c r] eqn:Et; [injection H as <-; constructor|].
  destruct (Chunking.chunk_loop_windows (c :: r) size overlap fuel 0 out
              ltac:(simpl; lia) H) as (ws & Hw & ->).
  pose proof (Pieces.windows_bounds _ _ _ _ _ Hw) as Hb.
  apply Forall_flat_map. apply Forall_forall. intros w Hin.
  rewrite Forall_forall in Hb. specialize (Hb w Hin).
  eapply Forall_impl; [|apply (Pieces.window_piece_props (c :: r) w)].
  intros p (Hl & Ht & Hi). split; [lia|]. split; assumption.
Qed.

(** Witness of X10: a 31-code-unit text kept whole by the default chunking. *)
Lemma X10_chunk_pieces_witness :
  Forall (fun p => (30 <= length p <= CHUNK_CHARS)%nat /\ trimmed p = true /\
                   exists pre post, normalizeText (js "a b c d e f g h i j k l m n o p") =
                                    pre ++ p ++ post)
         [js "a b c d e f g h i j k l m n o p"].
Proof.
  apply (X10_chunk_pieces 2 (js "a b c d e f g h i j k l m n o p") CHUNK_CHARS CHUNK_OVERLAP).
  vm_compute. reflexivity.
Defined.

(** X11: normalised text has no NUL and no tab character, never two spaces
    in a row nor three newlines in a row, and neither starts nor ends with
    white space. *)
Theorem X11_normalize_shape : forall t,
  let n := normalizeText t in
  ~ In 0 n /\ ~ In 9 n /\
  (forall pre post, n <> pre ++ 32 :: 32 :: post) /\
  (forall pre post, n <> pre ++ 10 :: 10 :: 10 :: post) /\
  trimmed n = true.
Proof.
  intros t n. destruct (Normalize.normalize_shape t) as (H0 & H9 & Hd & Hn & Ht).
  split; [exact H0|]. split; [exact H9|]. split; [|split; [|exact Ht]].
  - intros pre post E. fold n in Hd. rewrite E, Pieces.no_dbl_spec in Hd. discriminate.
  - intros pre post E. fold n in Hn. rewrite E, Pieces.no_nl3_spec in Hn. discriminate.
Qed.

(** ** The embedder, and the early exits of the ask button *)

Module Flow.

(** The state after [ensureEmbedder] has run to completion. *)
Definition loaded (st : app_state) : app_state :=
  if embedder st then st
  else with_progress (clamp01 0) (with_status (js "임베딩 모델 로드 완료")
         (with_embedder true (with_progress (clamp01 (2 # 100))
            (with_status (js "임베딩 모델 로딩 중…") st)))).

(** The state [ensureEmbedder] leaves when the pipeline fails to load. *)
Definition load_failed (st : app_state) : app_state :=
  with_progress (clamp01 (2 # 100)) (with_status (js "임베딩 모델 로딩 중…") st).

Lemma ensure_ok E st : embedder st = true \/ embedder_load_ok E = true ->
  ensureEmbedder E st = (inl tt, loaded st).
Proof.
  intros H. unfold ensureEmbedder, loaded, bind, get_state.
  destruct (embedder st); [reflexivity|].
  destruct H as [H|H]; [discriminate|]. cbv [setStatus setProgress modify ret].
  rewrite H. reflexivity.
Qed.

Lemma ensure_fail E st : embedder st = false -> embedder_load_ok E = false ->
  ensureEmbedder E st = (inr EmbedLoadError, load_failed st).
Proof.
  intros H1 H2. unfold ensureEmbedder, bind, get_state. rewrite H1.
  cbv [setStatus setProgress modify ret throw]. rewrite H2. reflexivity.
Qed.

Lemma loaded_fields st :
  embedder (loaded st) = true /\ docs (loaded st) = docs st /\
  chunks (loaded st) = chunks st /\ engine (loaded st) = engine st /\
  chat (loaded st) = chat st /\ db_docs (loaded st) = db_docs st /\
  db_chunks (loaded st) = db_chunks st /\ alerts (loaded st) = alerts st /\
  calls (loaded st) = calls st.
Proof. unfold loaded. destruct (embedder st) eqn:E; repeat split; assumption || reflexivity. Qed.

Lemma js_trim_idem q : js_trim (js_trim q) = js_trim q.
Proof. apply Normalize.js_trim_id, Normalize.js_trim_trimmed. Qed.

Lemma length_nonempty {A} (q : list A) : q <> [] -> Nat.eqb (length q) 0 = false.
Proof. destruct q; [contradiction | reflexivity]. Qed.

End Flow.

(** X12: [ensureEmbedder] either loads the pipeline, after which a second
    call does nothing, or raises the load error, which happens only when the
    pipeline was not loaded and fails to load; in both cases the documents,
    chunks, stores, chat, alerts and model calls are left as they were. *)
Theorem X12_ensureEmbedder : forall E st,
  let r := ensureEmbedder E st in
  docs (snd r) = docs st /\ chunks (snd r) = chunks st /\ chat (snd r) = chat st /\
  db_docs (snd r) = db_docs st /\ db_chunks (snd r) = db_chunks st /\
  alerts (snd r) = alerts st /\ calls (snd r) = calls st /\
  match fst r with
  | inl _ => embedder (snd r) = true /\ ensureEmbedder E (snd r) = (inl tt, snd r)
  | inr e => e = EmbedLoadError /\ embedder st = false /\ embedder_load_ok E = false
  end.
Proof.
  intros E st r. unfold r.
  destruct (embedder st) eqn:He; [|destruct (embedder_load_ok E) eqn:Hl].
  - rewrite Flow.ensure_ok by (left; exact He). unfold Flow.loaded. rewrite He. simpl.
    repeat split; try reflexivity; [exact He|].
    unfold ensureEmbedder, bind, get_state. rewrite He. reflexivity.
  - rewrite Flow.ensure_ok by (right; exact Hl). simpl.
    destruct (Flow.loaded_fields st) as (H1 & H2 & H3 & _ & H5 & H6 & H7 & H8 & H9).
    repeat split; try assumption.
    rewrite Flow.ensure_ok by (left; exact H1).
    unfold Flow.loaded at 1. rewrite H1. reflexivity.
  - rewrite Flow.ensure_fail by assumption. simpl. repeat split; reflexivity.
Qed.

(** X13: asking a non-blank question before any chunk is indexed only shows
    the upload alert. *)
Theorem X13_ask_without_chunks : forall number_to_string E q strict showContext st,
  js_trim q <> [] -> chunks st = [] ->
  ask number_to_string E q strict showContext st =
  (inl tt, with_alerts (alerts st ++ [MSG_NO_CORPUS]) st).
Proof.
  intros nts E q strict sc st Hq Hc. unfold ask.
  rewrite (Flow.length_nonempty _ Hq). cbv [bind get_state]. rewrite Hc. reflexivity.
Qed.

Lemma X13_ask_without_chunks_witness :
  js_trim (js "hello") <> [] /\
  ask (fun _ => []) demo_env (js "hello") true false
      (with_chunks [] state_after_import) =
  (inl tt, with_alerts (alerts state_after_import ++ [MSG_NO_CORPUS])
                       (with_chunks [] state_after_import)).
Proof.
  split; [vm_compute; discriminate|].
  apply (X13_ask_without_chunks (fun _ => []) demo_env (js "hello") true false
           (with_chunks [] state_after_import)).
  - vm_compute. discriminate.
  - reflexivity.
Defined.

(** X14: asking a non-blank question with chunks indexed but no language
    model loaded only shows the model alert. *)
Theorem X14_ask_without_engine : forall number_to_string E q strict showContext st,
  js_trim q <> [] -> chunks st <> [] -> engine st = false ->
  ask number_to_string E q strict showContext st =
  (inl tt, with_alerts (alerts st ++ [MSG_NO_ENGINE]) st).
Proof.
  intros nts E q strict sc st Hq Hc He. unfold ask.
  rewrite (Flow.length_nonempty _ Hq). cbv [bind get_state].
  rewrite (Flow.length_nonempty _ Hc), He. reflexivity.
Qed.

Lemma X14_ask_without_engine_witness :
  let st := {| docs := docs state_after_import; chunks := chunks state_after_import;
               engine := false; embedder := true; chat := []; status := js "대기";
               progress := 0; db_docs := db_docs state_after_import;
               db_chunks := db_chunks state_after_import; alerts := []; calls := [] |} in
  ask (fun _ => []) demo_env (js "hello") false false st =
  (inl tt, with_alerts (alerts st ++ [MSG_NO_ENGINE]) st).
Proof.
  intros st. apply X14_ask_without_engine.
  - vm_compute. discriminate.
  - discriminate.
  - reflexivity.
Defined.

(** X15: when the embedding pipeline fails to load, the ask button reports
    the failure in an alert; no message is added to the chat and no model is
    called. *)
Theorem X15_onAsk_embedder_failure : forall number_to_string E value strict showContext st,
  js_trim value <> [] -> chunks st <> [] -> engine st = true ->
  embedder st = false -> embedder_load_ok E = false ->
  let r := onAsk number_to_string E value strict showContext st in
  fst r = inl tt /\ alerts (snd r) = alerts st ++ [js "질문 처리 실패" ++ NL ++ js "Error"] /\
  chat (snd r) = chat st /\ calls (snd r) = calls st /\ embedder (snd r) = false /\
  docs (snd r) = docs st /\ chunks (snd r) = chunks st /\
  db_docs (snd r) = db_docs st /\ db_chunks (snd r) = db_chunks st.
Proof.
  intros nts E value strict sc st Hq Hc He Hb Hl r. unfold r, onAsk, catch, ask.
  rewrite Flow.js_trim_idem, (Flow.length_nonempty _ Hq). cbv [bind get_state].
  rewrite (Flow.length_nonempty _ Hc), He. cbv [negb]. cbv beta iota.
  rewrite Flow.ensure_fail by assumption. cbv [alert modify].
  repeat split; assumption || reflexivity.
Qed.

Lemma X15_onAsk_embedder_failure_witness :
  let st := {| docs := docs state_after_import; chunks := chunks state_after_import;
               engine := true; embedder := false; chat := []; status := js "대기";
               progress := 0; db_docs := db_docs state_after_import;
               db_chunks := db_chunks state_after_import; alerts := []; calls := [] |} in
  let E := {| embed_model := embed_model demo_env; chat_stream := chat_stream demo_env;
              embedder_load_ok := false; now_iso := now_iso demo_env |} in
  fst (onAsk (fun _ => []) E (js " hello ") true false st) = inl tt.
Proof.
  intros st E. refine (proj1 (X15_onAsk_embedder_failure (fun _ => []) E (js " hello ")
                                true false st _ _ _ _ _)).
  - vm_compute. discriminate.
  - discriminate.
  - reflexivity.
  - reflexivity.
  - reflexivity.
Defined.

(** ** A complete run of ask *)

Module AskRun.

(** The bubble of message [i] set to [t]. *)
Definition bubble_set (i : nat) (t : jstr) (st : app_state) : app_state :=
  with_chat (update_nth i (fun m => {| m_role := m_role m; m_bubble := t; m_meta := m_meta m |})
                        (chat st)) st.

Lemma update_nth_twice {A} (f g : A -> A) : forall i l,
  update_nth i g (update_nth i f l) = update_nth i (fun x => g (f x)) l.
Proof. induction i as [|i IH]; intros [|x l]; simpl; try reflexivity. rewrite IH. reflexivity. Qed.

Lemma update_nth_app_len {A} (f : A -> A) : forall l x r,
  update_nth (length l) f (l ++ x :: r) = l ++ f x :: r.
Proof. induction l as [|y l IH]; intros x r; simpl; [reflexivity|]. rewrite IH. reflexivity. Qed.

Lemma stream_run i : forall ds a st,
  stream_loop i a ds st =
  (inl (a ++ concat ds),
   if Nat.eqb (length (concat ds)) 0 then st else bubble_set i (a ++ concat ds) st).
Proof.
  induction ds as [|d ds IH]; intros a st; simpl.
  - rewrite app_nil_r. reflexivity.
  - destruct d as [|x d].
    + simpl. apply IH.
    + cbv [set_bubble bind modify]. rewrite IH. simpl.
      rewrite <- app_assoc.
      destruct (Nat.eqb (length (concat ds)) 0) eqn:E.
      * destruct (concat ds); [|discriminate]. rewrite !app_nil_r. reflexivity.
      * unfold bubble_set at 1. simpl. unfold bubble_set. rewrite update_nth_twice. reflexivity.
Qed.

(** The chunks [retrieveTopChunks] selects are chunks of its input. *)
Lemma top_in qv cs it : In it (retrieveTopChunks qv cs) -> In (sch it) cs.
Proof.
  unfold retrieveTopChunks, retrieveTopChunks_k, topKByScore. intros H.
  apply Retrieval.in_firstn in H. apply (Permutation_in _ (Retrieval.sort_perm _)) in H.
  exact (proj1 (Retrieval.score_chunks_in _ _ _ H)).
Qed.

Lemma context_ok qv cs :
  Forall (fun c => to_string_throws (get c (js "docName")) = false /\
                   to_string_throws (get c (js "page")) = false /\
                   to_string_throws (get c (js "text")) = false) cs ->
  context_throws (retrieveTopChunks qv cs) = false.
Proof.
  intros H. unfold context_throws. apply not_true_is_false. intros E.
  apply existsb_exists in E as [it [Hin E]].
  apply top_in in Hin. rewrite Forall_forall in H. destruct (H _ Hin) as (H1 & H2 & H3).
  rewrite H1, H2, H3 in E. discriminate.
Qed.

Lemma details_ok qv cs :
  Forall (fun c => escapeHtml (get c (js "docName")) <> None /\
                   escapeHtml (get c (js "text")) <> None) cs ->
  details_render (retrieveTopChunks qv cs) = true.
Proof.
  intros H. unfold details_render. apply forallb_forall. intros it Hin.
  apply top_in in Hin. rewrite Forall_forall in H. destruct (H _ Hin) as [H1 H2].
  destruct (escapeHtml (get (sch it) (js "docName"))); [|contradiction].
  destruct (escapeHtml (get (sch it) (js "text"))); [reflexivity|contradiction].
Qed.

End AskRun.

(** X16: a non-blank question, with chunks indexed, a language model
    loaded and an embedder that is or can be loaded, is answered: the chat
    gains the question and one assistant message, whose bubble is the
    streamed answer (or the placeholder when the stream is empty) and whose
    meta lists the missing-citation warning in strict mode, the source line
    and, on request, the context details; the models are called once each
    (the embedder on the question alone), and documents, chunks, stores and
    alerts are unchanged.  The chunks are objects whose [docName], [page]
    and [text] render in a template literal without throwing, and, when the
    context details are shown, whose [docName] and [text] [escapeHtml]
    accepts (strings, [null] or absent, as [indexFile] and [importJSON]
    of exported data leave them). *)
Theorem X16_ask_success : forall nts E q strict sc st,
  js_trim q <> [] -> chunks st <> [] -> engine st = true ->
  (embedder st = true \/ embedder_load_ok E = true) ->
  Forall (fun c => chunk_readable c = true /\
                   to_string_throws (get c (js "docName")) = false /\
                   to_string_throws (get c (js "page")) = false /\
                   to_string_throws (get c (js "text")) = false) (chunks st) ->
  (sc = true -> Forall (fun c => escapeHtml (get c (js "docName")) <> None /\
                                 escapeHtml (get c (js "text")) <> None) (chunks st)) ->
  let top := retrieveTopChunks (match embed_model E [q] with v :: _ => v | [] => [] end)
                               (chunks st) in
  let msgs := [(js "system", buildSystemPrompt strict);
               (js "user", buildUserPrompt (buildContext nts top) q)] in
  let temperature := if strict then 2 # 10 else 5 # 10 in
  let answer := concat (chat_stream E msgs temperature) in
  let used := parseUsedCitations answer in
  let r := ask nts E q strict sc st in
  fst r = inl tt /\
  chat (snd r) = chat st ++
    [{| m_role := js "user"; m_bubble := q; m_meta := [] |};
     {| m_role := js "assistant";
        m_bubble := if Nat.eqb (length answer) 0 then js "답변 생성 중…" else answer;
        m_meta := (if strict && Nat.eqb (length used) 0
                   then [MetaText MSG_NO_CITATION] else []) ++
                  [MetaText MSG_SOURCE_LINE] ++
                  (if sc then [MetaDetails top used] else []) |}] /\
  calls (snd r) = calls st ++ [CallEmbed [q]; CallGenerate msgs temperature] /\
  docs (snd r) = docs st /\ chunks (snd r) = chunks st /\
  db_docs (snd r) = db_docs st /\ db_chunks (snd r) = db_chunks st /\
  alerts (snd r) = alerts st /\ embedder (snd r) = true /\
  status (snd r) = js "완료" /\ progress (snd r) = 0%Q.
Proof.
  intros nts E q strict sc st Hq Hc He Hl Hs Hd. cbv zeta.
  assert (Hk1 : forallb chunk_readable (chunks st) = true).
  { apply forallb_forall. intros x Hx. rewrite Forall_forall in Hs. apply (Hs x Hx). }
  assert (Hk2 : forall qv, context_throws (retrieveTopChunks qv (chunks st)) = false).
  { intros qv. apply AskRun.context_ok. eapply Forall_impl; [|exact Hs]. intros x Hx; apply Hx. }
  assert (Hk3 : sc = true -> forall qv, details_render (retrieveTopChunks qv (chunks st)) = true).
  { intros Hsc qv. apply AskRun.details_ok, Hd, Hsc. }
  clear Hs Hd.
  destruct st as [d c e b ch s p dd dc a cl].
  cbn [chunks engine embedder] in Hc, He, Hl, Hk1, Hk2, Hk3.
  unfold ask.
  rewrite (Flow.length_nonempty _ Hq). cbv [bind get_state chunks engine].
  rewrite (Flow.length_nonempty _ Hc), He. cbv [negb]. cbv beta iota.
  rewrite Flow.ensure_ok by exact Hl.
  match goal with |- context [Flow.loaded ?x] =>
    destruct (Flow.loaded_fields x) as (H1 & H2 & H3 & H4 & H5 & H6 & H7 & H8 & H9);
    destruct (Flow.loaded x) as [d0 c0 e0 b0 ch0 s0 p0 dd0 dc0 a0 cl0] end.
  cbn [docs chunks engine embedder chat status progress db_docs db_chunks alerts calls]
    in H1, H2, H3, H4, H5, H6, H7, H8, H9.
  subst.
  cbv [addMessage bind get_state modify ret setStatus setProgress embedTexts log_call
       set_bubble set_meta ensureEmbedder with_chat with_status with_progress with_calls
       docs chunks engine embedder chat status progress db_docs db_chunks alerts calls].
  rewrite Hk1, Hk2. cbv beta iota.
  rewrite AskRun.stream_run.
  destruct (Nat.eqb (length (concat _)) 0) eqn:Ea; unfold AskRun.bubble_set;
  destruct strict, sc; try rewrite (Hk3 eq_refl);
  cbv [andb with_chat docs chunks engine embedder chat status progress
       db_docs db_chunks alerts calls fst snd];
  try destruct (Nat.eqb (length (parseUsedCitations _)) 0);
  rewrite ?AskRun.update_nth_app_len; rewrite <- ?app_assoc;
  repeat split; reflexivity.
Qed.

Lemma X16_ask_success_witness :
  fst (ask (fun _ => []) demo_env (js "hello") true true state_after_import) = inl tt.
Proof.
  refine (proj1 (X16_ask_success (fun _ => []) demo_env (js "hello") true true
                   state_after_import _ _ _ _ _ _)).
  - vm_compute. discriminate.
  - discriminate.
  - reflexivity.
  - left. reflexivity.
  - constructor; [|constructor]. repeat split.
  - intros _. constructor; [|constructor]. split; discriminate.
Defined.

(** ** IndexedDB keys and stores *)

Module Store.

Lemma put_loop_fail : forall objs s,
  ~ Forall (fun o => valid_key (get o (js "id")) = true) objs ->
  snd (put_loop s objs) = false.
Proof.
  induction objs as [|o r IH]; intros s H; [exfalso; apply H; constructor|].
  simpl. unfold store_put at 1.
  destruct (valid_key (get o (js "id"))) eqn:Ho; [|reflexivity].
  apply IH. intros Hr. apply H. constructor; assumption.
Qed.

End Store.

(** ** Rejected and failing imports *)

(** X19: a file that is not JSON, or whose [docs] or [chunks] is missing or
    falsy, only adds an alert: documents, chunks, chat and stores are left
    as they were. *)
Theorem X19_import_rejected : forall parsed st,
  match parsed with
  | None => True
  | Some data => js_truthy (get data (js "docs")) = false \/
                 js_truthy (get data (js "chunks")) = false
  end ->
  onImportChange parsed st =
  (inl tt, with_alerts (alerts st ++
     [match parsed with
      | None => js "가져오기 실패" ++ NL ++ js "SyntaxError"
      | Some _ => MSG_BAD_FORMAT
      end]) st).
Proof.
  intros [data|] st H; [|reflexivity].
  unfold onImportChange, catch, importJSON.
  destruct H as [H|H]; rewrite H; [reflexivity|].
  rewrite orb_true_r. reflexivity.
Qed.

Lemma X19_import_rejected_witness :
  onImportChange (Some (JObj [(js "docs", JArr [])])) state_after_import =
  (inl tt, with_alerts (alerts state_after_import ++ [MSG_BAD_FORMAT]) state_after_import).
Proof.
  apply (X19_import_rejected (Some (JObj [(js "docs", JArr [])])) state_after_import).
  right. reflexivity.
Defined.

(** X20: importing arrays in which some document has no valid [id] fails
    with [DataError] after memory was replaced: the in-memory documents and
    chunks are the file's, the chunk store stays empty and the chat is
    cleared, while the failure is reported in an alert. *)
Theorem X20_import_data_error : forall data ds cs st,
  get data (js "docs") = JArr ds -> get data (js "chunks") = JArr cs ->
  ~ Forall (fun d => valid_key (get d (js "id")) = true) ds ->
  let r := onImportChange (Some data) st in
  fst r = inl tt /\ docs (snd r) = ds /\ chunks (snd r) = map null_embedding cs /\
  db_chunks (snd r) = [] /\ chat (snd r) = [] /\
  alerts (snd r) = alerts st ++ [js "가져오기 실패" ++ NL ++ js "DataError"].
Proof.
  intros data ds cs st Hd Hc Hbad r. unfold r, onImportChange, catch, importJSON.
  rewrite Hd, Hc.
  cbv [negb orb bind get_state modify dbClearAll spread_iter array_map ret alert js_truthy].
  cbv beta iota. rewrite App.dbPutMany_docs_run. simpl db_docs. simpl docs.
  pose proof (Store.put_loop_fail ds [] Hbad) as Hf.
  destruct (put_loop [] ds) as [s1 b1]. simpl in Hf. subst b1. simpl.
  repeat split; reflexivity.
Qed.

Lemma X20_import_data_error_witness :
  fst (onImportChange (Some payload_v1_doc_without_id) state_after_import) = inl tt.
Proof.
  refine (proj1 (X20_import_data_error payload_v1_doc_without_id
                   [JObj [(js "name", JStr (js "guide.txt"))]] [] state_after_import
                   eq_refl eq_refl _)).
  intros H. inversion H as [|? ? Hx _]. discriminate Hx.
Defined.

(** ** The clear button *)

(** X21: a declined confirmation changes nothing; a confirmed clear empties
    the documents, chunks, chat and both stores, and a question asked next
    only gets the upload alert. *)
Theorem X21_clear_then_ask : forall number_to_string E q strict showContext st,
  js_trim q <> [] ->
  onClear false st = (inl tt, st) /\
  let r := onClear true st in
  fst r = inl tt /\ docs (snd r) = [] /\ chunks (snd r) = [] /\ chat (snd r) = [] /\
  db_docs (snd r) = [] /\ db_chunks (snd r) = [] /\ alerts (snd r) = alerts st /\
  ask number_to_string E q strict showContext (snd r) =
  (inl tt, with_alerts (alerts st ++ [MSG_NO_CORPUS]) (snd r)).
Proof.
  intros nts E q strict sc st Hq. split; [reflexivity|].
  repeat split; try reflexivity.
  unfold ask. rewrite (Flow.length_nonempty _ Hq). reflexivity.
Qed.

Lemma X21_clear_then_ask_witness :
  fst (onClear true state_after_import) = inl tt.
Proof.
  refine (proj1 (proj2 (X21_clear_then_ask (fun _ => []) demo_env (js "q") true false
                          state_after_import _))).
  vm_compute. discriminate.
Defined.

(** ** The batch loop of the embedder *)

Module Batches.

(** What the loop leaves untouched. *)
Definition frame (st st' : app_state) : Prop :=
  docs st' = docs st /\ chat st' = chat st /\ alerts st' = alerts st /\
  db_docs st' = db_docs st /\ db_chunks st' = db_chunks st /\ calls st' = calls st /\
  embedder st' = embedder st /\ engine st' = engine st.

Lemma frame_refl st : frame st st.
Proof. repeat split. Qed.

Lemma frame_trans a b c : frame a b -> frame b c -> frame a c.
Proof. unfold frame. intros. intuition congruence. Qed.

Lemma embedTexts_run E texts st : embedder st = true ->
  embedTexts E texts st =
  (inl (embed_model E texts), with_calls (calls st ++ [CallEmbed texts]) st).
Proof.
  intros H. unfold embedTexts, bind at 1. rewrite Flow.ensure_ok by (left; exact H).
  unfold Flow.loaded. rewrite H. reflexivity.
Qed.

Lemma frame_calls a b l : frame a b ->
  frame (with_calls (calls a ++ l) a) (with_calls (calls b ++ l) b).
Proof.
  unfold frame. cbn [docs chat alerts db_docs db_chunks calls embedder engine with_calls].
  intros (H1 & H2 & H3 & H4 & H5 & H6 & H7 & H8). rewrite H6. repeat split; assumption.
Qed.

Lemma firstn_len_app {A} : forall (l1 l2 : list A) n, n = length l1 -> firstn n (l1 ++ l2) = l1.
Proof. induction l1 as [|x l1 IH]; intros l2 n ->; simpl; [reflexivity|]. rewrite IH; auto. Qed.

Lemma skipn_len_app {A} : forall (l1 l2 : list A) n, n = length l1 -> skipn n (l1 ++ l2) = l2.
Proof. induction l1 as [|x l1 IH]; intros l2 n ->; simpl; [reflexivity|]. apply IH; auto. Qed.

Lemma in_skipn' {A} (x : A) n l : In x (skipn n l) -> In x l.
Proof. intros H. rewrite <- (firstn_skipn n l). apply in_or_app. right. exact H. Qed.

Section Loop.
Variable text_arg : jval -> jstr.
Variable E : env.
Variable f : jstr -> list Q.
Hypothesis Hf : forall texts, embed_model E texts = map f texts.

(** A chunk object after the assignment of its embedding. *)
Definition embedded (c : jval) : jval :=
  match c with
  | JObj fs => JObj (set_prop (js "embedding") (JF32 (f (chunk_text text_arg c))) fs)
  | _ => c
  end.

Definition is_obj (c : jval) : Prop := exists fs, c = JObj fs.

Lemma assign_all : forall b, Forall is_obj b ->
  assign_embeddings b (map f (map (chunk_text text_arg) b)) = (map embedded b, None).
Proof.
  induction b as [|c r IH]; intros H; [reflexivity|].
  inversion H as [|? ? [fs ->] Hr]; subst. simpl. rewrite (IH Hr). reflexivity.
Qed.

Lemma embedded_obj c : is_obj c -> is_obj (embedded c).
Proof. intros [fs ->]. eexists. reflexivity. Qed.

Variable commit : list jval -> M unit.
Variable report : nat -> M unit.
Variable K : list jval -> list jval -> list jval.
Hypothesis HK : forall a b c, K a (K b c) = K a c.
Hypothesis Hcommit : forall cs st, exists st',
  commit cs st = (inl tt, st') /\ frame st st' /\ chunks st' = K cs (chunks st).
Hypothesis Hreport : forall k st, exists st',
  report k st = (inl tt, st') /\ frame st st' /\ chunks st' = chunks st.

Lemma loop_done fuel i cs st : (length cs <= i)%nat ->
  embed_batches text_arg fuel E commit report i cs st = (inl cs, st).
Proof.
  intros H. destruct fuel; [reflexivity|]. simpl.
  replace (i <? length cs)%nat with false by (symmetry; apply Nat.ltb_ge; exact H).
  reflexivity.
Qed.

Lemma loop_run : forall fuel i cs st,
  embedder st = true -> Forall is_obj cs ->
  (i < length cs)%nat -> (length cs <= i + BATCH * fuel)%nat ->
  exists st' batches,
    embed_batches text_arg fuel E commit report i cs st =
      (inl (firstn i cs ++ map embedded (skipn i cs)), st') /\
    chunks st' = K (firstn i cs ++ map embedded (skipn i cs)) (chunks st) /\
    frame (with_calls (calls st ++ map CallEmbed batches) st) st' /\
    concat batches = map (chunk_text text_arg) (skipn i cs) /\
    Forall (fun b => (1 <= length b <= BATCH)%nat) batches.
Proof.
  induction fuel as [|fuel IH]; intros i cs st Hb Hobj Hi Hfuel; [lia|].
  cbn [embed_batches]. replace (i <? length cs)%nat with true
    by (symmetry; apply Nat.ltb_lt; exact Hi).
  set (batch := firstn BATCH (skipn i cs)).
  assert (Hbo : Forall is_obj batch).
  { apply Forall_forall. intros x Hx. rewrite Forall_forall in Hobj. apply Hobj.
    apply Retrieval.in_firstn in Hx. apply in_skipn' in Hx. exact Hx. }
  assert (Hsplit : skipn i cs = batch ++ skipn (i + BATCH) cs).
  { unfold batch. rewrite <- (firstn_skipn BATCH (skipn i cs)) at 1.
    rewrite skipn_skipn. f_equal. f_equal. lia. }
  assert (Hblen : (1 <= length batch <= BATCH)%nat).
  { unfold batch. rewrite length_firstn, length_skipn. unfold BATCH in *. lia. }
  unfold bind at 1. rewrite embedTexts_run by exact Hb. cbv beta iota.
  rewrite Hf, (assign_all batch Hbo). cbv beta iota.
  set (cs' := firstn i cs ++ map embedded batch ++ skipn (i + BATCH) cs).
  set (st1 := with_calls (calls st ++ [CallEmbed (map (chunk_text text_arg) batch)]) st).
  destruct (Hcommit cs' st1) as (st2 & E2 & F2 & K2).
  unfold bind at 1. rewrite E2. cbv beta iota.
  destruct (Hreport (i + length batch)%nat st2) as (st3 & E3 & F3 & K3).
  unfold bind at 1. rewrite E3. cbv beta iota.
  assert (Hfi : length (firstn i cs) = i) by (rewrite length_firstn; lia).
  assert (Hlen : length cs' = length cs).
  { unfold cs'. rewrite !length_app, length_map, Hfi.
    rewrite <- (firstn_skipn i cs) at 2. rewrite length_app, Hfi, Hsplit, length_app. lia. }
  assert (Hobj' : Forall is_obj cs').
  { unfold cs'. rewrite <- (firstn_skipn i cs), Hsplit in Hobj.
    apply Forall_app in Hobj as [Ho1 Ho2]. apply Forall_app in Ho2 as [Ho2 Ho3].
    apply Forall_app. split; [exact Ho1|]. apply Forall_app. split; [|exact Ho3].
    apply Forall_map. eapply Forall_impl; [|exact Ho2]. apply embedded_obj. }
  assert (F13 : frame st1 st3) by (eapply frame_trans; eassumption).
  destruct (Nat.le_gt_cases (length cs) (i + BATCH)) as [Hend | Hmore].
  - rewrite loop_done by lia.
    assert (Htail : skipn (i + BATCH) cs = []) by (apply skipn_all2; lia).
    assert (Hcs' : cs' = firstn i cs ++ map embedded (skipn i cs)).
    { unfold cs'. rewrite Hsplit, Htail, !app_nil_r. reflexivity. }
    exists st3, [map (chunk_text text_arg) batch]. split; [rewrite Hcs'; reflexivity|].
    split; [rewrite K3, K2, <- Hcs'; reflexivity|].
    split; [simpl; exact F13|].
    split; [simpl; rewrite app_nil_r, Hsplit, Htail, app_nil_r; reflexivity|].
    constructor; [rewrite length_map; exact Hblen | constructor].
  - assert (Hb8 : length batch = BATCH).
    { unfold batch. rewrite length_firstn, length_skipn. unfold BATCH in *. lia. }
    assert (Hb3 : embedder st3 = true).
    { destruct F13 as (_ & _ & _ & _ & _ & _ & H7 & _). rewrite H7. exact Hb. }
    destruct (IH (i + BATCH)%nat cs' st3 Hb3 Hobj' ltac:(lia) ltac:(lia))
      as (st' & bs & Er & Kr & Fr & Cr & Br).
    assert (Hpre : firstn (i + BATCH) cs' = firstn i cs ++ map embedded batch).
    { unfold cs'. rewrite app_assoc. apply firstn_len_app.
      rewrite length_app, length_map, Hfi, Hb8. reflexivity. }
    assert (Hpost : skipn (i + BATCH) cs' = skipn (i + BATCH) cs).
    { unfold cs'. rewrite app_assoc. apply skipn_len_app.
      rewrite length_app, length_map, Hfi, Hb8. reflexivity. }
    rewrite Hpre, Hpost in *.
    assert (Hres : (firstn i cs ++ map embedded batch) ++ map embedded (skipn (i + BATCH) cs) =
                   firstn i cs ++ map embedded (skipn i cs)).
    { rewrite Hsplit, map_app, app_assoc. reflexivity. }
    rewrite Hres in Er, Kr.
    exists st', (map (chunk_text text_arg) batch :: bs). split; [exact Er|].
    split; [rewrite Kr, K3, K2, HK; reflexivity|].
    split.
    + eapply frame_trans; [|exact Fr].
      pose proof (frame_calls st1 st3 (map CallEmbed bs) F13) as Fc.
      destruct F13 as (_ & _ & _ & _ & _ & H6 & _). rewrite H6 in *.
      unfold st1 in Fc at 1. cbn [calls with_calls] in Fc. rewrite <- app_assoc in Fc.
      exact Fc.
    + split; [simpl; rewrite Cr, Hsplit, map_app; reflexivity|].
      constructor; [rewrite length_map; exact Hblen | exact Br].
Qed.

End Loop.

End Batches.

(** ** Re-indexing all chunks *)

(** X22: With no chunk in memory, the rebuild button only alerts that there
    is nothing to re-index: the embedder is not loaded, nothing is embedded
    or stored, and no other field of the state changes. *)
Theorem X22_rebuild_nothing (text_arg : jval -> jstr) (E : env) (st : app_state) :
  chunks st = [] ->
  onRebuild text_arg E st = (inl tt, with_alerts (alerts st ++ [MSG_NOTHING_TO_REINDEX]) st).
Proof.
  intros H. unfold onRebuild, catch, rebuildAllEmbeddings, bind, get_state.
  rewrite H. reflexivity.
Qed.

Lemma X22_rebuild_nothing_witness :
  onRebuild (fun _ => []) demo_env (with_chunks [] state_after_import) =
  (inl tt, with_alerts (alerts (with_chunks [] state_after_import) ++ [MSG_NOTHING_TO_REINDEX])
             (with_chunks [] state_after_import)).
Proof. apply X22_rebuild_nothing. reflexivity. Defined.

(** X23: When there are chunks but the embedding pipeline is not loaded and
    fails to load, the rebuild button reports [재인덱싱 실패\nError]; the
    chunks, documents, chat, both stores and the call log are left as they
    were, and the embedder stays unloaded. *)
Theorem X23_rebuild_load_failure (text_arg : jval -> jstr) (E : env) (st : app_state) :
  chunks st <> [] -> embedder st = false -> embedder_load_ok E = false ->
  onRebuild text_arg E st =
  (inl tt, with_alerts (alerts st ++ [js "재인덱싱 실패" ++ NL ++ js "Error"])
             (Flow.load_failed st)).
Proof.
  intros Hne H1 H2. unfold onRebuild, catch, rebuildAllEmbeddings.
  unfold bind at 1, get_state at 1. cbv beta iota. rewrite (Flow.length_nonempty _ Hne).
  unfold bind at 1. rewrite (Flow.ensure_fail E st H1 H2). reflexivity.
Qed.

Lemma X23_rebuild_load_failure_witness :
  onRebuild (fun _ => []) {| embed_model := embed_model demo_env; chat_stream := chat_stream demo_env;
                             embedder_load_ok := false; now_iso := now_iso demo_env |}
    (with_embedder false state_after_import) =
  (inl tt, with_alerts (alerts (with_embedder false state_after_import) ++
                        [js "재인덱싱 실패" ++ NL ++ js "Error"])
             (Flow.load_failed (with_embedder false state_after_import))).
Proof. apply X23_rebuild_load_failure; [discriminate | reflexivity | reflexivity]. Defined.

(** X24: Re-indexing a non-empty list of chunk objects, with an embedder that
    is loaded or loads and embeds each text on its own, sets every chunk's
    [embedding] to the vector of its text, in batches of one to eight texts
    that together are all the chunk texts in order, one embedding call per
    batch.  It then writes all chunks to the chunk store: it succeeds, ends
    with the status [전체 재인덱싱 완료] and progress 0, when every chunk has a
    valid key, and otherwise rejects with [DataError] after storing the
    chunks before the first invalid one.  Documents, chat, alerts and the
    document store are untouched. *)
Theorem X24_rebuild_success (text_arg : jval -> jstr) (E : env) (f : jstr -> list Q)
  (st : app_state) :
  (forall texts, embed_model E texts = map f texts) ->
  chunks st <> [] -> Forall Batches.is_obj (chunks st) ->
  embedder st = true \/ embedder_load_ok E = true ->
  let cs' := map (Batches.embedded text_arg f) (chunks st) in
  let r := rebuildAllEmbeddings text_arg E st in
  exists batches,
    fst r = (if snd (put_loop (db_chunks st) cs') then inl tt else inr DataError) /\
    chunks (snd r) = cs' /\
    db_chunks (snd r) = fst (put_loop (db_chunks st) cs') /\
    calls (snd r) = calls st ++ map CallEmbed batches /\
    concat batches = map (chunk_text text_arg) (chunks st) /\
    Forall (fun b => (1 <= length b <= BATCH)%nat) batches /\
    docs (snd r) = docs st /\ chat (snd r) = chat st /\ alerts (snd r) = alerts st /\
    db_docs (snd r) = db_docs st /\ embedder (snd r) = true /\
    (snd (put_loop (db_chunks st) cs') = true ->
       status (snd r) = js "전체 재인덱싱 완료" /\ progress (snd r) = 0%Q).
Proof.
  intros Hf Hne Hobj Hemb cs' r. subst r.
  destruct (rebuildAllEmbeddings text_arg E st) as [res sfin] eqn:HR.
  unfold rebuildAllEmbeddings in HR.
  unfold bind at 1, get_state at 1 in HR. cbv beta iota in HR.
  rewrite (Flow.length_nonempty _ Hne) in HR.
  unfold bind at 1 in HR. rewrite Flow.ensure_ok in HR by exact Hemb. cbv beta iota in HR.
  destruct (Flow.loaded_fields st) as (L1 & L2 & L3 & L4 & L5 & L6 & L7 & L8 & L9).
  remember (Flow.loaded st) as s0 eqn:Hs0. clear Hs0.
  cbv [bind get_state setStatus setProgress modify ret] in HR.
  set (s1 := with_progress _ (with_status _ s0)) in HR.
  set (n := length (chunks s1)) in HR.
  assert (Hc1 : chunks s1 = chunks st) by (unfold s1; cbn [chunks with_progress with_status]; exact L3).
  assert (Hcommit : forall cs st0, exists st',
    (fun cs => modify (with_chunks cs)) cs st0 = (inl tt, st') /\
    Batches.frame st0 st' /\ chunks st' = (fun a _ => a) cs (chunks st0)).
  { intros cs st0. eexists. split; [reflexivity|]. split; [repeat split|reflexivity]. }
  assert (Hreport : forall k st0, exists st',
    (fun k => setProgress ((5 # 100) + (95 # 100) * (Qnat k / Qnat n))%Q) k st0 = (inl tt, st') /\
    Batches.frame st0 st' /\ chunks st' = chunks st0).
  { intros k st0. eexists. split; [reflexivity|]. split; [repeat split|reflexivity]. }
  assert (Hb1 : embedder s1 = true) by (unfold s1; cbn [embedder with_progress with_status]; exact L1).
  assert (Hobj1 : Forall Batches.is_obj (chunks s1)) by (rewrite Hc1; exact Hobj).
  assert (Hi : (0 < length (chunks s1))%nat)
    by (rewrite Hc1; destruct (chunks st); [contradiction | simpl; lia]).
  destruct (Batches.loop_run text_arg E f Hf _ _ (fun a _ => a) (fun _ _ _ => eq_refl)
              Hcommit Hreport n 0 (chunks s1) s1 Hb1 Hobj1 Hi ltac:(unfold n, BATCH; lia))
    as (s2 & batches & Er & Kr & Fr & Cr & Br).
  cbn [firstn skipn app] in Er, Kr, Cr. cbv [setProgress modify] in Er.
  rewrite Er in HR. cbv beta iota in HR.
  rewrite Kr, Hc1 in HR. fold cs' in HR.
  destruct Fr as (F1 & F2 & F3 & F4 & F5 & F6 & F7 & F8).
  cbn [docs chat alerts db_docs db_chunks calls embedder engine with_calls] in F1, F2, F3, F4, F5, F6, F7, F8.
  unfold s1 in F1, F2, F3, F4, F5, F6, F7.
  cbn [docs chat alerts db_docs db_chunks calls embedder with_progress with_status] in F1, F2, F3, F4, F5, F6, F7.
  unfold dbPutMany_chunks in HR. cbv [bind get_state modify ret throw] in HR.
  rewrite F5, L7 in HR.
  destruct (put_loop (db_chunks st) cs') as [store' ok] eqn:Hput.
  exists batches. cbn [fst snd].
  destruct ok; injection HR as <- <-;
    cbn [fst snd chunks docs chat alerts db_docs db_chunks calls embedder status progress
         with_status with_progress with_db_chunks];
    repeat split; try congruence; try (rewrite Cr, Hc1; reflexivity); try exact Br;
    rewrite Kr, Hc1; reflexivity.
Qed.

Lemma X24_rebuild_success_witness :
  chunks state_after_import <> [] /\
  exists batches,
    fst (rebuildAllEmbeddings (fun _ => []) demo_env state_after_import) = inl tt /\
    calls (snd (rebuildAllEmbeddings (fun _ => []) demo_env state_after_import)) =
      calls state_after_import ++ map CallEmbed batches.
Proof.
  split; [discriminate|].
  destruct (X24_rebuild_success (fun _ => []) demo_env (fun _ => [1; 0]%Q) state_after_import
              (fun texts => eq_refl) ltac:(discriminate)
              ltac:(repeat constructor; eexists; reflexivity) (or_introl eq_refl))
    as (batches & H1 & _ & _ & H4 & _).
  exists batches. split; [rewrite H1; reflexivity | exact H4].
Defined.

(** ** Indexing a file *)

Module IndexRun.

Lemma bind_step {A B} (m : M A) (k : A -> M B) st a st' :
  m st = (inl a, st') -> bind m k st = k a st'.
Proof. intros H. unfold bind. rewrite H. reflexivity. Qed.

Lemma setStatus_run msg st : setStatus msg st = (inl tt, with_status msg st).
Proof. reflexivity. Qed.

Lemma setProgress_run v st : setProgress v st = (inl tt, with_progress (clamp01 v) st).
Proof. reflexivity. Qed.

Lemma modify_run g st : modify g st = (inl tt, g st).
Proof. reflexivity. Qed.

Lemma ret_run {A} (a : A) st : ret a st = (inl a, st).
Proof. reflexivity. Qed.

Definition page_run (docId name : jstr) (pageNo : nat) (pages : list jstr) : list jval :=
  concat (map (fun p => page_chunks docId name (fst p) (chunkText_default (snd p)))
              (combine (seq pageNo (length pages)) pages)).

Lemma pdf_loop_run docId name numPages : forall pages pageNo acc st, exists st',
  pdf_pages_loop docId name numPages pageNo pages acc st =
    (inl (acc ++ page_run docId name pageNo pages), st') /\
  Batches.frame st st' /\ chunks st' = chunks st.
Proof.
  induction pages as [|pt r IH]; intros pageNo acc st.
  - exists st. unfold page_run. simpl. rewrite app_nil_r.
    split; [reflexivity|]. split; [apply Batches.frame_refl | reflexivity].
  - cbn [pdf_pages_loop].
    rewrite (bind_step _ _ _ _ _ (setStatus_run _ _)).
    rewrite (bind_step _ _ _ _ _ (setProgress_run _ _)).
    edestruct (IH (S pageNo))
      as (st' & E1 & F1 & C1).
    exists st'. rewrite E1. unfold page_run. cbn [length seq combine map concat].
    rewrite <- app_assoc. fold (page_run docId name (S pageNo) r).
    split; [reflexivity|]. split; [|exact C1].
    eapply Batches.frame_trans; [|exact F1]. repeat split.
Qed.

Definition chunk_of (docId name : jstr) (c : jval) : Prop :=
  exists p k piece, c = make_chunk docId name p k piece.

Lemma page_chunks_of docId name p pieces : Forall (chunk_of docId name) (page_chunks docId name p pieces).
Proof.
  unfold page_chunks. apply Forall_map, Forall_forall. intros [k piece] _.
  exists p, k, piece. reflexivity.
Qed.

Lemma page_run_of docId name p pages : Forall (chunk_of docId name) (page_run docId name p pages).
Proof.
  unfold page_run. apply Forall_concat, Forall_map, Forall_forall. intros x _.
  apply page_chunks_of.
Qed.

Lemma embedded_make_chunk text_arg f docId name p k piece :
  Batches.embedded text_arg f (make_chunk docId name p k piece) =
  JObj [(js "id", JStr (docId ++ js "|p" ++ index_key p ++ js "|c" ++ index_key k));
        (js "docId", JStr docId); (js "docName", JStr name);
        (js "page", JNum (Qnat p)); (js "text", JStr piece);
        (js "embedding", JF32 (f piece))].
Proof. reflexivity. Qed.

Lemma chunk_of_ids text_arg f docId name cs : Forall (chunk_of docId name) cs ->
  Forall (fun o => valid_key (get o (js "id")) = true) (map (Batches.embedded text_arg f) cs).
Proof.
  intros H. apply Forall_map. eapply Forall_impl; [|exact H].
  intros c (p & k & piece & ->). rewrite embedded_make_chunk. reflexivity.
Qed.

Lemma chunk_of_obj docId name cs : Forall (chunk_of docId name) cs -> Forall Batches.is_obj cs.
Proof.
  intros H. eapply Forall_impl; [|exact H]. intros c (p & k & piece & ->). eexists. reflexivity.
Qed.

Lemma map_combine_seq_snd {A B} (h : A -> B) : forall (l : list A) k,
  map (fun p => h (snd p)) (combine (seq k (length l)) l) = map h l.
Proof. induction l as [|x r IH]; intros k; [reflexivity|]. simpl. rewrite IH. reflexivity. Qed.

Lemma page_chunks_texts text_arg docId name p pieces :
  map (chunk_text text_arg) (page_chunks docId name p pieces) = pieces.
Proof.
  unfold page_chunks. rewrite map_map.
  rewrite (map_ext _ (fun q => (fun x => x) (snd q))) by (intros [k piece]; reflexivity).
  transitivity (map (fun x : jstr => x) pieces); [exact (map_combine_seq_snd (fun x : jstr => x) pieces 0) | apply map_id].
Qed.

Lemma page_run_texts text_arg docId name p pages :
  map (chunk_text text_arg) (page_run docId name p pages) = concat (map chunkText_default pages).
Proof.
  unfold page_run. rewrite concat_map, map_map.
  rewrite (map_ext _ (fun q => chunkText_default (snd q)))
    by (intros q; apply page_chunks_texts).
  f_equal. apply map_combine_seq_snd.
Qed.

Lemma dbPutMany_docs_ok objs st :
  Forall (fun o => valid_key (get o (js "id")) = true) objs ->
  dbPutMany_docs objs st = (inl tt, with_db_docs (fst (put_loop (db_docs st) objs)) st).
Proof. intros H. rewrite App.dbPutMany_docs_run, App.put_loop_ok by exact H. reflexivity. Qed.

Lemma dbPutMany_chunks_ok objs st :
  Forall (fun o => valid_key (get o (js "id")) = true) objs ->
  dbPutMany_chunks objs st = (inl tt, with_db_chunks (fst (put_loop (db_chunks st) objs)) st).
Proof. intros H. rewrite App.dbPutMany_chunks_run, App.put_loop_ok by exact H. reflexivity. Qed.

Lemma render_after_index (cs ds newc : list jval) (doc : jval) :
  doc_renders doc = true -> forallb chunk_readable newc = true ->
  (Nat.eqb (length (ds ++ [doc])) 0 || forallb chunk_readable (cs ++ newc) && forallb doc_renders (ds ++ [doc]))
  = forallb chunk_readable cs && forallb doc_renders ds.
Proof.
  intros Hd Hn. rewrite length_app, Nat.add_comm. simpl Nat.eqb. rewrite orb_false_l.
  rewrite !forallb_app, Hn. simpl. rewrite Hd, !andb_true_r. reflexivity.
Qed.

Lemma embedded_readable text_arg f cs : Forall Batches.is_obj cs ->
  forallb chunk_readable (map (Batches.embedded text_arg f) cs) = true.
Proof.
  induction 1 as [|c cs [fs ->] _ IH]; [reflexivity|]. simpl. exact IH.
Qed.

End IndexRun.

(** The run of [indexFile] when the embedder is available. *)
Lemma indexFile_ok (text_arg : jval -> jstr) (E : env) (f : jstr -> list Q)
  (docId : jstr) (file : upload) (st : app_state) :
  (forall texts, embed_model E texts = map f texts) ->
  embedder st = true \/ embedder_load_ok E = true ->
  f_read_error file = None ->
  let pages := map pdf_page_text (f_pdf_pages file) in
  let newc := if is_pdf file then IndexRun.page_run docId (f_name file) 1 pages
              else page_chunks docId (f_name file) 1 (chunkText_default (f_text file)) in
  let doc := JObj [(js "id", JStr docId); (js "name", JStr (f_name file));
                   (js "type", JStr (f_type file)); (js "size", JNum (f_size file));
                   (js "addedAt", JStr (now_iso E))] in
  let r := indexFile text_arg E docId file st in
  exists batches,
    fst r = (if forallb chunk_readable (chunks st) && forallb doc_renders (docs st) then inl tt
             else inr (TypeError (js "cannot render the document list"))) /\
    docs (snd r) = docs st ++ [doc] /\
    chunks (snd r) = chunks st ++ map (Batches.embedded text_arg f) newc /\
    db_docs (snd r) = fst (put_loop (db_docs st) [doc]) /\
    db_chunks (snd r) = fst (put_loop (db_chunks st) (map (Batches.embedded text_arg f) newc)) /\
    calls (snd r) = calls st ++ map CallEmbed batches /\
    concat batches = (if is_pdf file then concat (map chunkText_default pages)
                      else chunkText_default (f_text file)) /\
    Forall (fun b => (1 <= length b <= BATCH)%nat) batches /\
    chat (snd r) = chat st /\ alerts (snd r) = alerts st /\ embedder (snd r) = true /\
    status (snd r) = js "완료: " ++ f_name file /\ progress (snd r) = 0%Q.
Proof.
  intros Hf Hemb Hread pages newc doc r. subst r.
  destruct (indexFile text_arg E docId file st) as [res sfin] eqn:HR.
  unfold indexFile in HR. fold doc in HR.
  rewrite (IndexRun.bind_step _ _ _ _ _ (Flow.ensure_ok E st Hemb)) in HR.
  destruct (Flow.loaded_fields st) as (L1 & L2 & L3 & L4 & L5 & L6 & L7 & L8 & L9).
  remember (Flow.loaded st) as s0 eqn:Hs0. clear Hs0.
  rewrite (IndexRun.bind_step _ _ _ _ _ (IndexRun.setStatus_run _ _)) in HR.
  rewrite (IndexRun.bind_step _ _ _ _ _ (IndexRun.setProgress_run _ _)) in HR.
  rewrite Hread in HR.
  rewrite (IndexRun.bind_step _ _ _ _ _ (IndexRun.ret_run _ _)) in HR.
  set (s1 := with_progress _ (with_status _ s0)) in HR.
  assert (Hbr : exists s2, (if is_pdf file then
       cs <- pdf_pages_loop docId (f_name file) (length pages) 1 pages [] ;;
       setStatus (js "청크 생성 완료: " ++ f_name file ++ js " (" ++ index_key (length cs) ++ js "개)") ;;
       setProgress (42 # 100) ;;
       ret cs
     else
       let cs := page_chunks docId (f_name file) 1 (chunkText_default (f_text file)) in
       setStatus (js "청크 생성 완료: " ++ f_name file ++ js " (" ++ index_key (length cs) ++ js "개)") ;;
       setProgress (30 # 100) ;;
       ret cs) s1 = (inl newc, s2) /\ Batches.frame s1 s2 /\ chunks s2 = chunks s1).
  { unfold newc. destruct (is_pdf file).
    - destruct (IndexRun.pdf_loop_run docId (f_name file) (length pages) pages 1 [] s1)
        as (s2 & E2 & F2 & C2).
      rewrite (IndexRun.bind_step _ _ _ _ _ E2). cbn [app].
      eexists. split; [reflexivity|]. split; [|exact C2].
      eapply Batches.frame_trans; [exact F2|]. repeat split.
    - eexists. split; [reflexivity|]. split; [repeat split | reflexivity]. }
  destruct Hbr as (s2 & E2 & F2 & C2).
  rewrite (IndexRun.bind_step _ _ _ _ _ E2) in HR.
  rewrite (IndexRun.bind_step _ _ _ _ _ (IndexRun.setStatus_run _ _)) in HR.
  set (s3 := with_status _ s2) in HR.
  set (n := length newc) in HR.
  assert (Hnewc : Forall (IndexRun.chunk_of docId (f_name file)) newc).
  { unfold newc. destruct (is_pdf file); [apply IndexRun.page_run_of | apply IndexRun.page_chunks_of]. }
  assert (Htexts : map (chunk_text text_arg) newc =
                   (if is_pdf file then concat (map chunkText_default pages)
                    else chunkText_default (f_text file))).
  { unfold newc. destruct (is_pdf file);
      [apply IndexRun.page_run_texts | apply IndexRun.page_chunks_texts]. }
  assert (Hcommit : forall cs st0, exists st',
    (fun _ : list jval => ret tt) cs st0 = (inl tt, st') /\
    Batches.frame st0 st' /\ chunks st' = (fun _ c => c) cs (chunks st0)).
  { intros cs st0. exists st0. split; [reflexivity|]. split; [apply Batches.frame_refl | reflexivity]. }
  assert (Hreport : forall k st0, exists st',
    (fun k => setProgress ((45 # 100) + (50 # 100) * (Qnat k / max1 n))%Q) k st0 = (inl tt, st') /\
    Batches.frame st0 st' /\ chunks st' = chunks st0).
  { intros k st0. eexists. split; [reflexivity|]. split; [repeat split|reflexivity]. }
  assert (Hloop : exists s4 batches,
    embed_batches text_arg n E (fun _ => ret tt)
      (fun k => setProgress ((45 # 100) + (50 # 100) * (Qnat k / max1 n))%Q) 0 newc s3 =
      (inl (map (Batches.embedded text_arg f) newc), s4) /\
    chunks s4 = chunks s3 /\
    Batches.frame (with_calls (calls s3 ++ map CallEmbed batches) s3) s4 /\
    concat batches = map (chunk_text text_arg) newc /\
    Forall (fun b => (1 <= length b <= BATCH)%nat) batches).
  { destruct newc as [|c0 cs0] eqn:Hn.
    - exists s3, []. rewrite Batches.loop_done by reflexivity.
      split; [reflexivity|]. split; [reflexivity|].
      split; [rewrite app_nil_r; apply Batches.frame_refl|]. split; constructor.
    - assert (Hb3 : embedder s3 = true).
      { destruct F2 as (_ & _ & _ & _ & _ & _ & H7 & _). unfold s3; cbn [embedder with_status].
        rewrite H7. unfold s1; cbn [embedder with_status with_progress]. exact L1. }
      destruct (Batches.loop_run text_arg E f Hf _ _ (fun _ c => c) (fun _ _ _ => eq_refl)
                  Hcommit Hreport n 0 (c0 :: cs0) s3 Hb3 (IndexRun.chunk_of_obj _ _ _ Hnewc)
                  ltac:(simpl; lia) ltac:(unfold n, BATCH; lia))
        as (s4 & batches & Er & Kr & Fr & Cr & Br).
      exists s4, batches. cbn [firstn skipn app] in Er, Kr, Cr. auto. }
  destruct Hloop as (s4 & batches & Er & Kr & Fr & Cr & Br).
  rewrite (IndexRun.bind_step _ _ _ _ _ Er) in HR.
  rewrite (IndexRun.bind_step _ _ _ _ _ (IndexRun.modify_run _ _)) in HR.
  rewrite (IndexRun.bind_step _ _ _ _ _ (IndexRun.modify_run _ _)) in HR.
  rewrite (IndexRun.bind_step _ _ _ _ _ (IndexRun.dbPutMany_docs_ok [doc] _ ltac:(constructor; [reflexivity | constructor]))) in HR.
  rewrite (IndexRun.bind_step _ _ _ _ _
             (IndexRun.dbPutMany_chunks_ok _ _ (IndexRun.chunk_of_ids text_arg f _ _ _ Hnewc))) in HR.
  rewrite (IndexRun.bind_step _ _ _ _ _ (IndexRun.setStatus_run _ _)) in HR.
  rewrite (IndexRun.bind_step _ _ _ _ _ (IndexRun.setProgress_run _ _)) in HR.
  rewrite App.renderDocs_run in HR. injection HR as <- <-.
  destruct F2 as (F21 & F22 & F23 & F24 & F25 & F26 & F27 & F28).
  destruct Fr as (G1 & G2 & G3 & G4 & G5 & G6 & G7 & G8).
  unfold s3, s1 in *.
  cbn [docs chat alerts db_docs db_chunks calls embedder engine chunks with_calls with_status with_progress] in *.
  exists batches. cbn [fst snd docs chunks db_docs db_chunks calls chat alerts embedder status progress
    with_progress with_status with_db_chunks with_db_docs with_chunks with_docs].
  rewrite IndexRun.render_after_index;
    [| reflexivity | exact (IndexRun.embedded_readable _ _ _ (IndexRun.chunk_of_obj _ _ _ Hnewc))].
  assert (Ed : docs s4 = docs st) by congruence. assert (Ec : chunks s4 = chunks st) by congruence.
  rewrite Ed, Ec.
  repeat split; try congruence; try exact Br; try (rewrite Cr; exact Htexts).
  rewrite G4, F24, L6. reflexivity.
Qed.

(** X25: Indexing a file that can be read (neither [file.text()] nor
    [file.arrayBuffer()] nor pdf.js rejects), with an embedder that is
    loaded or loads and embeds each text on its own, builds the new chunks
    from the pieces of the file's text (page 1), or of each PDF page's text
    (pages 1, 2, ...), each with its [embedding] set to the vector of its
    text; they are appended to the chunks, the document record to the
    documents, and both are written to their stores.  The embedding calls
    are batches of one to eight texts that together are all the pieces in
    order.  Chat and alerts are untouched; the status ends as
    [완료: <name>] and the progress as 0.  The final [renderDocs] succeeds,
    and with it the indexing, exactly when no chunk already held is [null]
    or [undefined] and every document already held can be rendered;
    otherwise it throws a [TypeError] after all of the above. *)
Theorem X25_indexFile_success (text_arg : jval -> jstr) (E : env) (f : jstr -> list Q)
  (docId : jstr) (file : upload) (st : app_state) :
  (forall texts, embed_model E texts = map f texts) ->
  embedder st = true \/ embedder_load_ok E = true ->
  f_read_error file = None ->
  let pages := map pdf_page_text (f_pdf_pages file) in
  let newc := if is_pdf file then IndexRun.page_run docId (f_name file) 1 pages
              else page_chunks docId (f_name file) 1 (chunkText_default (f_text file)) in
  let doc := JObj [(js "id", JStr docId); (js "name", JStr (f_name file));
                   (js "type", JStr (f_type file)); (js "size", JNum (f_size file));
                   (js "addedAt", JStr (now_iso E))] in
  let r := indexFile text_arg E docId file st in
  exists batches,
    fst r = (if forallb chunk_readable (chunks st) && forallb doc_renders (docs st) then inl tt
             else inr (TypeError (js "cannot render the document list"))) /\
    docs (snd r) = docs st ++ [doc] /\
    chunks (snd r) = chunks st ++ map (Batches.embedded text_arg f) newc /\
    db_docs (snd r) = fst (put_loop (db_docs st) [doc]) /\
    db_chunks (snd r) = fst (put_loop (db_chunks st) (map (Batches.embedded text_arg f) newc)) /\
    calls (snd r) = calls st ++ map CallEmbed batches /\
    concat batches = (if is_pdf file then concat (map chunkText_default pages)
                      else chunkText_default (f_text file)) /\
    Forall (fun b => (1 <= length b <= BATCH)%nat) batches /\
    chat (snd r) = chat st /\ alerts (snd r) = alerts st /\ embedder (snd r) = true /\
    status (snd r) = js "완료: " ++ f_name file /\ progress (snd r) = 0%Q.
Proof. exact (indexFile_ok text_arg E f docId file st). Qed.

Lemma X25_indexFile_success_witness :
  exists batches,
    fst (indexFile (fun _ => []) demo_env (js "d2") demo_upload state_after_import) = inl tt /\
    calls (snd (indexFile (fun _ => []) demo_env (js "d2") demo_upload state_after_import)) =
      calls state_after_import ++ map CallEmbed batches.
Proof.
  destruct (X25_indexFile_success (fun _ => []) demo_env (fun _ => [1; 0]%Q) (js "d2") demo_upload
              state_after_import (fun texts => eq_refl) (or_introl eq_refl) eq_refl)
    as (batches & H1 & _ & _ & _ & _ & H6 & _).
  exists batches. split; [exact H1 | exact H6].
Defined.

(** ** Chunk ids *)

Module Ids.

Lemma uint_codes_inj : forall u v, uint_codes u = uint_codes v -> u = v.
Proof.
  induction u; destruct v; simpl; intros H; try discriminate; try reflexivity;
    injection H as H; f_equal; auto.
Qed.

Lemma index_key_inj a b : index_key a = index_key b -> a = b.
Proof.
  unfold index_key. intros H. apply uint_codes_inj in H.
  rewrite <- (DecimalNat.Unsigned.of_to a), <- (DecimalNat.Unsigned.of_to b), H. reflexivity.
Qed.

Lemma index_key_no_bar n : ~ In 124 (index_key n).
Proof.
  intros H. pose proof (Cite.uint_codes_digits (Nat.to_uint n)) as D.
  rewrite Forall_forall in D. apply D in H. discriminate.
Qed.

Lemma split_bar : forall (a1 a2 b1 b2 : jstr), ~ In 124 a1 -> ~ In 124 a2 ->
  a1 ++ 124 :: b1 = a2 ++ 124 :: b2 -> a1 = a2 /\ b1 = b2.
Proof.
  induction a1 as [|x r IH]; intros a2 b1 b2 H1 H2 H; destruct a2 as [|y r2]; simpl in H.
  - injection H as H. auto.
  - injection H as Hy _. exfalso. apply H2. left. congruence.
  - injection H as Hx _. exfalso. apply H1. left. congruence.
  - injection H as Hxy H. subst y.
    destruct (IH r2 b1 b2) as [-> ->]; auto.
    + intros Hin. apply H1. right. exact Hin.
    + intros Hin. apply H2. right. exact Hin.
Qed.

Definition chunk_id (c : jval) : jval := get c (js "id").

Lemma chunk_id_make docId name p k piece :
  chunk_id (make_chunk docId name p k piece) =
  JStr (docId ++ 124 :: 112 :: index_key p ++ 124 :: 99 :: index_key k).
Proof. reflexivity. Qed.

Lemma chunk_id_inj docId name p1 k1 x1 p2 k2 x2 :
  chunk_id (make_chunk docId name p1 k1 x1) = chunk_id (make_chunk docId name p2 k2 x2) ->
  p1 = p2 /\ k1 = k2.
Proof.
  rewrite !chunk_id_make. intros H. injection H as H. apply app_inv_head in H.
  injection H as H. apply split_bar in H as [Hp Hk]; try apply index_key_no_bar.
  injection Hk as Hk. split; apply index_key_inj; assumption.
Qed.

Lemma in_combine_seq_ge {A} : forall (l : list A) s q,
  In q (combine (seq s (length l)) l) -> (s <= fst q)%nat.
Proof.
  induction l as [|x r IH]; intros s q H; [contradiction|].
  destruct H as [<- | H]; [simpl; lia|]. apply IH in H. lia.
Qed.

Lemma nodup_blocks {A B} (blk : nat -> A -> list B)
  (Hblk : forall k a, NoDup (blk k a))
  (Hsep : forall k1 a1 k2 a2 x, In x (blk k1 a1) -> In x (blk k2 a2) -> k1 = k2) :
  forall l s, NoDup (concat (map (fun q => blk (fst q) (snd q)) (combine (seq s (length l)) l))).
Proof.
  induction l as [|a r IH]; intros s; [constructor|].
  simpl. apply NoDup_app; [apply Hblk | apply IH|].
  intros x Hx Hin. apply in_concat in Hin as (b & Hb & Hxb).
  apply in_map_iff in Hb as (q & <- & Hq). apply in_combine_seq_ge in Hq.
  pose proof (Hsep _ _ _ _ _ Hx Hxb). lia.
Qed.

Lemma concat_singletons {A B} (g : A -> B) : forall l, concat (map (fun q => [g q]) l) = map g l.
Proof. induction l as [|x r IH]; [reflexivity|]. simpl. rewrite IH. reflexivity. Qed.

Lemma page_chunks_ids_nodup docId name p pieces :
  NoDup (map chunk_id (page_chunks docId name p pieces)).
Proof.
  unfold page_chunks. rewrite map_map.
  pose proof (nodup_blocks (fun k piece => [chunk_id (make_chunk docId name p k piece)])
                (fun _ _ => NoDup_cons _ (@in_nil _ _) (NoDup_nil _))) as N.
  rewrite <- (concat_singletons (fun q => chunk_id (make_chunk docId name p (fst q) (snd q)))).
  apply N. intros k1 a1 k2 a2 x [<-|[]] [H|[]]. apply chunk_id_inj in H. easy.
Qed.

Lemma in_page_chunks docId name p pieces x :
  In x (map chunk_id (page_chunks docId name p pieces)) ->
  exists k piece, x = chunk_id (make_chunk docId name p k piece).
Proof.
  unfold page_chunks. rewrite map_map. intros H. apply in_map_iff in H as ([k piece] & <- & _).
  exists k, piece. reflexivity.
Qed.

Lemma page_run_ids_nodup docId name s pages :
  NoDup (map chunk_id (IndexRun.page_run docId name s pages)).
Proof.
  unfold IndexRun.page_run. rewrite concat_map, map_map.
  apply (nodup_blocks (fun k pt => map chunk_id (page_chunks docId name k (chunkText_default pt)))).
  - intros k pt. apply page_chunks_ids_nodup.
  - intros k1 a1 k2 a2 x H1 H2.
    apply in_page_chunks in H1 as (i1 & x1 & ->). apply in_page_chunks in H2 as (i2 & x2 & H2).
    apply chunk_id_inj in H2. easy.
Qed.

End Ids.

(** X26: The chunks [indexFile] builds for one file, from its text or from
    the pages of a PDF, carry pairwise distinct ids
    [<docId>|p<page>|c<index>]: no new chunk overwrites another one of the
    same file in the chunk store. *)
Theorem X26_new_chunk_ids_distinct (docId : jstr) (file : upload) :
  let pages := map pdf_page_text (f_pdf_pages file) in
  let newc := if is_pdf file then IndexRun.page_run docId (f_name file) 1 pages
              else page_chunks docId (f_name file) 1 (chunkText_default (f_text file)) in
  NoDup (map (fun c => get c (js "id")) newc).
Proof.
  intros pages newc. unfold newc. destruct (is_pdf file);
    [apply Ids.page_run_ids_nodup | apply Ids.page_chunks_ids_nodup].
Qed.

(** ** The add button *)

Lemma index_files_ok (text_arg : jval -> jstr) (E : env) (f : jstr -> list Q) :
  (forall texts, embed_model E texts = map f texts) ->
  forall files st, embedder st = true \/ embedder_load_ok E = true ->
  Forall (fun p => f_read_error (snd p) = None) files ->
  forallb chunk_readable (chunks st) && forallb doc_renders (docs st) = true ->
  let doc_of := fun p : jstr * upload =>
    JObj [(js "id", JStr (fst p)); (js "name", JStr (f_name (snd p)));
          (js "type", JStr (f_type (snd p))); (js "size", JNum (f_size (snd p)));
          (js "addedAt", JStr (now_iso E))] in
  let chunks_of := fun p : jstr * upload =>
    map (Batches.embedded text_arg f)
      (if is_pdf (snd p)
       then IndexRun.page_run (fst p) (f_name (snd p)) 1 (map pdf_page_text (f_pdf_pages (snd p)))
       else page_chunks (fst p) (f_name (snd p)) 1 (chunkText_default (f_text (snd p)))) in
  let r := index_files text_arg E files st in
  fst r = inl tt /\
  docs (snd r) = docs st ++ map doc_of files /\
  chunks (snd r) = chunks st ++ concat (map chunks_of files) /\
  chat (snd r) = chat st /\ alerts (snd r) = alerts st.
Proof.
  intros Hf files. induction files as [|[d fl] r IH]; intros st Hemb Hread Hrender doc_of chunks_of.
  - cbn. rewrite !app_nil_r. repeat split.
  - inversion Hread as [|? ? Hr0 Hrs]; subst. cbn [snd] in Hr0.
    pose proof (indexFile_ok text_arg E f d fl st Hf Hemb Hr0) as H. cbv zeta in H.
    destruct H as (batches & H1 & H2 & H3 & _ & _ & _ & _ & _ & H9 & H10 & H11 & _).
    destruct (indexFile text_arg E d fl st) as [res s'] eqn:HI.
    cbn [fst snd] in H1, H2, H3, H9, H10, H11. rewrite Hrender in H1. subst res.
    assert (Hstep : index_files text_arg E ((d, fl) :: r) st = index_files text_arg E r s').
    { cbn [index_files]. unfold bind at 1, catch at 1. rewrite HI. reflexivity. }
    rewrite Hstep.
    assert (Hrender' : forallb chunk_readable (chunks s') && forallb doc_renders (docs s') = true).
    { rewrite H2, H3, !forallb_app, IndexRun.embedded_readable.
      - apply andb_true_iff in Hrender as [Hr1 Hr2]. rewrite Hr1, Hr2. reflexivity.
      - destruct (is_pdf fl); eapply IndexRun.chunk_of_obj;
          [apply IndexRun.page_run_of | apply IndexRun.page_chunks_of]. }
    destruct (IH s' (or_introl H11) Hrs Hrender') as (R1 & R2 & R3 & R4 & R5).
    fold doc_of chunks_of in R2, R3.
    split; [exact R1|]. split; [rewrite R2, H2, <- app_assoc; reflexivity|].
    split; [rewrite R3, H3, <- app_assoc; reflexivity|]. split; congruence.
Qed.

(** X27: Adding a non-empty selection of files that can all be read, with
    an embedder that is loaded or loads and embeds each text on its own, to
    a state whose chunks are not [null] or [undefined] and whose documents
    can all be rendered in the list, indexes every file in the order of the
    selection and reports no failure: the documents gain one record per file
    and the chunks gain each file's embedded chunks, in that order, while
    chat and alerts are left as they were. *)
Theorem X27_onAdd_all_indexed (text_arg : jval -> jstr) (E : env) (f : jstr -> list Q)
  (files : list (jstr * upload)) (st : app_state) :
  (forall texts, embed_model E texts = map f texts) ->
  embedder st = true \/ embedder_load_ok E = true ->
  files <> [] ->
  Forall (fun p => f_read_error (snd p) = None) files ->
  forallb chunk_readable (chunks st) && forallb doc_renders (docs st) = true ->
  let doc_of := fun p : jstr * upload =>
    JObj [(js "id", JStr (fst p)); (js "name", JStr (f_name (snd p)));
          (js "type", JStr (f_type (snd p))); (js "size", JNum (f_size (snd p)));
          (js "addedAt", JStr (now_iso E))] in
  let chunks_of := fun p : jstr * upload =>
    map (Batches.embedded text_arg f)
      (if is_pdf (snd p)
       then IndexRun.page_run (fst p) (f_name (snd p)) 1 (map pdf_page_text (f_pdf_pages (snd p)))
       else page_chunks (fst p) (f_name (snd p)) 1 (chunkText_default (f_text (snd p)))) in
  let r := onAdd text_arg E files st in
  fst r = inl tt /\
  docs (snd r) = docs st ++ map doc_of files /\
  chunks (snd r) = chunks st ++ concat (map chunks_of files) /\
  chat (snd r) = chat st /\ alerts (snd r) = alerts st.
Proof.
  intros Hf Hemb Hne Hread Hrender. unfold onAdd. destruct files as [|p r]; [contradiction|].
  exact (index_files_ok text_arg E f Hf (p :: r) st Hemb Hread Hrender).
Qed.

Lemma X27_onAdd_all_indexed_witness :
  fst (onAdd (fun _ => []) demo_env [(js "d2", demo_upload); (js "d3", demo_upload)]
         state_after_import) = inl tt.
Proof.
  refine (proj1 (X27_onAdd_all_indexed (fun _ => []) demo_env (fun _ => [1; 0]%Q)
                   [(js "d2", demo_upload); (js "d3", demo_upload)] state_after_import
                   (fun texts => eq_refl) (or_introl eq_refl) ltac:(discriminate)
                   ltac:(repeat constructor) eq_refl)).
Defined.



(** ** Files that cannot be read *)

(** X29: When reading a file fails ([file.text()] or [file.arrayBuffer()]
    rejects, or pdf.js cannot open the PDF), with an embedder that is or can
    be loaded, [indexFile] rejects with that error after setting the status
    to [읽는 중: <name>] and the progress to 0.05: documents, chunks, stores,
    chat, alerts and model calls are unchanged.  The [btnAdd] loop then
    shows [인덱싱 실패: <name>] and the error, and goes on with the next file
    from that state. *)
Theorem X29_indexFile_read_error (text_arg : jval -> jstr) (E : env) (docId : jstr)
  (file : upload) (e : jstr) (rest : list (jstr * upload)) (st : app_state) :
  embedder st = true \/ embedder_load_ok E = true ->
  f_read_error file = Some e ->
  let r := indexFile text_arg E docId file st in
  fst r = inr (ReadError e) /\
  docs (snd r) = docs st /\ chunks (snd r) = chunks st /\
  db_docs (snd r) = db_docs st /\ db_chunks (snd r) = db_chunks st /\
  chat (snd r) = chat st /\ alerts (snd r) = alerts st /\ calls (snd r) = calls st /\
  status (snd r) = js "읽는 중: " ++ f_name file /\ progress (snd r) = (5 # 100)%Q /\
  index_files text_arg E ((docId, file) :: rest) st =
  index_files text_arg E rest
    (with_alerts (alerts (snd r) ++ [js "인덱싱 실패: " ++ f_name file ++ NL ++ e]) (snd r)).
Proof.
  intros Hemb Hread r.
  assert (HR : r = (inr (ReadError e),
                    with_progress (clamp01 (5 # 100))
                      (with_status (js "읽는 중: " ++ f_name file) (Flow.loaded st)))).
  { unfold r, indexFile.
    rewrite (IndexRun.bind_step _ _ _ _ _ (Flow.ensure_ok E st Hemb)).
    rewrite (IndexRun.bind_step _ _ _ _ _ (IndexRun.setStatus_run _ _)).
    rewrite (IndexRun.bind_step _ _ _ _ _ (IndexRun.setProgress_run _ _)).
    rewrite Hread. reflexivity. }
  destruct (Flow.loaded_fields st) as (L1 & L2 & L3 & L4 & L5 & L6 & L7 & L8 & L9).
  assert (Hstep : index_files text_arg E ((docId, file) :: rest) st =
                  index_files text_arg E rest
                    (with_alerts (alerts (snd r) ++ [js "인덱싱 실패: " ++ f_name file ++ NL ++ e])
                                 (snd r))).
  { cbn [index_files]. unfold bind at 1, catch at 1. fold r. rewrite HR. reflexivity. }
  rewrite HR in Hstep |- *. cbn [fst snd docs chunks db_docs db_chunks chat alerts calls status
                                 progress with_progress with_status].
  repeat split; try assumption; reflexivity.
Qed.

Lemma X29_indexFile_read_error_witness :
  fst (indexFile (fun _ => []) demo_env (js "d2") broken_pdf_upload state_after_import)
  = inr (ReadError (js "InvalidPDFException: Invalid PDF structure.")).
Proof.
  exact (proj1 (X29_indexFile_read_error (fun _ => []) demo_env (js "d2") broken_pdf_upload
                  (js "InvalidPDFException: Invalid PDF structure.") [] state_after_import
                  (or_introl eq_refl) eq_refl)).
Defined.

(** ** Imports whose documents cannot be listed *)

(** X30: Importing a payload whose [docs] and [chunks] are arrays of
    records with valid [id]s, some document of which [renderDocs] cannot
    render (for instance one whose [name] is a number), replaces the
    documents and chunks in memory and in the stores, but the import input's
    listener then reports a failure ([가져오기 실패] and the [TypeError])
    instead of the success message. *)
Theorem X30_import_unlisted_doc : forall data ds cs st,
  get data (js "docs") = JArr ds -> get data (js "chunks") = JArr cs ->
  Forall (fun d => valid_key (get d (js "id")) = true) ds ->
  Forall (fun c => valid_key (get c (js "id")) = true) cs ->
  forallb doc_renders ds = false ->
  let r := onImportChange (Some data) st in
  fst r = inl tt /\
  docs (snd r) = ds /\ chunks (snd r) = map null_embedding cs /\
  db_docs (snd r) = fst (put_loop [] ds) /\
  db_chunks (snd r) = fst (put_loop [] (map null_embedding cs)) /\
  exists msg, alerts (snd r) = alerts st ++ [js "가져오기 실패" ++ NL ++ js "TypeError: " ++ msg].
Proof.
  intros data ds cs st Hd Hc Hds Hcs Hr r.
  destruct (App.import_arrays data ds cs st Hd Hc) as [H1 [H2 [H3 H4]]].
  destruct (App.import_arrays_db data ds cs st Hd Hc) as [H5 H6].
  cbv zeta in H3, H4, H6.
  assert (Hm : forallb (fun o => valid_key (get o (js "id"))) (map null_embedding cs) = true).
  { apply App.forallb_Forall_true, Forall_map. eapply Forall_impl; [|exact Hcs].
    intros c Hv. rewrite App.null_embedding_id. exact Hv. }
  rewrite (App.forallb_Forall_true _ _ Hds), Hm, Hr in H3, H4. rewrite (App.forallb_Forall_true _ _ Hds) in H6.
  simpl andb in H4. rewrite app_nil_r in H4.
  unfold r, onImportChange, catch.
  destruct (importJSON (Some data) st) as [res s'] eqn:E. cbn [fst snd] in *. subst res.
  unfold alert, modify. cbn [fst snd docs chunks db_docs db_chunks alerts with_alerts].
  split; [reflexivity|]. split; [exact H1|]. split; [exact H2|]. split; [exact H5|].
  split; [exact H6|]. exists (js "cannot render the document list"). rewrite H4. reflexivity.
Qed.

Lemma X30_import_unlisted_doc_witness :
  fst (onImportChange (Some payload_name_number) state_after_import) = inl tt /\
  docs (snd (onImportChange (Some payload_name_number) state_after_import))
    = [JObj [(js "id", JStr (js "d1")); (js "name", JNum 5)]].
Proof.
  destruct (X30_import_unlisted_doc payload_name_number
              [JObj [(js "id", JStr (js "d1")); (js "name", JNum 5)]] [] state_after_import
              eq_refl eq_refl ltac:(repeat constructor) ltac:(constructor) eq_refl)
    as (H1 & H2 & _).
  split; [exact H1 | exact H2].
Defined.
